(** * device-sdk-c: name/value lists and the service lifecycle

    A shallow embedding of [src/c/devsdk-base.c] (name/value pair lists,
    protocol property lists, the list comparison macro) and of the service
    lifecycle code ([devsdk_service_start], [startConfigured],
    [devsdk_post_readings], [devsdk_service_stop]).

    Conventions of the embedding:
    - a C string is a [string] (without the NUL byte, which ends it); a
      [char *] that may be [NULL] is an [option string]; [strdup] is the
      identity;
    - a singly linked list ([next] pointers, [NULL] at the end) is a [list]
      of its nodes, head first, so that a [NULL] list is the empty list;
    - an out-parameter ([long *val], [devsdk_error *err]) is passed in and
      returned;
    - a call to a collaborator that is not part of these files (REST
      clients, registry, HTTP server, driver, libc) is answered by an
      environment record and recorded in a trace. *)

From Stdlib Require Import ZArith Ascii String.
From stdpp Require Import gmap strings list.

Local Open Scope string_scope.
Local Open Scope list_scope.
Local Open Scope Z_scope.

(** ** libc: string comparison *)

(** [strcmp]: negative, zero or positive as the first string is below, equal
    to or above the second. *)
Definition strcmp (a b : string) : Z :=
  match String.compare a b with
  | Eq => 0
  | Lt => -1
  | Gt => 1
  end.

Definition strdup (s : string) : string := s.

(** ** Name/value pair lists ([devsdk_nvpairs]) *)

Record nvpair : Type := NVPair { nv_name : string; nv_value : string }.

(** A [devsdk_nvpairs *]: the chain of nodes from the given one on. *)
Abbreviation devsdk_nvpairs := (list nvpair).

(** [devsdk_nvpairs_new]: the new node points at the old list. *)
Definition devsdk_nvpairs_new (name value : string) (list : devsdk_nvpairs)
  : devsdk_nvpairs :=
  NVPair (strdup name) (strdup value) :: list.

(** The [for] loop of [devsdk_nvpairs_value]. *)
Fixpoint nvpairs_value_loop (nvp : devsdk_nvpairs) (name : string) : option string :=
  match nvp with
  | [] => None
  | p :: next =>
      if Z.eqb (strcmp (nv_name p) name) 0 then Some (nv_value p)
      else nvpairs_value_loop next name
  end.

(** [devsdk_nvpairs_value]: [None] is the [NULL] name and the [NULL] result. *)
Definition devsdk_nvpairs_value (nvp : devsdk_nvpairs) (name : option string)
  : option string :=
  match name with
  | Some n => nvpairs_value_loop nvp n
  | None => None
  end.

(** The [while] loop of [devsdk_nvpairs_dup]: [result] is the copy built so
    far, and [*last = copy; last = &(copy->next)] hangs the new node at its
    end. *)
Fixpoint nvpairs_dup_loop (p : devsdk_nvpairs) (result : devsdk_nvpairs)
  : devsdk_nvpairs :=
  match p with
  | [] => result
  | n :: next =>
      let copy := NVPair (strdup (nv_name n)) (strdup (nv_value n)) in
      nvpairs_dup_loop next (result ++ [copy])
  end.

Definition devsdk_nvpairs_dup (p : devsdk_nvpairs) : devsdk_nvpairs :=
  nvpairs_dup_loop p [].

(** ** The list comparison macro [LIST_EQUAL_FUNCTION] *)

(** A C [unsigned] counter: 32 bits, wrapping. *)
Definition UINT_MODULUS : Z := 2 ^ 32.

Definition uint_incr (n : Z) : Z := (n + 1) mod UINT_MODULUS.

Section ListEqual.
Context {T : Type}.
Variable NAMEFIELD : T → string.
Variable CMPFUNC : T → T → bool.

(** [for (l = l1; l; l = l->next, n1++);] *)
Fixpoint count_nodes (l : list T) (n : Z) : Z :=
  match l with
  | [] => n
  | _ :: next => count_nodes next (uint_incr n)
  end.

(** The inner loop: the first node of [l2] whose key is that of [l], or
    [None] when the loop runs off the end ([found == NULL]). *)
Fixpoint find_same_name (l : T) (found : list T) : option T :=
  match found with
  | [] => None
  | f :: next =>
      if Z.eqb (strcmp (NAMEFIELD l) (NAMEFIELD f)) 0 then Some f
      else find_same_name l next
  end.

(** The outer loop over [l1]. *)
Fixpoint list_equal_loop (l : list T) (l2 : list T) : bool :=
  match l with
  | [] => true
  | x :: next =>
      match find_same_name x l2 with
      | None => false
      | Some found =>
          if negb (CMPFUNC x found) then false
          else list_equal_loop next l2
      end
  end.

Definition list_equal (l1 l2 : list T) : bool :=
  let n1 := count_nodes l1 0 in
  let n2 := count_nodes l2 0 in
  if negb (Z.eqb n1 n2) then false
  else list_equal_loop l1 l2.
End ListEqual.

Definition pair_equal (p1 p2 : nvpair) : bool :=
  Z.eqb (strcmp (nv_value p1) (nv_value p2)) 0.

Definition devsdk_nvpairs_equal (l1 l2 : devsdk_nvpairs) : bool :=
  list_equal nv_name pair_equal l1 l2.

(** ** Protocol property lists ([devsdk_protocols]) *)

Record protocol : Type :=
  Protocol { prot_name : string; prot_properties : devsdk_nvpairs }.

Abbreviation devsdk_protocols := (list protocol).

Definition devsdk_protocols_new (name : string) (properties : devsdk_nvpairs)
    (list : devsdk_protocols) : devsdk_protocols :=
  Protocol (strdup name) (devsdk_nvpairs_dup properties) :: list.

(** A [NULL] list is the empty list: the [NULL] that the lookup returns
    when no protocol bears the name, or when the name is [NULL], is also
    what it returns for a protocol that has no properties. *)
Fixpoint protocols_properties_loop (prots : devsdk_protocols) (name : string)
  : devsdk_nvpairs :=
  match prots with
  | [] => []
  | p :: next =>
      if Z.eqb (strcmp (prot_name p) name) 0 then prot_properties p
      else protocols_properties_loop next name
  end.

Definition devsdk_protocols_properties (prots : devsdk_protocols)
    (name : option string) : devsdk_nvpairs :=
  match name with
  | Some n => protocols_properties_loop prots n
  | None => []
  end.

(** The [for] loop of [devsdk_protocols_dup]: [newprot->next = result;
    result = newprot] puts each copy in front of the ones made before. *)
Fixpoint protocols_dup_loop (p : devsdk_protocols) (result : devsdk_protocols)
  : devsdk_protocols :=
  match p with
  | [] => result
  | x :: next =>
      let newprot :=
        Protocol (strdup (prot_name x)) (devsdk_nvpairs_dup (prot_properties x)) in
      protocols_dup_loop next (newprot :: result)
  end.

Definition devsdk_protocols_dup (e : devsdk_protocols) : devsdk_protocols :=
  protocols_dup_loop e [].

Definition protocol_equal (p1 p2 : protocol) : bool :=
  devsdk_nvpairs_equal (prot_properties p1) (prot_properties p2).

Definition devsdk_protocols_equal (l1 l2 : devsdk_protocols) : bool :=
  list_equal prot_name protocol_equal l1 l2.

(** ** libc: numeric conversions

    [strtol] and [strtoul] as ISO C describes them, for the bases the code
    uses (0 and, through [atoi], 10), on an LP64 platform. The result is
    the converted value, the text [*endptr] points at, and the value of
    [errno] after the call ([errno] is 0 before each call in the code). *)

Definition LONG_MAX : Z := 2 ^ 63 - 1.
Definition LONG_MIN : Z := - 2 ^ 63.
Definition ULONG_MAX : Z := 2 ^ 64 - 1.
Definition INT_MODULUS : Z := 2 ^ 32.
Definition INT_MAX : Z := 2 ^ 31 - 1.
Definition INT_MIN : Z := - 2 ^ 31.
Definition ERANGE : Z := 34.

Definition isspace (c : ascii) : bool :=
  let n := N_of_ascii c in
  N.eqb n 32 || (N.leb 9 n && N.leb n 13).

(** The value of a character as a digit: 0-9, then letters of either case
    from 10 on. *)
Definition digit_value (c : ascii) : option Z :=
  let n := Z.of_N (N_of_ascii c) in
  if (48 <=? n) && (n <=? 57) then Some (n - 48)
  else if (97 <=? n) && (n <=? 122) then Some (n - 97 + 10)
  else if (65 <=? n) && (n <=? 90) then Some (n - 65 + 10)
  else None.

Fixpoint skip_space (s : string) : string :=
  match s with
  | String c rest => if isspace c then skip_space rest else s
  | EmptyString => s
  end.

(** Consumes the digits of [base] at the front of [s]: the accumulated
    value, whether any digit was seen, and what is left. *)
Fixpoint scan_digits (base : Z) (s : string) (acc : Z) (any : bool)
  : Z * bool * string :=
  match s with
  | String c rest =>
      match digit_value c with
      | Some d =>
          if d <? base then scan_digits base rest (acc * base + d) true
          else (acc, any, s)
      | None => (acc, any, s)
      end
  | EmptyString => (acc, any, s)
  end.

Definition is_x (c : ascii) : bool :=
  let n := N_of_ascii c in N.eqb n 120 || N.eqb n 88.

(** The digits after white space and sign. With base 0 a leading [0x] or [0X]
    selects base 16 when a hexadecimal digit follows (otherwise only the
    [0] is converted), a leading [0] selects base 8, anything else base 10. *)
Definition scan_number (base : Z) (s : string) : Z * bool * string :=
  if base =? 0 then
    match s with
    | String "0" (String x rest) =>
        if is_x x then
          match scan_digits 16 rest 0 false with
          | (v, true, rest') => (v, true, rest')
          | (_, false, _) => (0, true, String x rest)
          end
        else scan_digits 8 s 0 false
    | String "0" EmptyString => scan_digits 8 s 0 false
    | _ => scan_digits 10 s 0 false
    end
  else scan_digits base s 0 false.

Definition scan_sign (s : string) : bool * string :=
  match s with
  | String "-" rest => (true, rest)
  | String "+" rest => (false, rest)
  | _ => (false, s)
  end.

Definition strtol (nptr : string) (base : Z) : Z * string * Z :=
  let '(neg, s) := scan_sign (skip_space nptr) in
  match scan_number base s with
  | (_, false, _) => (0, nptr, 0)
  | (v, true, rest) =>
      let l := if neg then - v else v in
      if l <? LONG_MIN then (LONG_MIN, rest, ERANGE)
      else if LONG_MAX <? l then (LONG_MAX, rest, ERANGE)
      else (l, rest, 0)
  end.

Definition strtoul (nptr : string) (base : Z) : Z * string * Z :=
  let '(neg, s) := scan_sign (skip_space nptr) in
  match scan_number base s with
  | (_, false, _) => (0, nptr, 0)
  | (v, true, rest) =>
      if ULONG_MAX <? v then (ULONG_MAX, rest, ERANGE)
      else ((if neg then (- v) mod (ULONG_MAX + 1) else v), rest, 0)
  end.

(** [atoi (s)] is [(int) strtol (s, NULL, 10)]. *)
Definition to_int (z : Z) : Z :=
  (z + INT_MODULUS / 2) mod INT_MODULUS - INT_MODULUS / 2.

Definition atoi (s : string) : Z :=
  let '(v, _, _) := strtol s 10 in to_int v.

(** ** Typed accessors *)

(** [v && *v] *)
Definition nonempty (v : option string) : bool :=
  match v with
  | Some (String _ _) => true
  | _ => false
  end.

(** [*end == 0] *)
Definition at_end (e : string) : bool :=
  match e with
  | EmptyString => true
  | String _ _ => false
  end.

(** The accessors take the current content of [*val] and give back the
    result and the content of [*val] afterwards. *)
Definition devsdk_nvpairs_long_value (nvp : devsdk_nvpairs)
    (name : option string) (val : Z) : bool * Z :=
  let v := devsdk_nvpairs_value nvp name in
  if nonempty v then
    let '(l, e, errno) := strtol (default "" v) 0 in
    if (errno =? 0) && at_end e then (true, l) else (false, val)
  else (false, val).

Definition devsdk_nvpairs_ulong_value (nvp : devsdk_nvpairs)
    (name : option string) (val : Z) : bool * Z :=
  let v := devsdk_nvpairs_value nvp name in
  if nonempty v then
    let '(l, e, errno) := strtoul (default "" v) 0 in
    if (errno =? 0) && at_end e then (true, l) else (false, val)
  else (false, val).

Section FloatAccessor.
(** [float] and [strtof] are left open: the accessor only moves the
    converted value around. *)
Context {float : Type}.
Variable strtof : string → float * string * Z.

Definition devsdk_nvpairs_float_value (nvp : devsdk_nvpairs)
    (name : option string) (val : float) : bool * float :=
  let v := devsdk_nvpairs_value nvp name in
  if nonempty v then
    let '(f, e, errno) := strtof (default "" v) in
    if (errno =? 0) && at_end e then (true, f) else (false, val)
  else (false, val).
End FloatAccessor.

(** ** Errors ([devsdk_error])

    Modelled from the spec: [errorlist.h] is not among the sources at hand.
    The named errors are those of the error taxonomy; [EDGEX_OK] is the one
    value whose [code] is 0, and [EDGEX_ERROR] stands for any other error a
    collaborator reports. *)

Inductive devsdk_error : Type :=
  | EDGEX_OK
  | EDGEX_NO_DEVICE_IMPL
  | EDGEX_NO_DEVICE_NAME
  | EDGEX_NO_DEVICE_VERSION
  | EDGEX_INVALID_ARG
  | EDGEX_BAD_CONFIG
  | EDGEX_REMOTE_SERVER_DOWN
  | EDGEX_DRIVER_UNSTART
  | EDGEX_ERROR (reason : string).

(** [err->code], as the code tests it: zero or not. *)
Definition code (e : devsdk_error) : bool :=
  match e with
  | EDGEX_OK => false
  | _ => true
  end.

(** ** Configuration and service records *)

Record timespec : Type := Timespec { tv_sec : Z; tv_nsec : Z }.

Record edgex_device_service_endpoint : Type :=
  Endpoint { ep_host : option string; ep_port : Z }.

Record edgex_service_endpoints : Type :=
  Endpoints {
    eps_data : edgex_device_service_endpoint;
    eps_metadata : edgex_device_service_endpoint;
    eps_logging : edgex_device_service_endpoint }.

(** [connectretries] is held as the [int] that [ping_client] is given. *)
Record edgex_device_serviceinfo : Type :=
  ServiceInfo {
    si_host : option string;
    si_port : Z;
    si_timeout : timespec;
    si_connectretries : Z;
    si_startupmsg : option string;
    si_checkinterval : timespec;
    si_labels : list string }.

Record edgex_device_logginginfo : Type :=
  LoggingInfo { li_useremote : bool; li_file : option string; li_level : Z }.

Record edgex_device_deviceinfo : Type :=
  DeviceInfo { di_datatransform : bool; di_profilesdir : option string }.

Record edgex_device_config : Type :=
  Config {
    cfg_service : edgex_device_serviceinfo;
    cfg_endpoints : edgex_service_endpoints;
    cfg_logging : edgex_device_logginginfo;
    cfg_device : edgex_device_deviceinfo;
    cfg_driverconf : devsdk_nvpairs }.

Inductive edgex_device_adminstate : Type := LOCKED | UNLOCKED.
Inductive edgex_device_operatingstate : Type := ENABLED | DISABLED.

(** Metadata entities. *)
Record edgex_addressable : Type :=
  Addressable {
    addr_id : string;
    addr_name : string;
    addr_origin : Z;
    addr_method : string;
    addr_protocol : string;
    addr_address : string;
    addr_port : Z;
    addr_path : string }.

Record edgex_deviceservice : Type :=
  DeviceService {
    ds_id : string;
    ds_name : string;
    ds_addressable : edgex_addressable;
    ds_labels : list string;
    ds_operatingState : edgex_device_operatingstate;
    ds_adminState : edgex_device_adminstate;
    ds_created : Z }.

Record edgex_cmdinfo : Type := CmdInfo { cmd_name : string; cmd_isget : bool }.

Record edgex_deviceprofile : Type :=
  DeviceProfile { prof_name : string; prof_cmdinfo : list edgex_cmdinfo }.

Record edgex_device : Type :=
  Device {
    dev_id : string;
    dev_name : string;
    dev_protocols : devsdk_protocols;
    dev_profile : edgex_deviceprofile }.

Record edgex_watcher : Type := Watcher { watcher_name : string }.

(** Driver readings and the serialized event made from them are opaque. *)
Record devsdk_commandresult : Type := CommandResult { cr_values : list string }.
Record edgex_event_cooked : Type := CookedEvent { ev_payload : string }.

(** What [doPost] is handed on the worker pool. *)
Record postparams : Type := PostParams { pp_event : edgex_event_cooked }.

(** A parsed configuration file, seen through the functions the lifecycle
    code applies to it: [edgex_device_getRegURL], [edgex_device_parseToml],
    the [Clients] table and the [DeviceList] array.

    Modelled from the spec: the TOML parser and [config.c] are not among the
    sources at hand. *)
Record toml_table_t : Type :=
  Toml {
    toml_RegURL : option string;
    toml_pairs : devsdk_nvpairs;
    toml_Clients : edgex_service_endpoints;
    toml_DeviceList : list string }.

(** [http://%s:%u<path>] *)
Record url : Type := Url { url_host : string; url_port : Z; url_path : string }.

Inductive log_impl : Type := edgex_log_tofile | edgex_log_torest.
Inductive log_dest : Type := LogFile (path : string) | LogUrl (u : url).

(** A logger: where it writes, how, and the URL of the logger chained after
    it, if any. *)
Record iot_logger_t : Type :=
  Logger {
    lg_to : log_dest;
    lg_impl : log_impl;
    lg_next : option url }.

Record devsdk_registry : Type := Registry { reg_location : string }.
Record edgex_rest_server : Type := RestServer { rs_port : Z }.

Record devsdk_service_t : Type :=
  Service {
    svc_name : string;
    svc_version : string;
    svc_confdir : string;
    svc_profile : option string;
    svc_regURL : option string;
    svc_registry : option devsdk_registry;
    svc_config : edgex_device_config;
    svc_adminstate : edgex_device_adminstate;
    svc_opstate : edgex_device_operatingstate;
    svc_daemon : option edgex_rest_server;
    svc_devices : gmap string edgex_device;
    svc_watchlist : list edgex_watcher;
    svc_logger : iot_logger_t;
    svc_scheduler : bool;
    svc_stopconfig : option bool;
    svc_starttime : Z }.

(** Field updates. *)
Definition with_regURL (v : option string) (s : devsdk_service_t) :=
  Service (svc_name s) (svc_version s) (svc_confdir s) (svc_profile s) v
    (svc_registry s) (svc_config s) (svc_adminstate s) (svc_opstate s)
    (svc_daemon s) (svc_devices s) (svc_watchlist s) (svc_logger s)
    (svc_scheduler s) (svc_stopconfig s) (svc_starttime s).
Definition with_registry (v : option devsdk_registry) (s : devsdk_service_t) :=
  Service (svc_name s) (svc_version s) (svc_confdir s) (svc_profile s)
    (svc_regURL s) v (svc_config s) (svc_adminstate s) (svc_opstate s)
    (svc_daemon s) (svc_devices s) (svc_watchlist s) (svc_logger s)
    (svc_scheduler s) (svc_stopconfig s) (svc_starttime s).
Definition with_config (v : edgex_device_config) (s : devsdk_service_t) :=
  Service (svc_name s) (svc_version s) (svc_confdir s) (svc_profile s)
    (svc_regURL s) (svc_registry s) v (svc_adminstate s) (svc_opstate s)
    (svc_daemon s) (svc_devices s) (svc_watchlist s) (svc_logger s)
    (svc_scheduler s) (svc_stopconfig s) (svc_starttime s).
Definition with_states (a : edgex_device_adminstate)
    (o : edgex_device_operatingstate) (s : devsdk_service_t) :=
  Service (svc_name s) (svc_version s) (svc_confdir s) (svc_profile s)
    (svc_regURL s) (svc_registry s) (svc_config s) a o
    (svc_daemon s) (svc_devices s) (svc_watchlist s) (svc_logger s)
    (svc_scheduler s) (svc_stopconfig s) (svc_starttime s).
Definition with_daemon (v : option edgex_rest_server) (s : devsdk_service_t) :=
  Service (svc_name s) (svc_version s) (svc_confdir s) (svc_profile s)
    (svc_regURL s) (svc_registry s) (svc_config s) (svc_adminstate s)
    (svc_opstate s) v (svc_devices s) (svc_watchlist s) (svc_logger s)
    (svc_scheduler s) (svc_stopconfig s) (svc_starttime s).
Definition with_devices (v : gmap string edgex_device) (s : devsdk_service_t) :=
  Service (svc_name s) (svc_version s) (svc_confdir s) (svc_profile s)
    (svc_regURL s) (svc_registry s) (svc_config s) (svc_adminstate s)
    (svc_opstate s) (svc_daemon s) v (svc_watchlist s) (svc_logger s)
    (svc_scheduler s) (svc_stopconfig s) (svc_starttime s).
Definition with_watchlist (v : list edgex_watcher) (s : devsdk_service_t) :=
  Service (svc_name s) (svc_version s) (svc_confdir s) (svc_profile s)
    (svc_regURL s) (svc_registry s) (svc_config s) (svc_adminstate s)
    (svc_opstate s) (svc_daemon s) (svc_devices s) v (svc_logger s)
    (svc_scheduler s) (svc_stopconfig s) (svc_starttime s).
Definition with_logger (v : iot_logger_t) (s : devsdk_service_t) :=
  Service (svc_name s) (svc_version s) (svc_confdir s) (svc_profile s)
    (svc_regURL s) (svc_registry s) (svc_config s) (svc_adminstate s)
    (svc_opstate s) (svc_daemon s) (svc_devices s) (svc_watchlist s) v
    (svc_scheduler s) (svc_stopconfig s) (svc_starttime s).
Definition with_stopconfig (v : option bool) (s : devsdk_service_t) :=
  Service (svc_name s) (svc_version s) (svc_confdir s) (svc_profile s)
    (svc_regURL s) (svc_registry s) (svc_config s) (svc_adminstate s)
    (svc_opstate s) (svc_daemon s) (svc_devices s) (svc_watchlist s)
    (svc_logger s) (svc_scheduler s) v (svc_starttime s).
Definition with_starttime (v : Z) (s : devsdk_service_t) :=
  Service (svc_name s) (svc_version s) (svc_confdir s) (svc_profile s)
    (svc_regURL s) (svc_registry s) (svc_config s) (svc_adminstate s)
    (svc_opstate s) (svc_daemon s) (svc_devices s) (svc_watchlist s)
    (svc_logger s) (svc_scheduler s) (svc_stopconfig s) v.

Definition with_endpoints (v : edgex_service_endpoints) (c : edgex_device_config) :=
  Config (cfg_service c) v (cfg_logging c) (cfg_device c) (cfg_driverconf c).
Definition with_profilesdir (v : option string) (c : edgex_device_config) :=
  Config (cfg_service c) (cfg_endpoints c) (cfg_logging c)
    (DeviceInfo (di_datatransform (cfg_device c)) v) (cfg_driverconf c).

(** ** Collaborators: calls, answers and the metadata store *)

Inductive edgex_http_method : Type := GET | POST | PUT | DELETE.

(** The handlers the service installs on its HTTP server. *)
Inductive http_handler : Type :=
  | edgex_device_handler_callback
  | edgex_device_handler_device
  | edgex_device_handler_discovery
  | edgex_device_handler_metrics
  | edgex_device_handler_config
  | version_handler
  | ping_handler.

Definition EDGEX_DEV_API_PING : string := "/api/v1/ping".
Definition EDGEX_DEV_API_VERSION : string := "/api/version".
Definition EDGEX_DEV_API_DISCOVERY : string := "/api/v1/discovery".
Definition EDGEX_DEV_API_DEVICE : string := "/api/v1/device/".
Definition EDGEX_DEV_API_CALLBACK : string := "/api/v1/callback".
Definition EDGEX_DEV_API_CONFIG : string := "/api/v1/config".
Definition EDGEX_DEV_API_METRICS : string := "/api/v1/metrics".

Inductive log_level : Type := LOG_ERROR | LOG_INFO | LOG_DEBUG.

(** One entry per call that leaves the lifecycle code, in the order made.
    The metadata lookups, the loading of the configuration file and the
    reading and writing of the registry configuration are entered with
    what they gave back. *)
Inductive event : Type :=
  | Ev_log (level : log_level) (format : string) (args : list string)
  | Ev_iot_init
  | Ev_threadpool_start
  | Ev_threadpool_add_work (pp : postparams)
  | Ev_threadpool_wait
  | Ev_scheduler_start
  | Ev_scheduler_stop
  | Ev_scheduler_free
  | Ev_nanosleep (delay : timespec)
  | Ev_http_get (u : url)
  | Ev_loadConfig (confdir : string) (profile : option string)
      (config : option toml_table_t)
  | Ev_populateConfig (pairs : devsdk_nvpairs)
  | Ev_overrideConfig (pairs : devsdk_nvpairs)
  | Ev_parseTomlClients
  | Ev_toml_free
  | Ev_registry_get_registry (location : string)
  | Ev_registry_ping
  | Ev_registry_get_config (name : string) (profile : option string)
      (found : devsdk_nvpairs)
  | Ev_registry_put_config (name : string) (profile : option string)
      (pairs : devsdk_nvpairs) (result : devsdk_error)
  | Ev_registry_query_service (name : string)
  | Ev_registry_register_service (name host : string) (port : Z)
      (checkinterval : timespec)
  | Ev_registry_deregister_service (name : string)
  | Ev_get_deviceservice (name : string) (found : option edgex_deviceservice)
  | Ev_get_addressable (name : string) (found : option edgex_addressable)
  | Ev_create_addressable (a : edgex_addressable)
  | Ev_update_addressable (a : edgex_addressable)
  | Ev_create_deviceservice (ds : edgex_deviceservice)
  | Ev_profiles_upload
  | Ev_get_devices (name : string)
  | Ev_get_watchers (name : string)
  | Ev_devmap_populate_devices (devs : list edgex_device)
  | Ev_devmap_device_byname (name : string)
  | Ev_device_release (name : string)
  | Ev_devmap_clear
  | Ev_watchlist_populate (ws : list edgex_watcher)
  | Ev_rest_server_create (port : Z)
  | Ev_rest_server_register_handler (path : string)
      (methods : list edgex_http_method) (h : http_handler)
  | Ev_rest_server_destroy
  | Ev_process_configured_devices (devicelist : list string)
  | Ev_driver_init (driverconf : devsdk_nvpairs)
  | Ev_driver_stop (force : bool)
  | Ev_deviceprofile_findcommand (resname : string) (profile : string)
  | Ev_data_process_event (devname : string) (command : edgex_cmdinfo)
      (datatransform : bool).

Inductive metadata_op : Type :=
  | Op_get_deviceservice
  | Op_get_addressable
  | Op_create_addressable
  | Op_update_addressable
  | Op_create_deviceservice.

(** The answers of the collaborators. An answer may depend on the calls made
    so far, so that a collaborator can fail first and succeed later. *)
Record environment : Type :=
  Environment {
    env_getenv : string → option string;
    env_uname_nodename : string;
    env_time_msecs : list event → Z;
    env_nanosleep : list event → Z;
    env_http_get : list event → url → devsdk_error;
    env_loadConfig :
      list event → string → option string → devsdk_error * option toml_table_t;
    env_populateConfig :
      list event → edgex_device_config → devsdk_nvpairs →
      devsdk_error * edgex_device_config;
    env_overrideConfig : string → devsdk_nvpairs → devsdk_nvpairs;
    env_registry_get_registry : string → option devsdk_registry;
    env_registry_ping : list event → bool * devsdk_error;
    env_registry_get_config : list event → devsdk_nvpairs * devsdk_error;
    env_registry_put_config : list event → devsdk_error;
    env_registry_query_service : list event → string → option (string * Z);
    env_registry_register_service : list event → devsdk_error;
    env_registry_deregister_service : list event → devsdk_error;
    env_metadata_fault : list event → metadata_op → devsdk_error;
    env_metadata_new_id : list event → string;
    env_profiles_upload : list event → devsdk_error;
    env_get_devices : list event → devsdk_error * list edgex_device;
    env_get_watchers : list event → devsdk_error * list edgex_watcher;
    env_rest_server_create : list event → devsdk_error * option edgex_rest_server;
    env_process_configured_devices : list event → devsdk_error;
    env_driver_init : list event → devsdk_nvpairs → bool;
    env_data_process_event :
      string → edgex_cmdinfo → devsdk_commandresult → bool →
      option edgex_event_cooked }.

(** Modelled from the spec: core-metadata is an external service reached
    through the metadata client, whose operations are those of the client
    contract. It is taken as a table of addressables and a table of device
    services, both looked up by name; a device service refers to its
    addressable by the addressable's name, and reading a device service
    resolves the reference. *)
Record metadata : Type :=
  Metadata {
    md_addressables : list edgex_addressable;
    md_deviceservices : list edgex_deviceservice }.

Definition md_find_addressable (md : metadata) (name : string)
  : option edgex_addressable :=
  List.find (λ a, bool_decide (addr_name a = name)) (md_addressables md).

Definition md_find_deviceservice (md : metadata) (name : string)
  : option edgex_deviceservice :=
  List.find (λ ds, bool_decide (ds_name ds = name)) (md_deviceservices md).

Definition with_addressable (a : edgex_addressable) (ds : edgex_deviceservice) :=
  DeviceService (ds_id ds) (ds_name ds) a (ds_labels ds)
    (ds_operatingState ds) (ds_adminState ds) (ds_created ds).

(** The device service stored under [name], with its addressable as the
    store has it now. *)
Definition md_lookup_deviceservice (md : metadata) (name : string)
  : option edgex_deviceservice :=
  match md_find_deviceservice md name with
  | Some ds =>
      match md_find_addressable md (addr_name (ds_addressable ds)) with
      | Some a => Some (with_addressable a ds)
      | None => Some ds
      end
  | None => None
  end.

(** The addressable that metadata records for the service [name]. *)
Definition md_service_addressable (md : metadata) (name : string)
  : option edgex_addressable :=
  ds_addressable <$> md_lookup_deviceservice md name.

(** ** Program state and control flow *)

Record state : Type :=
  State {
    st_svc : devsdk_service_t;
    st_err : devsdk_error;
    st_trace : list event;
    st_metadata : metadata }.

(** A statement either falls through with a value or executes [return]. *)
Inductive flow (R A : Type) : Type :=
  | Return (r : R)
  | Next (a : A).
Arguments Return {R A} r.
Arguments Next {R A} a.

Definition M (R A : Type) : Type := state → flow R A * state.

Definition ret {R A} (a : A) : M R A := λ s, (Next a, s).

Definition bind {R A B} (m : M R A) (k : A → M R B) : M R B :=
  λ s, match m s with
       | (Return r, s') => (Return r, s')
       | (Next a, s') => k a s'
       end.

Definition return_ {R A} (r : R) : M R A := λ s, (Return r, s).

(** Running a function body to its end, and calling a function. *)
Definition run {R} (m : M R R) (s : state) : R * state :=
  match m s with
  | (Return r, s') => (r, s')
  | (Next r, s') => (r, s')
  end.

Definition call {R R'} (m : M R' R') : M R R' :=
  λ s, let '(r, s') := run m s in (Next r, s').

Declare Scope prog_scope.
Delimit Scope prog_scope with prog.
Notation "x <- c1 ;; c2" := (bind c1 (λ x, c2))
  (at level 20, c1 at level 99, c2 at level 200) : prog_scope.
Notation "c1 ;; c2" := (bind c1 (λ _, c2))
  (at level 100, c2 at level 200, right associativity) : prog_scope.
Local Open Scope prog_scope.

Definition get_svc {R} : M R devsdk_service_t := λ s, (Next (st_svc s), s).

Definition update_svc {R} (f : devsdk_service_t → devsdk_service_t) : M R unit :=
  λ s, (Next tt, State (f (st_svc s)) (st_err s) (st_trace s) (st_metadata s)).

Definition get_err {R} : M R devsdk_error := λ s, (Next (st_err s), s).

Definition set_err {R} (e : devsdk_error) : M R unit :=
  λ s, (Next tt, State (st_svc s) e (st_trace s) (st_metadata s)).

Definition get_metadata {R} : M R metadata := λ s, (Next (st_metadata s), s).

Definition set_metadata {R} (md : metadata) : M R unit :=
  λ s, (Next tt, State (st_svc s) (st_err s) (st_trace s) md).

(** The calls made so far, as a collaborator sees them. *)
Definition history {R} : M R (list event) := λ s, (Next (st_trace s), s).

Definition emit {R} (e : event) : M R unit :=
  λ s, (Next tt, State (st_svc s) (st_err s) (st_trace s ++ [e]) (st_metadata s)).

Definition when {R} (b : bool) (m : M R unit) : M R unit :=
  if b then m else ret tt.

Definition iot_log {R} (level : log_level) (format : string) (args : list string)
  : M R unit :=
  emit (Ev_log level format args).

(** ** The collaborators' operations *)

Section Lifecycle.
Variable env : environment.

Definition iot_time_msecs {R} : M R Z :=
  h <- history ;; ret (env_time_msecs env h).

Definition nanosleep {R} (delay : timespec) : M R Z :=
  h <- history ;;
  emit (Ev_nanosleep delay) ;;
  ret (env_nanosleep env h).

Definition edgex_http_get {R} (u : url) : M R unit :=
  h <- history ;;
  emit (Ev_http_get u) ;;
  set_err (env_http_get env h u).

(** *** Metadata client *)

Definition edgex_metadata_client_get_deviceservice {R} (name : string)
  : M R (option edgex_deviceservice) :=
  h <- history ;;
  md <- get_metadata ;;
  let e := env_metadata_fault env h Op_get_deviceservice in
  let found := if code e then None else md_lookup_deviceservice md name in
  emit (Ev_get_deviceservice name found) ;;
  set_err e ;;
  ret found.

Definition edgex_metadata_client_get_addressable {R} (name : string)
  : M R (option edgex_addressable) :=
  h <- history ;;
  md <- get_metadata ;;
  let e := env_metadata_fault env h Op_get_addressable in
  let found := if code e then None else md_find_addressable md name in
  emit (Ev_get_addressable name found) ;;
  set_err e ;;
  ret found.

Definition with_addr_id (id : string) (a : edgex_addressable) :=
  Addressable id (addr_name a) (addr_origin a) (addr_method a)
    (addr_protocol a) (addr_address a) (addr_port a) (addr_path a).

Definition with_ds_id (id : string) (ds : edgex_deviceservice) :=
  DeviceService id (ds_name ds) (ds_addressable ds) (ds_labels ds)
    (ds_operatingState ds) (ds_adminState ds) (ds_created ds).

(** Creation adds the entity with a fresh identifier and gives the
    identifier back; a name already taken is refused. *)
Definition edgex_metadata_client_create_addressable {R} (a : edgex_addressable)
  : M R string :=
  h <- history ;;
  emit (Ev_create_addressable a) ;;
  let e := env_metadata_fault env h Op_create_addressable in
  if code e then set_err e ;; ret ""
  else
    md <- get_metadata ;;
    match md_find_addressable md (addr_name a) with
    | Some _ => set_err (EDGEX_ERROR "create_addressable: conflict") ;; ret ""
    | None =>
        let id := env_metadata_new_id env h in
        set_metadata
          (Metadata (md_addressables md ++ [with_addr_id id a])
                    (md_deviceservices md)) ;;
        set_err EDGEX_OK ;;
        ret id
    end.

(** An update replaces the addressable of that name; an unknown name is
    refused. *)
Definition edgex_metadata_client_update_addressable {R} (a : edgex_addressable)
  : M R unit :=
  h <- history ;;
  emit (Ev_update_addressable a) ;;
  let e := env_metadata_fault env h Op_update_addressable in
  if code e then set_err e
  else
    md <- get_metadata ;;
    match md_find_addressable md (addr_name a) with
    | Some _ =>
        set_metadata
          (Metadata
             ((λ r, if bool_decide (addr_name r = addr_name a) then a else r)
                <$> md_addressables md)
             (md_deviceservices md)) ;;
        set_err EDGEX_OK
    | None => set_err (EDGEX_ERROR "update_addressable: not found")
    end.

Definition edgex_metadata_client_create_deviceservice {R}
    (ds : edgex_deviceservice) : M R string :=
  h <- history ;;
  emit (Ev_create_deviceservice ds) ;;
  let e := env_metadata_fault env h Op_create_deviceservice in
  if code e then set_err e ;; ret ""
  else
    md <- get_metadata ;;
    match md_find_deviceservice md (ds_name ds) with
    | Some _ => set_err (EDGEX_ERROR "create_deviceservice: conflict") ;; ret ""
    | None =>
        let id := env_metadata_new_id env h in
        set_metadata
          (Metadata (md_addressables md)
                    (md_deviceservices md ++ [with_ds_id id ds])) ;;
        set_err EDGEX_OK ;;
        ret id
    end.

Definition edgex_metadata_client_get_devices {R} (name : string)
  : M R (list edgex_device) :=
  h <- history ;;
  emit (Ev_get_devices name) ;;
  set_err (fst (env_get_devices env h)) ;;
  ret (snd (env_get_devices env h)).

Definition edgex_metadata_client_get_watchers {R} (name : string)
  : M R (list edgex_watcher) :=
  h <- history ;;
  emit (Ev_get_watchers name) ;;
  set_err (fst (env_get_watchers env h)) ;;
  ret (snd (env_get_watchers env h)).

Definition edgex_device_profiles_upload {R} : M R unit :=
  h <- history ;;
  emit Ev_profiles_upload ;;
  set_err (env_profiles_upload env h).

(** *** Device map, watch list, profiles

    Modelled from the spec: the device map is an index of the devices by
    name, a lookup hands out a handle that the caller releases; a command
    is resolved on a profile by resource name. *)

Definition edgex_devmap_populate_devices {R} (devs : list edgex_device)
  : M R unit :=
  emit (Ev_devmap_populate_devices devs) ;;
  update_svc (λ svc,
    with_devices
      (foldl (λ m d, <[dev_name d := d]> m) (svc_devices svc) devs) svc).

Definition edgex_devmap_device_byname {R} (name : string)
  : M R (option edgex_device) :=
  emit (Ev_devmap_device_byname name) ;;
  svc <- get_svc ;;
  ret (svc_devices svc !! name).

Definition edgex_device_release {R} (dev : edgex_device) : M R unit :=
  emit (Ev_device_release (dev_name dev)).

Definition edgex_devmap_clear {R} : M R unit :=
  emit Ev_devmap_clear ;;
  update_svc (with_devices ∅).

Definition edgex_watchlist_populate {R} (ws : list edgex_watcher) : M R unit :=
  emit (Ev_watchlist_populate ws) ;;
  update_svc (λ svc, with_watchlist (svc_watchlist svc ++ ws) svc).

Definition find_command (name : string) (prof : edgex_deviceprofile)
    (forGet : bool) : option edgex_cmdinfo :=
  List.find
    (λ c, (strcmp (cmd_name c) name =? 0) && Bool.eqb forGet (cmd_isget c))
    (prof_cmdinfo prof).

Definition edgex_deviceprofile_findcommand {R} (name : string)
    (prof : edgex_deviceprofile) (forGet : bool) : M R (option edgex_cmdinfo) :=
  emit (Ev_deviceprofile_findcommand name (prof_name prof)) ;;
  ret (find_command name prof forGet).

Definition edgex_data_process_event {R} (devname : string)
    (command : edgex_cmdinfo) (values : devsdk_commandresult)
    (datatransform : bool) : M R (option edgex_event_cooked) :=
  emit (Ev_data_process_event devname command datatransform) ;;
  ret (env_data_process_event env devname command values datatransform).

(** *** HTTP server, driver, scheduler, worker pool *)

Definition edgex_rest_server_create {R} (port : Z)
  : M R (option edgex_rest_server) :=
  h <- history ;;
  emit (Ev_rest_server_create port) ;;
  set_err (fst (env_rest_server_create env h)) ;;
  ret (snd (env_rest_server_create env h)).

Definition edgex_rest_server_register_handler {R} (path : string)
    (methods : list edgex_http_method) (h : http_handler) : M R unit :=
  emit (Ev_rest_server_register_handler path methods h).

Definition edgex_device_process_configured_devices {R}
    (devicelist : list string) : M R unit :=
  h <- history ;;
  emit (Ev_process_configured_devices devicelist) ;;
  set_err (env_process_configured_devices env h).

Definition userfns_init {R} (driverconf : devsdk_nvpairs) : M R bool :=
  h <- history ;;
  emit (Ev_driver_init driverconf) ;;
  ret (env_driver_init env h driverconf).

Definition userfns_stop {R} (force : bool) : M R unit :=
  emit (Ev_driver_stop force).

(** *** Configuration files and the registry *)

Definition edgex_device_loadConfig {R} (confdir : string)
    (profile : option string) : M R (option toml_table_t) :=
  h <- history ;;
  emit (Ev_loadConfig confdir profile (snd (env_loadConfig env h confdir profile))) ;;
  set_err (fst (env_loadConfig env h confdir profile)) ;;
  ret (snd (env_loadConfig env h confdir profile)).

Definition edgex_device_getRegURL (config : option toml_table_t) : option string :=
  config ≫= toml_RegURL.

Definition edgex_device_parseToml (config : option toml_table_t) : devsdk_nvpairs :=
  from_option toml_pairs [] config.

Definition edgex_device_populateConfig {R} (pairs : devsdk_nvpairs) : M R unit :=
  h <- history ;;
  emit (Ev_populateConfig pairs) ;;
  svc <- get_svc ;;
  let r := env_populateConfig env h (svc_config svc) pairs in
  update_svc (with_config (snd r)) ;;
  set_err (fst r).

(** Rewrites the values of the list in place. *)
Definition edgex_device_overrideConfig {R} (name : string)
    (pairs : devsdk_nvpairs) : M R devsdk_nvpairs :=
  emit (Ev_overrideConfig pairs) ;;
  ret (env_overrideConfig env name pairs).

Definition edgex_device_parseTomlClients {R} (config : option toml_table_t)
  : M R unit :=
  emit Ev_parseTomlClients ;;
  match config with
  | Some c =>
      update_svc (λ svc,
        with_config (with_endpoints (toml_Clients c) (svc_config svc)) svc)
  | None => ret tt
  end.

Definition devsdk_registry_get_registry {R} (location : string)
  : M R (option devsdk_registry) :=
  emit (Ev_registry_get_registry location) ;;
  ret (env_registry_get_registry env location).

Definition devsdk_registry_ping {R} : M R bool :=
  h <- history ;;
  emit Ev_registry_ping ;;
  set_err (snd (env_registry_ping env h)) ;;
  ret (fst (env_registry_ping env h)).

Definition devsdk_registry_get_config {R} (name : string)
    (profile : option string) : M R devsdk_nvpairs :=
  h <- history ;;
  emit (Ev_registry_get_config name profile (fst (env_registry_get_config env h))) ;;
  set_err (snd (env_registry_get_config env h)) ;;
  ret (fst (env_registry_get_config env h)).

Definition devsdk_registry_put_config {R} (name : string)
    (profile : option string) (pairs : devsdk_nvpairs) : M R unit :=
  h <- history ;;
  emit (Ev_registry_put_config name profile pairs (env_registry_put_config env h)) ;;
  set_err (env_registry_put_config env h).

(** On success the host and port are written; the error goes to the
    caller's own [devsdk_error]. *)
Definition devsdk_registry_query_service {R} (name : string)
    (ep : edgex_device_service_endpoint) : M R edgex_device_service_endpoint :=
  h <- history ;;
  emit (Ev_registry_query_service name) ;;
  match env_registry_query_service env h name with
  | Some (host, port) => ret (Endpoint (Some host) port)
  | None => ret ep
  end.

Definition devsdk_registry_register_service {R} (name host : string)
    (port : Z) (checkinterval : timespec) : M R unit :=
  h <- history ;;
  emit (Ev_registry_register_service name host port checkinterval) ;;
  set_err (env_registry_register_service env h).

Definition devsdk_registry_deregister_service {R} (name : string) : M R unit :=
  h <- history ;;
  emit (Ev_registry_deregister_service name) ;;
  set_err (env_registry_deregister_service env h).

(** ** [ping_client] *)

(** The [do ... while (retries-- && nanosleep (&delay, NULL) == 0)] loop.
    [retries] is an [int]: the loop goes on while it is not 0, and every
    test decrements it. A count that is negative is decremented down to
    [INT_MIN] and past it; the decrement is taken to wrap around there, as
    it does on the two's-complement machines the SDK is built for, so that
    0 is reached after [retries mod 2^32] decrements whatever the sign.
    [fuel] bounds the number of rounds that follow the first; [ping_client]
    gives as many as the countdown takes. The loop is left through
    [return true] or by falling out of it. *)
Fixpoint ping_client_loop (fuel : nat) (sname : string) (u : url)
    (retries : Z) (delay : timespec) : M bool unit :=
  edgex_http_get u ;;
  e <- get_err ;;
  if negb (code e) then
    iot_log LOG_INFO "Found %s service at %s:%d" [sname; url_host u] ;;
    return_ true
  else if retries =? 0 then ret tt
  else
    match fuel with
    | O => ret tt
    | S fuel' =>
        r <- nanosleep delay ;;
        if r =? 0 then ping_client_loop fuel' sname u (to_int (retries - 1)) delay
        else ret tt
    end.

(** The number of decrements that take an [int] to 0. *)
Definition countdown (retries : Z) : nat := Z.to_nat (retries mod INT_MODULUS).

Definition ping_client (sname : string) (ep : edgex_device_service_endpoint)
    (retries : Z) (delay : timespec) : M bool bool :=
  match ep_host ep with
  | Some host =>
      if ep_port ep =? 0 then
        iot_log LOG_ERROR "Missing endpoint for %s service." [sname] ;;
        set_err EDGEX_BAD_CONFIG ;;
        return_ false
      else
        let u := Url host (ep_port ep) "/api/v1/ping" in
        ping_client_loop (countdown retries) sname u retries delay ;;
        iot_log LOG_ERROR "Can't connect to %s service at %s:%d" [sname; host] ;;
        set_err EDGEX_REMOTE_SERVER_DOWN ;;
        return_ false
  | None =>
      iot_log LOG_ERROR "Missing endpoint for %s service." [sname] ;;
      set_err EDGEX_BAD_CONFIG ;;
      return_ false
  end.

(** ** [startConfigured]

    The body is cut where its comments cut it. *)

Definition with_port_address (port : Z) (address : string) (a : edgex_addressable) :=
  Addressable (addr_id a) (addr_name a) (addr_origin a) (addr_method a)
    (addr_protocol a) address port (addr_path a).

(** "Wait for metadata and data to be available" *)
Definition sc_wait_for_services : M unit unit :=
  svc <- get_svc ;;
  let service := cfg_service (svc_config svc) in
  let endpoints := cfg_endpoints (svc_config svc) in
  ok <- call (ping_client "core-data" (eps_data endpoints)
                (si_connectretries service) (si_timeout service)) ;;
  when (negb ok) (return_ tt) ;;
  ok <- call (ping_client "core-metadata" (eps_metadata endpoints)
                (si_connectretries service) (si_timeout service)) ;;
  when (negb ok) (return_ tt) ;;
  set_err EDGEX_OK.

(** "Register device service in metadata" *)
Definition sc_register_deviceservice (myhost : string) : M unit unit :=
  svc <- get_svc ;;
  let port := si_port (cfg_service (svc_config svc)) in
  ds <- edgex_metadata_client_get_deviceservice (svc_name svc) ;;
  e <- get_err ;;
  if code e then
    iot_log LOG_ERROR "get_deviceservice failed" [] ;;
    return_ tt
  else
    match ds with
    | None =>
        millis <- iot_time_msecs ;;
        found <- edgex_metadata_client_get_addressable (svc_name svc) ;;
        e <- get_err ;;
        when (code e)
          (iot_log LOG_ERROR "get_addressable failed" [] ;; return_ tt) ;;
        addr <- match found with
                | Some addr => ret addr
                | None =>
                    let addr :=
                      Addressable "" (strdup (svc_name svc)) millis
                        (strdup "POST") (strdup "HTTP") (strdup myhost) port
                        (strdup EDGEX_DEV_API_CALLBACK) in
                    id <- edgex_metadata_client_create_addressable addr ;;
                    e <- get_err ;;
                    when (code e)
                      (iot_log LOG_ERROR "create_addressable failed" [] ;;
                       return_ tt) ;;
                    ret (with_addr_id id addr)
                end ;;
        let labels :=
          foldl (λ acc l, strdup l :: acc) [] (si_labels (cfg_service (svc_config svc))) in
        let ds :=
          DeviceService "" (strdup (svc_name svc)) addr labels ENABLED UNLOCKED
            millis in
        id <- edgex_metadata_client_create_deviceservice ds ;;
        e <- get_err ;;
        when (code e)
          (iot_log LOG_ERROR "Unable to create device service in metadata" [] ;;
           return_ tt)
    | Some ds =>
        if negb (addr_port (ds_addressable ds) =? port)
           || negb (strcmp (addr_address (ds_addressable ds)) myhost =? 0)
        then
          iot_log LOG_INFO "Updating service endpoint in metadata" [] ;;
          edgex_metadata_client_update_addressable
            (with_port_address port (strdup myhost) (ds_addressable ds)) ;;
          e <- get_err ;;
          when (code e)
            (iot_log LOG_ERROR "update_addressable failed" [] ;; return_ tt)
        else ret tt
    end.

(** "Load DeviceProfiles from files and register in metadata" and "Obtain
    Devices from metadata" *)
Definition sc_load_devices : M unit unit :=
  edgex_device_profiles_upload ;;
  e <- get_err ;;
  when (code e) (return_ tt) ;;
  svc <- get_svc ;;
  devs <- edgex_metadata_client_get_devices (svc_name svc) ;;
  e <- get_err ;;
  when (code e)
    (iot_log LOG_ERROR "Unable to retrieve device list from metadata" [] ;;
     return_ tt) ;;
  edgex_devmap_populate_devices devs.

(** "Start REST server now so that we get the callbacks on device
    addition" *)
Definition sc_start_rest_server : M unit unit :=
  svc <- get_svc ;;
  daemon <- edgex_rest_server_create (si_port (cfg_service (svc_config svc))) ;;
  update_svc (with_daemon daemon) ;;
  e <- get_err ;;
  when (code e) (return_ tt) ;;
  edgex_rest_server_register_handler EDGEX_DEV_API_CALLBACK [PUT; POST; DELETE]
    edgex_device_handler_callback.

(** "Add Devices from configuration" *)
Definition sc_configured_devices (config : option toml_table_t) : M unit unit :=
  match config with
  | Some c =>
      edgex_device_process_configured_devices (toml_DeviceList c) ;;
      e <- get_err ;;
      when (code e) (return_ tt)
  | None => ret tt
  end.

(** "Driver configuration" *)
Definition sc_driver_init : M unit unit :=
  svc <- get_svc ;;
  ok <- userfns_init (cfg_driverconf (svc_config svc)) ;;
  when (negb ok)
    (set_err EDGEX_DRIVER_UNSTART ;;
     iot_log LOG_ERROR "Protocol driver initialization failed" [] ;;
     return_ tt).

(** "Get Provision Watchers" and "Start scheduled events" *)
Definition sc_watchers_and_scheduler : M unit unit :=
  svc <- get_svc ;;
  w <- edgex_metadata_client_get_watchers (svc_name svc) ;;
  e <- get_err ;;
  when (code e)
    (iot_log LOG_ERROR "Unable to retrieve provision watchers from metadata" []) ;;
  match w with
  | [] => ret tt
  | _ :: _ =>
      edgex_watchlist_populate w ;;
      iot_log LOG_INFO "Added %u provision watchers from metadata" []
  end ;;
  emit Ev_scheduler_start.

(** "Register REST handlers" *)
Definition sc_register_handlers : M unit unit :=
  edgex_rest_server_register_handler EDGEX_DEV_API_DEVICE [GET; PUT; POST]
    edgex_device_handler_device ;;
  edgex_rest_server_register_handler EDGEX_DEV_API_DISCOVERY [POST]
    edgex_device_handler_discovery ;;
  edgex_rest_server_register_handler EDGEX_DEV_API_METRICS [GET]
    edgex_device_handler_metrics ;;
  edgex_rest_server_register_handler EDGEX_DEV_API_CONFIG [GET]
    edgex_device_handler_config ;;
  edgex_rest_server_register_handler EDGEX_DEV_API_VERSION [GET]
    version_handler ;;
  edgex_rest_server_register_handler EDGEX_DEV_API_PING [GET]
    ping_handler.

(** "Ready. Register ourselves and log that we have started." *)
Definition sc_ready (myhost : string) : M unit unit :=
  svc <- get_svc ;;
  let service := cfg_service (svc_config svc) in
  match svc_registry svc with
  | Some _ =>
      devsdk_registry_register_service (svc_name svc) myhost (si_port service)
        (si_checkinterval service) ;;
      e <- get_err ;;
      when (code e)
        (iot_log LOG_ERROR "Unable to register service in registry" [] ;;
         return_ tt)
  | None => ret tt
  end ;;
  match si_startupmsg service with
  | Some msg => iot_log LOG_INFO msg []
  | None => ret tt
  end.

(** The host reported to metadata: the configured one, else the node name
    from [uname]. *)
Definition myhost_of (svc : devsdk_service_t) : string :=
  match si_host (cfg_service (svc_config svc)) with
  | Some host => host
  | None => env_uname_nodename env
  end.

Definition startConfigured (config : option toml_table_t) : M unit unit :=
  svc <- get_svc ;;
  let myhost := myhost_of svc in
  update_svc (with_states UNLOCKED ENABLED) ;;
  sc_wait_for_services ;;
  sc_register_deviceservice myhost ;;
  sc_load_devices ;;
  sc_start_rest_server ;;
  sc_configured_devices config ;;
  sc_driver_init ;;
  sc_watchers_and_scheduler ;;
  sc_register_handlers ;;
  sc_ready myhost.

(** ** [devsdk_service_start] *)

(** The registry location: a non-[NULL] but empty [regURL] asks for the
    location to be read from the configuration file. Gives the value of
    the local [config]. *)
Definition start_find_registry : M unit (option toml_table_t) :=
  svc <- get_svc ;;
  match svc_regURL svc with
  | Some u =>
      config <- (if at_end u then
                   config <- edgex_device_loadConfig (svc_confdir svc)
                               (svc_profile svc) ;;
                   e <- get_err ;;
                   when (code e) (return_ tt) ;;
                   update_svc (with_regURL (edgex_device_getRegURL config)) ;;
                   ret config
                 else ret None) ;;
      svc <- get_svc ;;
      match svc_regURL svc with
      | Some u' =>
          r <- devsdk_registry_get_registry u' ;;
          update_svc (with_registry r)
      | None => ret tt
      end ;;
      svc <- get_svc ;;
      match svc_registry svc with
      | None =>
          iot_log LOG_ERROR "Registry was requested but no location given" [] ;;
          set_err EDGEX_INVALID_ARG ;;
          return_ tt
      | Some _ => ret config
      end
  | None => ret None
  end.

(** [while (!devsdk_registry_ping (svc->registry, err) && --retries)
    nanosleep (&delay, NULL);] with [retries = k + 1] on entry ([retries] is
    5 or a positive [rc], so it is at least 1). Gives the value of
    [retries] when the loop is left. *)
Fixpoint registry_ping_loop (delay : timespec) (k : nat) : M unit Z :=
  ok <- devsdk_registry_ping ;;
  if ok then ret (Z.of_nat (S k))
  else
    match k with
    | O => ret 0
    | S k' =>
        nanosleep delay ;;
        registry_ping_loop delay k'
    end.

Definition registry_retries : Z :=
  match env_getenv env "edgex_registry_retry_count" with
  | Some errc => let rc := atoi errc in if 0 <? rc then rc else 5
  | None => 5
  end.

Definition registry_delay : timespec :=
  match env_getenv env "edgex_registry_retry_wait" with
  | Some errw => let rw := atoi errw in if 0 <? rw then Timespec rw 0 else Timespec 1 0
  | None => Timespec 1 0
  end.

(** "Wait for registry to be ready", then the configuration from the
    registry. Gives the values of the locals [uploadConfig] and
    [confpairs]. *)
Definition start_registry_config : M unit (bool * devsdk_nvpairs) :=
  svc <- get_svc ;;
  let location := default "" (svc_regURL svc) in
  retries <- registry_ping_loop registry_delay (Z.to_nat (registry_retries - 1)) ;;
  when (retries =? 0)
    (iot_log LOG_ERROR "registry service not running at %s" [location] ;;
     set_err EDGEX_REMOTE_SERVER_DOWN ;;
     return_ tt) ;;
  iot_log LOG_INFO "Found registry service at %s" [location] ;;
  update_svc (with_stopconfig (Some false)) ;;
  confpairs <- devsdk_registry_get_config (svc_name svc) (svc_profile svc) ;;
  match confpairs with
  | _ :: _ =>
      edgex_device_populateConfig confpairs ;;
      e <- get_err ;;
      when (code e) (return_ tt) ;;
      ret (false, confpairs)
  | [] =>
      iot_log LOG_INFO "Unable to get configuration from registry." [] ;;
      iot_log LOG_INFO "Will load from file." [] ;;
      set_err EDGEX_OK ;;
      ret (true, [])
  end.

(** The configuration from the file, and its upload to the registry. Gives
    the values of the locals [config] and [confpairs]. *)
Definition start_file_config (config : option toml_table_t)
    (uploadConfig : bool) (confpairs : devsdk_nvpairs)
  : M unit (option toml_table_t * devsdk_nvpairs) :=
  svc <- get_svc ;;
  if uploadConfig || negb (bool_decide (is_Some (svc_registry svc))) then
    config <- match config with
              | None =>
                  config <- edgex_device_loadConfig (svc_confdir svc)
                              (svc_profile svc) ;;
                  e <- get_err ;;
                  when (code e) (return_ tt) ;;
                  ret config
              | Some _ => ret config
              end ;;
    let confpairs := edgex_device_parseToml config in
    edgex_device_populateConfig confpairs ;;
    if uploadConfig then
      iot_log LOG_INFO "Uploading configuration to registry." [] ;;
      confpairs <- edgex_device_overrideConfig (svc_name svc) confpairs ;;
      devsdk_registry_put_config (svc_name svc) (svc_profile svc) confpairs ;;
      e <- get_err ;;
      when (code e)
        (iot_log LOG_ERROR "Unable to upload config: %s" [] ;;
         emit Ev_toml_free ;;
         return_ tt) ;;
      ret (config, confpairs)
    else ret (config, confpairs)
  else ret (config, confpairs).

(** The log file, the endpoints of the platform services, and remote
    logging. *)
Definition start_endpoints_and_logging (config : option toml_table_t)
  : M unit unit :=
  svc <- get_svc ;;
  match li_file (cfg_logging (svc_config svc)) with
  | Some file =>
      update_svc (λ svc,
        with_logger (Logger (LogFile (strdup file)) (lg_impl (svc_logger svc))
                       (lg_next (svc_logger svc))) svc)
  | None => ret tt
  end ;;
  match svc_registry svc with
  | Some _ =>
      let eps := cfg_endpoints (svc_config svc) in
      m <- devsdk_registry_query_service "edgex-core-metadata" (eps_metadata eps) ;;
      d <- devsdk_registry_query_service "edgex-core-data" (eps_data eps) ;;
      l <- devsdk_registry_query_service "edgex-support-logging" (eps_logging eps) ;;
      update_svc (λ svc,
        with_config (with_endpoints (Endpoints d m l) (svc_config svc)) svc)
  | None => edgex_device_parseTomlClients config
  end ;;
  svc <- get_svc ;;
  let logging := cfg_logging (svc_config svc) in
  let service := cfg_service (svc_config svc) in
  let ep := eps_logging (cfg_endpoints (svc_config svc)) in
  if li_useremote logging then
    ok <- call (ping_client "support-logging" ep (si_connectretries service)
                  (si_timeout service)) ;;
    if ok then
      let u := Url (default "" (ep_host ep)) (ep_port ep) "/api/v1/logs" in
      match li_file logging with
      | Some _ =>
          update_svc (λ svc,
            with_logger (Logger (lg_to (svc_logger svc)) (lg_impl (svc_logger svc))
                           (Some u)) svc)
      | None =>
          update_svc (λ svc,
            with_logger (Logger (LogUrl u) edgex_log_torest
                           (lg_next (svc_logger svc))) svc)
      end
    else
      emit Ev_toml_free ;;
      return_ tt
  else ret tt.

(** [for (iter = confpairs; iter; iter = iter->next) iot_log_debug (...)] *)
Fixpoint log_confpairs (iter : devsdk_nvpairs) : M unit unit :=
  match iter with
  | [] => ret tt
  | p :: next =>
      iot_log LOG_DEBUG "%s=%s" [nv_name p; nv_value p] ;;
      log_confpairs next
  end.

(** The default of the profiles directory, the log of the configuration,
    bring-up, and the final log entries. *)
Definition start_bringup (config : option toml_table_t)
    (confpairs : devsdk_nvpairs) : M unit unit :=
  svc <- get_svc ;;
  when (negb (bool_decide (is_Some (di_profilesdir (cfg_device (svc_config svc))))))
    (update_svc (λ svc,
       with_config (with_profilesdir (Some (strdup (svc_confdir svc)))
                      (svc_config svc)) svc)) ;;
  iot_log LOG_INFO "Starting %s device service, version %s"
    [svc_name svc; svc_version svc] ;;
  iot_log LOG_INFO "EdgeX device SDK for C, version " [] ;;
  iot_log LOG_DEBUG "Service configuration follows:" [] ;;
  log_confpairs confpairs ;;
  call (startConfigured config) ;;
  emit Ev_toml_free ;;
  e <- get_err ;;
  when (negb (code e))
    (iot_log LOG_INFO "Service started in: %dms" [] ;;
     iot_log LOG_INFO "Listening on port: %d" []).

Definition devsdk_service_start : M unit unit :=
  now <- iot_time_msecs ;;
  update_svc (with_starttime now) ;;
  emit Ev_iot_init ;;
  emit Ev_threadpool_start ;;
  set_err EDGEX_OK ;;
  config <- start_find_registry ;;
  svc <- get_svc ;;
  uc <- match svc_registry svc with
        | Some _ => start_registry_config
        | None => ret (false, [])
        end ;;
  cc <- start_file_config config (fst uc) (snd uc) ;;
  start_endpoints_and_logging (fst cc) ;;
  start_bringup (fst cc) (snd cc).

(** ** [devsdk_post_readings] *)

Definition iot_threadpool_add_work {R} (pp : postparams) : M R unit :=
  emit (Ev_threadpool_add_work pp).

Definition devsdk_post_readings (devname resname : string)
    (values : devsdk_commandresult) : M unit unit :=
  dev <- edgex_devmap_device_byname devname ;;
  match dev with
  | None =>
      iot_log LOG_ERROR "Post readings: no such device %s" [devname] ;;
      return_ tt
  | Some dev =>
      command <- edgex_deviceprofile_findcommand resname (dev_profile dev) true ;;
      edgex_device_release dev ;;
      match command with
      | Some command =>
          svc <- get_svc ;;
          event <- edgex_data_process_event devname command values
                     (di_datatransform (cfg_device (svc_config svc))) ;;
          match event with
          | Some event => iot_threadpool_add_work (PostParams event)
          | None => ret tt
          end
      | None =>
          iot_log LOG_ERROR "Post readings: no such resource %s" [resname]
      end
  end.

(** ** [devsdk_service_stop] *)

Definition devsdk_service_stop (force : bool) : M unit unit :=
  set_err EDGEX_OK ;;
  iot_log LOG_DEBUG "Stop device service" [] ;;
  svc <- get_svc ;;
  when (bool_decide (is_Some (svc_stopconfig svc)))
    (update_svc (with_stopconfig (Some true))) ;;
  when (svc_scheduler svc) (emit Ev_scheduler_stop) ;;
  when (bool_decide (is_Some (svc_daemon svc))) (emit Ev_rest_server_destroy) ;;
  userfns_stop force ;;
  edgex_devmap_clear ;;
  match svc_registry svc with
  | Some _ =>
      devsdk_registry_deregister_service (svc_name svc) ;;
      e <- get_err ;;
      when (code e)
        (iot_log LOG_ERROR "Unable to deregister service from registry" [])
  | None => ret tt
  end ;;
  emit Ev_scheduler_free ;;
  emit Ev_threadpool_wait ;;
  iot_log LOG_INFO "Stopped device service" [].

End Lifecycle.

(** ** Vocabulary of the properties *)

(** The list obtained from the empty one by adding the given pairs with
    [devsdk_nvpairs_new], in the order given. *)
Definition nvpairs_built_from (adds : list (string * string)) : devsdk_nvpairs :=
  foldl (λ l nv, devsdk_nvpairs_new nv.1 nv.2 l) [] adds.

(** The value added last under [name]. *)
Definition most_recent (adds : list (string * string)) (name : string)
  : option string :=
  snd <$> last (filter (λ nv, nv.1 = name) adds).

(** ** Retries and attempts

    The specification's usage, where it describes the ping probe: a retry
    count N stands for N + 1 attempts, the first one and N retries. *)
Definition attempts_with_retries (N : nat) : nat := S N.

(** ** The steps of the shutdown

    What [devsdk_service_stop] does, in the order in which it does it: the
    steps up to the clearing of the device map, the dealings with the
    registry, whose answer to the deregistration is [e], and the steps
    that end the shutdown. *)
Definition shutdown_begin (force : bool) (svc : devsdk_service_t) : list event :=
  [Ev_log LOG_DEBUG "Stop device service" []]
  ++ (if svc_scheduler svc then [Ev_scheduler_stop] else [])
  ++ match svc_daemon svc with
     | Some _ => [Ev_rest_server_destroy]
     | None => []
     end
  ++ [Ev_driver_stop force; Ev_devmap_clear].

Definition shutdown_registry (e : devsdk_error) (svc : devsdk_service_t)
  : list event :=
  match svc_registry svc with
  | Some _ =>
      Ev_registry_deregister_service (svc_name svc)
      :: (if code e
          then [Ev_log LOG_ERROR "Unable to deregister service from registry" []]
          else [])
  | None => []
  end.

Definition shutdown_end : list event :=
  [Ev_scheduler_free; Ev_threadpool_wait;
   Ev_log LOG_INFO "Stopped device service" []].

(** ** Strict parsing of a whole value

    What the typed accessors are asked for, said without the conversion
    functions: the number that a text denotes when the whole of it is a
    number and nothing else. *)

(** The value of a text all of whose characters are digits of [base], the
    most significant first, on top of [acc]. *)
Fixpoint digits_value (base : Z) (s : string) (acc : Z) : option Z :=
  match s with
  | EmptyString => Some acc
  | String c rest =>
      match digit_value c with
      | Some d => if d <? base then digits_value base rest (acc * base + d) else None
      | None => None
      end
  end.

(** A numeral has at least one digit. *)
Definition numeral (base : Z) (s : string) : option Z :=
  match s with
  | EmptyString => None
  | String _ _ => digits_value base s 0
  end.

(** An integer constant without sign, in the notation of C: hexadecimal
    after [0x] or [0X], octal after [0], decimal otherwise. *)
Definition unsigned_literal (s : string) : option Z :=
  match s with
  | String "0" (String x rest) => if is_x x then numeral 16 rest else numeral 8 s
  | String "0" EmptyString => Some 0
  | _ => numeral 10 s
  end.

(** The integer that a whole text denotes: white space, if any, then a
    sign, if any, then an integer constant up to the end of the text. *)
Definition integer_literal (s : string) : option Z :=
  let '(neg, t) := scan_sign (skip_space s) in
  match unsigned_literal t with
  | Some m => Some (if neg then - m else m)
  | None => None
  end.

(** [v] parses strictly as a [long], or as an [unsigned long], with value
    [x]: the whole of it denotes [x], and [x] is a value of the type. *)
Definition parses_as_long (v : string) (x : Z) : Prop :=
  integer_literal v = Some x ∧ LONG_MIN ≤ x ≤ LONG_MAX.

Definition parses_as_ulong (v : string) (x : Z) : Prop :=
  integer_literal v = Some x ∧ 0 ≤ x ≤ ULONG_MAX.

(** What [strtoul] makes of a whole text: it takes a minus sign too, and
    then gives the negated magnitude in the unsigned type; the magnitude is
    what must not be out of range. *)
Definition converts_as_ulong (v : string) (x : Z) : Prop :=
  ∃ m, integer_literal v = Some m ∧ - ULONG_MAX ≤ m ≤ ULONG_MAX
       ∧ x = m mod (ULONG_MAX + 1).

(** The calls a property speaks of. *)
Definition is_registration (h : http_handler) (e : event) : bool :=
  match e with
  | Ev_rest_server_register_handler _ _ h' =>
      match h, h' with
      | edgex_device_handler_callback, edgex_device_handler_callback
      | edgex_device_handler_device, edgex_device_handler_device
      | edgex_device_handler_discovery, edgex_device_handler_discovery
      | edgex_device_handler_metrics, edgex_device_handler_metrics
      | edgex_device_handler_config, edgex_device_handler_config
      | version_handler, version_handler
      | ping_handler, ping_handler => true
      | _, _ => false
      end
  | _ => false
  end.

Definition is_callback_registration : event → bool :=
  is_registration edgex_device_handler_callback.

(** The registration of one of the remaining handlers: device, discovery,
    metrics, config, version, ping. *)
Definition is_other_registration (e : event) : bool :=
  match e with
  | Ev_rest_server_register_handler _ _ h => negb (is_callback_registration e)
  | _ => false
  end.

Definition remaining_handlers : list http_handler :=
  [edgex_device_handler_device; edgex_device_handler_discovery;
   edgex_device_handler_metrics; edgex_device_handler_config;
   version_handler; ping_handler].

Definition is_process_configured (e : event) : bool :=
  match e with Ev_process_configured_devices _ => true | _ => false end.

Definition is_driver_init (e : event) : bool :=
  match e with Ev_driver_init _ => true | _ => false end.

Definition is_rest_server_create (e : event) : bool :=
  match e with Ev_rest_server_create _ => true | _ => false end.

Definition is_create_deviceservice (e : event) : bool :=
  match e with Ev_create_deviceservice _ => true | _ => false end.

(** The calls that change what metadata holds about the service. *)
Definition is_metadata_mutation (e : event) : bool :=
  match e with
  | Ev_create_addressable _ | Ev_update_addressable _
  | Ev_create_deviceservice _ => true
  | _ => false
  end.

Definition is_registry_ping (e : event) : bool :=
  match e with Ev_registry_ping => true | _ => false end.

Definition is_nanosleep (e : event) : bool :=
  match e with Ev_nanosleep _ => true | _ => false end.

Definition is_put_config (e : event) : bool :=
  match e with Ev_registry_put_config _ _ _ _ => true | _ => false end.

Definition is_loadConfig (e : event) : bool :=
  match e with Ev_loadConfig _ _ _ => true | _ => false end.

Definition is_ping_or_sleep (e : event) : bool :=
  match e with Ev_registry_ping | Ev_nanosleep _ => true | _ => false end.

Definition is_add_work (e : event) : bool :=
  match e with Ev_threadpool_add_work _ => true | _ => false end.

Definition is_error_log (e : event) : bool :=
  match e with Ev_log LOG_ERROR _ _ => true | _ => false end.

(** The calls of bring-up ([startConfigured]): nothing else makes them. *)
Definition is_bringup_call (e : event) : bool :=
  match e with
  | Ev_http_get _ | Ev_get_deviceservice _ _ | Ev_get_addressable _ _
  | Ev_create_addressable _ | Ev_update_addressable _
  | Ev_create_deviceservice _ | Ev_profiles_upload | Ev_get_devices _
  | Ev_get_watchers _ | Ev_devmap_populate_devices _
  | Ev_rest_server_create _ | Ev_rest_server_register_handler _ _ _
  | Ev_process_configured_devices _ | Ev_driver_init _ | Ev_scheduler_start
  | Ev_registry_register_service _ _ _ _ => true
  | _ => false
  end.

Definition occurs (a : event → bool) (tr : list event) : bool := existsb a tr.

Definition count (a : event → bool) (tr : list event) : nat :=
  length (List.filter a tr).

(** An [a] call is made, and no [b] call is made before it or in its place:
    whatever [b] calls there are come after the first [a] call. *)
Fixpoint strictly_before (a b : event → bool) (tr : list event) : bool :=
  match tr with
  | [] => false
  | e :: tr' =>
      if b e then false
      else if a e then true
      else strictly_before a b tr'
  end.

(** The addressable of a device service differs from the configured port
    or the resolved host. *)
Definition addressable_differs (ds : edgex_deviceservice) (port : Z)
    (myhost : string) : Prop :=
  addr_port (ds_addressable ds) ≠ port ∨ addr_address (ds_addressable ds) ≠ myhost.

(** ** A sample service and sample collaborators

    Used to evaluate the code on concrete runs. The collaborators below
    answer every call with success unless told otherwise. *)

Definition sample_config : edgex_device_config :=
  Config
    (ServiceInfo None 49990 (Timespec 1 0) 2 (Some "sample started") (Timespec 10 0)
       ["sensor"; "sample"])
    (Endpoints (Endpoint (Some "core-data") 48080)
               (Endpoint (Some "core-metadata") 48081)
               (Endpoint None 0))
    (LoggingInfo false None 0)
    (DeviceInfo true None)
    [NVPair "Rate" "5"].

Definition sample_profile : edgex_deviceprofile :=
  DeviceProfile "thermometer" [CmdInfo "temperature" true; CmdInfo "setpoint" false].

Definition sample_device : edgex_device :=
  Device "d-1" "probe" [Protocol "modbus" [NVPair "Address" "7"]] sample_profile.

Definition sample_service (regURL : option string)
    (registry : option devsdk_registry) : devsdk_service_t :=
  Service "device-sample" "1.0" "res" None regURL registry sample_config
    LOCKED DISABLED None {["probe" := sample_device]} []
    (Logger (LogFile "-") edgex_log_tofile None) true None 0.

Definition sample_toml : toml_table_t :=
  Toml None [NVPair "Service/Port" "49990"; NVPair "Driver/Rate" "5"]
    (Endpoints (Endpoint (Some "core-data") 48080)
               (Endpoint (Some "core-metadata") 48081)
               (Endpoint None 0))
    ["probe2"].

Definition sample_state (svc : devsdk_service_t) (md : metadata) : state :=
  State svc EDGEX_OK [] md.

(** The collaborators, with what varies from one run to the other: the
    process environment, the answers of the registry to the pings, the
    configuration it holds, the outcome of a write to it and of
    deregistration, and the answer of the driver. *)
Definition sample_env (getenv : string → option string)
    (registry_ping : list event → bool) (registry_config : devsdk_nvpairs)
    (put_config deregister : devsdk_error) (driver_init : bool) : environment :=
  Environment
    getenv "edge-node" (λ _, 1000) (λ _, 0) (λ _ _, EDGEX_OK)
    (λ _ _ _, (EDGEX_OK, Some sample_toml))
    (λ _ c _, (EDGEX_OK, c))
    (λ _ pairs, pairs)
    (λ location, Some (Registry location))
    (λ h, (registry_ping h, if registry_ping h then EDGEX_OK else EDGEX_ERROR "no answer"))
    (λ _, (registry_config, EDGEX_OK))
    (λ _, put_config)
    (λ _ _, None)
    (λ _, EDGEX_OK)
    (λ _, deregister)
    (λ _ _, EDGEX_OK)
    (λ _, "id-1")
    (λ _, EDGEX_OK)
    (λ _, (EDGEX_OK, [sample_device]))
    (λ _, (EDGEX_OK, []))
    (λ _, (EDGEX_OK, Some (RestServer 49990)))
    (λ _, EDGEX_OK)
    (λ _ _, driver_init)
    (λ _ _ _ _, Some (CookedEvent "reading")).

(** A process environment that holds the two variables of the wait for the
    registry, and nothing else. *)
Definition retry_variables (count wait : string) (name : string) : option string :=
  if String.eqb name "edgex_registry_retry_count" then Some count
  else if String.eqb name "edgex_registry_retry_wait" then Some wait
  else None.

Definition calm_env : environment :=
  sample_env (λ _, None) (λ _, true) [] EDGEX_OK EDGEX_OK true.

Definition empty_metadata : metadata := Metadata [] [].

(** Metadata that holds an addressable under the name of the sample service
    but no device service, as a start that failed between the two creations
    leaves it; the service then listened on port 48080. *)
Definition stale_metadata : metadata :=
  Metadata
    [Addressable "id-0" "device-sample" 900 "POST" "HTTP" "edge-node" 48080
       "/api/v1/callback"]
    [].

(** Metadata that holds the sample service, registered on port 48080. *)
Definition registered_metadata : metadata :=
  Metadata
    [Addressable "id-0" "device-sample" 900 "POST" "HTTP" "edge-node" 48080
       "/api/v1/callback"]
    [DeviceService "id-9" "device-sample"
       (Addressable "id-0" "device-sample" 900 "POST" "HTTP" "edge-node" 48080
          "/api/v1/callback")
       [] ENABLED UNLOCKED 900].

(** ** Vocabulary of the proofs about bring-up *)

Definition is_log (e : event) : bool :=
  match e with Ev_log _ _ _ => true | _ => false end.

(** The calls of the registration of the device service in metadata. *)
Definition is_reconcile_call (e : event) : bool :=
  match e with
  | Ev_get_deviceservice _ _ | Ev_get_addressable _ _ => true
  | _ => is_metadata_mutation e
  end.

(** The calls whose order C1 is about, and the creation of the server. *)
Definition is_milestone (e : event) : bool :=
  match e with
  | Ev_rest_server_create _ | Ev_rest_server_register_handler _ _ _
  | Ev_process_configured_devices _ | Ev_driver_init _ => true
  | _ => false
  end.

(** Every call [startConfigured] can make. *)
Definition bringup_alphabet (e : event) : bool :=
  match e with
  | Ev_log _ _ _ | Ev_nanosleep _ | Ev_watchlist_populate _ => true
  | _ => is_bringup_call e
  end.

(** A stretch of bring-up outside the registration in metadata: it makes the
    calls [tr], none of them a call of the registration, and leaves alone
    metadata and the fields of the service that the registration reads. *)
Definition quiet_step (s s' : state) (tr : list event) : Prop :=
  st_trace s' = st_trace s ++ tr
  ∧ st_metadata s' = st_metadata s
  ∧ svc_name (st_svc s') = svc_name (st_svc s)
  ∧ svc_config (st_svc s') = svc_config (st_svc s)
  ∧ svc_registry (st_svc s') = svc_registry (st_svc s)
  ∧ forallb (λ e, bringup_alphabet e && negb (is_reconcile_call e)) tr = true.

(** A part of bring-up outside the registration in metadata, as a whole: if
    it falls through, its milestones are [ms]; if it returns, an error is
    set. *)
Definition quiet_block (ms : list event) (f : flow unit unit) (s s' : state) : Prop :=
  ∃ tr, quiet_step s s' tr
        ∧ match f with
          | Return _ => code (st_err s') = true
          | Next _ => List.filter is_milestone tr = ms
          end.

(** Metadata records, for the service [name], an addressable with the given
    port and address. *)
Definition addressable_recorded (md : metadata) (name : string) (port : Z)
    (address : string) : Prop :=
  ∃ a, md_service_addressable md name = Some a
       ∧ addr_port a = port ∧ addr_address a = address.

(** The test [ds->addressable->port != svc->config.service.port ||
    strcmp (ds->addressable->address, myhost)]. *)
Definition endpoint_differs (ds : edgex_deviceservice) (port : Z)
    (myhost : string) : bool :=
  negb (addr_port (ds_addressable ds) =? port)
  || negb (strcmp (addr_address (ds_addressable ds)) myhost =? 0).

Definition is_get_deviceservice (e : event) : bool :=
  match e with Ev_get_deviceservice _ _ => true | _ => false end.

(** The milestones of a bring-up that runs to its end, in the order in
    which [startConfigured] reaches them. *)
Definition bringup_milestones (config : option toml_table_t)
    (svc : devsdk_service_t) : list event :=
  [Ev_rest_server_create (si_port (cfg_service (svc_config svc)));
   Ev_rest_server_register_handler EDGEX_DEV_API_CALLBACK [PUT; POST; DELETE]
     edgex_device_handler_callback] ++
  match config with
  | Some c => [Ev_process_configured_devices (toml_DeviceList c)]
  | None => []
  end ++
  [Ev_driver_init (cfg_driverconf (svc_config svc));
   Ev_rest_server_register_handler EDGEX_DEV_API_DEVICE [GET; PUT; POST]
     edgex_device_handler_device;
   Ev_rest_server_register_handler EDGEX_DEV_API_DISCOVERY [POST]
     edgex_device_handler_discovery;
   Ev_rest_server_register_handler EDGEX_DEV_API_METRICS [GET]
     edgex_device_handler_metrics;
   Ev_rest_server_register_handler EDGEX_DEV_API_CONFIG [GET]
     edgex_device_handler_config;
   Ev_rest_server_register_handler EDGEX_DEV_API_VERSION [GET] version_handler;
   Ev_rest_server_register_handler EDGEX_DEV_API_PING [GET] ping_handler].

(** What the registration in metadata leaves behind, told from its calls
    [calls]: the lookup of the device service comes first; if it finds a
    record, the only further call is an update of the addressable, made
    when the endpoint differs; if it finds none, no second lookup of the
    device service is made. When bring-up succeeds ([ok]), metadata records
    the configured endpoint, unless an addressable was found without a
    device service. *)
Definition registration_outcome (calls : list event) (md md' : metadata)
    (name : string) (port : Z) (myhost : string) (ok : Prop) : Prop :=
  ∃ found rest,
    calls = Ev_get_deviceservice name found :: rest
    ∧ match found with
      | Some ds =>
          rest = (if endpoint_differs ds port myhost
                  then [Ev_update_addressable
                          (with_port_address port myhost (ds_addressable ds))]
                  else [])
          ∧ (endpoint_differs ds port myhost = false → md' = md)
          ∧ (ok → addressable_recorded md' name port myhost)
      | None =>
          forallb (λ e, negb (is_get_deviceservice e)) rest = true
          ∧ (ok → Ev_get_addressable name None ∈ rest →
             addressable_recorded md' name port myhost)
      end.

(** ** Vocabulary of the proofs about [devsdk_service_start] *)

Definition is_get_registry (e : event) : bool :=
  match e with Ev_registry_get_registry _ => true | _ => false end.

Definition is_get_config (e : event) : bool :=
  match e with Ev_registry_get_config _ _ _ => true | _ => false end.

(** The calls made while the registry is located. *)
Definition phase_find (e : event) : bool :=
  match e with
  | Ev_iot_init | Ev_threadpool_start | Ev_log _ _ _ | Ev_loadConfig _ _ _
  | Ev_registry_get_registry _ => true
  | _ => false
  end.

(** The calls made while the registry is waited for and read. *)
Definition phase_registry (e : event) : bool :=
  match e with
  | Ev_registry_ping | Ev_nanosleep _ | Ev_log _ _ _
  | Ev_registry_get_config _ _ _ | Ev_populateConfig _ => true
  | _ => false
  end.

(** The calls made from the resolution of the endpoints on. *)
Definition phase_tail (e : event) : bool :=
  match e with
  | Ev_registry_query_service _ | Ev_parseTomlClients | Ev_toml_free => true
  | _ => bringup_alphabet e
  end.

(** The fields that name the service and its configuration are the same in
    both states. *)
Definition same_names (s s' : state) : Prop :=
  svc_name (st_svc s') = svc_name (st_svc s)
  ∧ svc_profile (st_svc s') = svc_profile (st_svc s)
  ∧ svc_confdir (st_svc s') = svc_confdir (st_svc s).

(** The configuration file loads: [edgex_device_loadConfig] gives a table
    and no error. *)
Definition config_file_loads (env : environment) : Prop :=
  ∀ h confdir profile, ∃ c, env_loadConfig env h confdir profile = (EDGEX_OK, Some c).

(** The calls made while the configuration file is read and uploaded. *)
Definition phase_file (e : event) : bool :=
  match e with
  | Ev_loadConfig _ _ _ | Ev_populateConfig _ | Ev_overrideConfig _
  | Ev_registry_put_config _ _ _ _ | Ev_toml_free | Ev_log _ _ _ => true
  | _ => false
  end.

(** * Further code of the two files *)

(** ** Auto-events ([edgex_device_autoevents])

    The third instance of the list comparison macro. Of an auto-event the
    comparison reads the resource, which is the key, the frequency and the
    [onChange] flag. *)

Record edgex_device_autoevents : Type :=
  AutoEvent { ae_resource : string; ae_frequency : string; ae_onChange : bool }.

Definition autoevent_equal (e1 e2 : edgex_device_autoevents) : bool :=
  (strcmp (ae_frequency e1) (ae_frequency e2) =? 0)
  && Bool.eqb (ae_onChange e1) (ae_onChange e2).

Definition edgex_device_autoevents_equal (l1 l2 : list edgex_device_autoevents)
  : bool :=
  list_equal ae_resource autoevent_equal l1 l2.

(** ** libc: [strchr] *)

(** [strchr (s, c)] for a [c] other than NUL: the text from the first [c]
    of [s] on, or [None] ([NULL]) when [c] does not occur in [s]. *)
Fixpoint strchr (s : string) (c : ascii) : option string :=
  match s with
  | EmptyString => None
  | String a rest => if Ascii.eqb a c then Some s else strchr rest c
  end.

(** What [s] reads as while a NUL is stored over its first [c]. *)
Fixpoint cut_at (s : string) (c : ascii) : string :=
  match s with
  | EmptyString => EmptyString
  | String a rest =>
      if Ascii.eqb a c then EmptyString else String a (cut_at rest c)
  end.

(** [p + 1] for a pointer [p] into a string. *)
Definition next_char (p : string) : string :=
  match p with
  | EmptyString => EmptyString
  | String _ rest => rest
  end.

(** ** The command line ([processCmdLine])

    [argv] is the array of the [argc] arguments that [main] received; the
    texts of the arguments are not changed (the NUL that is stored over an
    [=] while an argument is examined is taken back at the end of the
    iteration), only the array is. [argc] and [n] are C [int]s; they stay
    between 0 and the [argc] received. A read or a write outside the array
    makes the functions below give [None]. *)

(** The fields of a service that the command line sets. In a service under
    construction each of them may still be [NULL]. *)
Record cmdline_fields : Type :=
  CmdFields {
    cf_regURL : option string;
    cf_name : option string;
    cf_profile : option string;
    cf_confdir : option string }.

Definition set_regURL (v : option string) (f : cmdline_fields) :=
  CmdFields v (cf_name f) (cf_profile f) (cf_confdir f).
Definition set_name (v : option string) (f : cmdline_fields) :=
  CmdFields (cf_regURL f) v (cf_profile f) (cf_confdir f).
Definition set_profile (v : option string) (f : cmdline_fields) :=
  CmdFields (cf_regURL f) (cf_name f) v (cf_confdir f).
Definition set_confdir (v : option string) (f : cmdline_fields) :=
  CmdFields (cf_regURL f) (cf_name f) (cf_profile f) v.

(** [argv[n]] and [argv[n] = a]. *)
Definition argv_get (argv : list string) (n : Z) : option string :=
  if n <? 0 then None else argv !! Z.to_nat n.

Definition argv_set (argv : list string) (n : Z) (a : string)
  : option (list string) :=
  if (0 <=? n) && (n <? Z.of_nat (length argv))
  then Some (<[Z.to_nat n := a]> argv) else None.

(** [val && *val && *val != '-'] *)
Definition optional_value (val : option string) : bool :=
  match val with
  | Some (String c _) => negb (Ascii.eqb c "-")
  | _ => false
  end.

(** [testArgOpt]: whether [arg] is the option, with [*var] and [*result] as
    the call leaves them. *)
Definition testArgOpt (arg : string) (val : option string)
    (pshort plong : string) (var : option string) (result : bool)
  : bool * option string * bool :=
  if (strcmp arg pshort =? 0) || (strcmp arg plong =? 0) then
    if optional_value val then (true, val, result)
    else (true, match var with None => Some "" | Some _ => var end, false)
  else (false, var, result).

(** What [testArg] prints: [Option "%s" requires a parameter\n]. *)
Definition requires_parameter (arg : string) : string :=
  "Option " ++ String "034" (arg ++ String "034" " requires a parameter"
                                 ++ String "010" "").

(** [testArg]: whether [arg] is the option, with [*var], [*result] and the
    standard output as the call leaves them. *)
Definition testArg (arg : string) (val : option string)
    (pshort plong : string) (var : option string) (result : bool)
    (stdout : list string)
  : bool * option string * bool * list string :=
  if (strcmp arg pshort =? 0) || (strcmp arg plong =? 0) then
    if nonempty val then (true, val, result, stdout)
    else (true, var, false, stdout ++ [requires_parameter arg])
  else (false, var, result, stdout).

(** [for (int n = start + nargs; n < *argc_p; n++) argv[n - nargs] = argv[n];]
    with [k] iterations to go. *)
Fixpoint consume_loop (k : nat) (argv : list string) (n nargs : Z)
  : option (list string) :=
  match k with
  | O => Some argv
  | S k' =>
      match argv_get argv n with
      | Some a =>
          match argv_set argv (n - nargs) a with
          | Some argv' => consume_loop k' argv' (n + 1) nargs
          | None => None
          end
      | None => None
      end
  end.

(** [consumeArgs]: [*argc_p] and [argv] as the call leaves them. *)
Definition consumeArgs (argc : Z) (argv : list string) (start nargs : Z)
  : option (Z * list string) :=
  match consume_loop (Z.to_nat (argc - (start + nargs))) argv (start + nargs) nargs with
  | Some argv' => Some (argc - nargs, argv')
  | None => None
  end.

(** The variables of [processCmdLine] that its loop changes, and the
    standard output. *)
Record cmdline_state : Type :=
  CmdState {
    cl_result : bool;
    cl_n : Z;
    cl_argc : Z;
    cl_argv : list string;
    cl_svc : cmdline_fields;
    cl_stdout : list string }.

(** The body of the [while] loop. *)
Definition cmdline_body (st : cmdline_state) : option cmdline_state :=
  let result := cl_result st in
  let n := cl_n st in
  let argc := cl_argc st in
  let argv := cl_argv st in
  let svc := cl_svc st in
  match argv_get argv n with
  | None => None
  | Some arg0 =>
      let eq := strchr arg0 "=" in
      let arg := match eq with Some _ => cut_at arg0 "=" | None => arg0 end in
      let val :=
        match eq with
        | Some e => Some (Some (next_char e))
        | None =>
            if n + 1 <? argc then
              match argv_get argv (n + 1) with
              | Some v => Some (Some v)
              | None => None
              end
            else Some None
        end in
      match val with
      | None => None
      | Some val =>
          let '(isreg, regURL, result_r) :=
            testArgOpt arg val "-r" "--registry" (cf_regURL svc) result in
          if isreg then
            match consumeArgs argc argv n (if result_r then 2 else 1) with
            | Some (argc', argv') =>
                Some (CmdState true n argc' argv' (set_regURL regURL svc)
                        (cl_stdout st))
            | None => None
            end
          else
            let '(isname, name, result_n, out_n) :=
              testArg arg val "-n" "--name" (cf_name svc) result (cl_stdout st) in
            let '(isprofile, profile, result_p, out_p) :=
              if isname then (false, cf_profile svc, result_n, out_n)
              else testArg arg val "-p" "--profile" (cf_profile svc) result_n out_n in
            let '(isconfdir, confdir, result_c, out_c) :=
              if isname || isprofile then (false, cf_confdir svc, result_p, out_p)
              else testArg arg val "-c" "--confdir" (cf_confdir svc) result_p out_p in
            let svc' := set_confdir confdir (set_profile profile (set_name name svc)) in
            if isname || isprofile || isconfdir then
              match consumeArgs argc argv n
                      (match eq with Some _ => 1 | None => 2 end) with
              | Some (argc', argv') =>
                  Some (CmdState result_c n argc' argv' svc' out_c)
              | None => None
              end
            else Some (CmdState result_c (n + 1) argc argv svc' out_c)
      end
  end.

(** [while (result && n < argc) ...]: every iteration brings [n] and [argc]
    closer, so that [fuel] iterations are enough when [fuel] is at least
    [argc - n]; running out of fuel gives [None]. *)
Fixpoint cmdline_loop (fuel : nat) (st : cmdline_state) : option cmdline_state :=
  if cl_result st && (cl_n st <? cl_argc st) then
    match fuel with
    | O => None
    | S fuel' =>
        match cmdline_body st with
        | Some st' => cmdline_loop fuel' st'
        | None => None
        end
    end
  else Some st.

(** [processCmdLine]: the state in which the loop is left holds the result,
    [*argc_p], [argv], the fields of the service, and what was printed. *)
Definition processCmdLine (getenv : string → option string) (argc : Z)
    (argv : list string) (svc : cmdline_fields) : option cmdline_state :=
  let svc :=
    match getenv "edgex_registry" with
    | Some val => set_regURL (Some val) svc
    | None => svc
    end in
  cmdline_loop (Z.to_nat argc) (CmdState true 1 argc argv svc []).

(** ** [devsdk_service_new] *)

(** A service as [memset (result, 0, sizeof (devsdk_service_t))] leaves it:
    every pointer [NULL], every number 0. *)
Definition zero_endpoint : edgex_device_service_endpoint := Endpoint None 0.

Definition zero_config : edgex_device_config :=
  Config
    (ServiceInfo None 0 (Timespec 0 0) 0 None (Timespec 0 0) [])
    (Endpoints zero_endpoint zero_endpoint zero_endpoint)
    (LoggingInfo false None 0)
    (DeviceInfo false None)
    [].

Definition zero_fields : cmdline_fields := CmdFields None None None None.

(** What a call of [devsdk_service_new] leaves: the service or [NULL],
    [*err], [*argc] and [argv], the entries made in the default log, and
    what was printed. *)
Record service_new_outcome : Type :=
  NewOutcome {
    new_service : option devsdk_service_t;
    new_err : devsdk_error;
    new_argc : Z;
    new_argv : list string;
    new_log : list event;
    new_stdout : list string }.

(** [devsdk_service_new]. [impldata] is the implementation object of the
    driver, of which only the presence matters here. The device map and the
    watch list are allocated empty, the logger writes to ["-"] with
    [edgex_log_tofile], the service is neither started nor registered; the
    states, which bring-up sets, are taken to be the first enumerators. *)
Definition devsdk_service_new {A : Type} (getenv : string → option string)
    (defaultname version : option string) (impldata : option A)
    (argc : Z) (argv : list string) : option service_new_outcome :=
  match impldata with
  | None =>
      Some (NewOutcome None EDGEX_NO_DEVICE_IMPL argc argv
              [Ev_log LOG_ERROR "devsdk_service_new: no implementation object" []]
              [])
  | Some _ =>
      if negb (nonempty defaultname) then
        Some (NewOutcome None EDGEX_NO_DEVICE_NAME argc argv
                [Ev_log LOG_ERROR "devsdk_service_new: no default name specified" []]
                [])
      else if negb (nonempty version) then
        Some (NewOutcome None EDGEX_NO_DEVICE_VERSION argc argv
                [Ev_log LOG_ERROR "devsdk_service_new: no version specified" []]
                [])
      else
        match processCmdLine getenv argc argv zero_fields with
        | None => None
        | Some st =>
            if negb (cl_result st) then
              Some (NewOutcome None EDGEX_INVALID_ARG (cl_argc st) (cl_argv st)
                      [] (cl_stdout st))
            else
              let f := cl_svc st in
              let name :=
                match cf_name f with
                | Some name => name
                | None => default "" defaultname
                end in
              let confdir :=
                match cf_confdir f with
                | Some confdir => confdir
                | None => "res"
                end in
              Some (NewOutcome
                      (Some (Service name (default "" version) confdir
                               (cf_profile f) (cf_regURL f) None zero_config
                               LOCKED ENABLED None ∅ []
                               (Logger (LogFile "-") edgex_log_tofile None)
                               true None 0))
                      EDGEX_OK (cl_argc st) (cl_argv st) [] (cl_stdout st))
        end
  end.

(** ** Vocabulary of the statements about the command line *)

(** The spellings of the options. *)
Definition option_names : list string :=
  ["-r"; "--registry"; "-n"; "--name"; "-p"; "--profile"; "-c"; "--confdir"].

(** An argument that is no option: what stands before its first [=], or
    the whole of it when it has none, is not the spelling of an option. *)
Definition plain (a : string) : bool :=
  negb (bool_decide (cut_at a "=" ∈ option_names)).

(** The options that take a value, with their spellings and the field of
    the service that each sets. *)
Inductive value_option : Type := OptName | OptProfile | OptConfdir.

Definition option_short (o : value_option) : string :=
  match o with OptName => "-n" | OptProfile => "-p" | OptConfdir => "-c" end.

Definition option_long (o : value_option) : string :=
  match o with
  | OptName => "--name" | OptProfile => "--profile" | OptConfdir => "--confdir"
  end.

Definition set_field (o : value_option) (v : option string)
    (f : cmdline_fields) : cmdline_fields :=
  match o with
  | OptName => set_name v f
  | OptProfile => set_profile v f
  | OptConfdir => set_confdir v f
  end.

Definition get_field (o : value_option) (f : cmdline_fields) : option string :=
  match o with
  | OptName => cf_name f
  | OptProfile => cf_profile f
  | OptConfdir => cf_confdir f
  end.

(** The value that goes with the argument [arg0] found at [argv[n]]: what
    follows its first [=], or else the next argument, if there is one. *)
Definition value_at (argc : Z) (argv : list string) (n : Z) (arg0 : string)
  : option string :=
  match strchr arg0 "=" with
  | Some e => Some (next_char e)
  | None => if n + 1 <? argc then argv !! Z.to_nat (n + 1) else None
  end.

(** The registry location after [-r] or [--registry] with the value [val]:
    a value that is not empty and does not begin with [-] is taken;
    otherwise the location is left as it is, or set to the empty string
    when there is none. *)
Definition registry_choice (val var : option string) : option string :=
  if optional_value val then val
  else match var with None => Some "" | Some _ => var end.

(** The fields with the registry location that the process environment
    gives. *)
Definition with_environment (getenv : string → option string)
    (f : cmdline_fields) : cmdline_fields :=
  match getenv "edgex_registry" with
  | Some val => set_regURL (Some val) f
  | None => f
  end.

(** The values of the fields that come from the command line are not
    empty. *)
Definition fields_set_nonempty (f : cmdline_fields) : Prop :=
  ∀ o v, get_field o f = Some v → v ≠ "".

(** An option and its value in one argument: [opt=v]. *)
Definition joined (opt v : string) : string := opt ++ String "=" v.

(** The arguments that the caller still sees. *)
Definition visible (argc : Z) (argv : list string) : list string :=
  take (Z.to_nat argc) argv.

(** ** Vocabulary of further statements about the lifecycle *)

Definition is_http_get (e : event) : bool :=
  match e with Ev_http_get _ => true | _ => false end.

(** The calls that [ping_client] makes for the URL [u] with the pause [d]:
    requests to [u], pauses of [d], and log entries. *)
Definition ping_event (u : url) (d : timespec) (e : event) : Prop :=
  match e with
  | Ev_http_get u' => u' = u
  | Ev_nanosleep d' => d' = d
  | Ev_log _ _ _ => True
  | _ => False
  end.

(** The URL that [ping_client] builds: [http://%s:%u/api/v1/ping]. *)
Definition ping_url (ep : edgex_device_service_endpoint) : url :=
  Url (default "" (ep_host ep)) (ep_port ep) "/api/v1/ping".

(** [ep->host == NULL || ep->port == 0] *)
Definition endpoint_missing (ep : edgex_device_service_endpoint) : Prop :=
  ep_host ep = None ∨ ep_port ep = 0.

(** The calls to the registry. *)
Definition is_registry_call (e : event) : bool :=
  match e with
  | Ev_registry_get_registry _ | Ev_registry_ping
  | Ev_registry_get_config _ _ _ | Ev_registry_put_config _ _ _ _
  | Ev_registry_query_service _ | Ev_registry_register_service _ _ _ _
  | Ev_registry_deregister_service _ => true
  | _ => false
  end.

Definition is_scheduler_start (e : event) : bool :=
  match e with Ev_scheduler_start => true | _ => false end.

Definition is_get_watchers (e : event) : bool :=
  match e with Ev_get_watchers _ => true | _ => false end.

Definition is_register_service (e : event) : bool :=
  match e with Ev_registry_register_service _ _ _ _ => true | _ => false end.

(** The calls that bring-up makes before it reaches the initialisation of
    the driver: requests to the platform services, the registration in
    metadata, the profiles and the devices, the creation of the HTTP server
    with the callback handler, and the devices of the configuration file,
    if there is one. *)
Definition before_driver (config : option toml_table_t) (e : event) : bool :=
  match e with
  | Ev_log _ _ _ | Ev_http_get _ | Ev_nanosleep _
  | Ev_get_deviceservice _ _ | Ev_get_addressable _ _
  | Ev_create_addressable _ | Ev_update_addressable _
  | Ev_create_deviceservice _
  | Ev_profiles_upload | Ev_get_devices _ | Ev_devmap_populate_devices _
  | Ev_rest_server_create _ => true
  | Ev_rest_server_register_handler _ _ h =>
      match h with edgex_device_handler_callback => true | _ => false end
  | Ev_process_configured_devices _ => bool_decide (is_Some config)
  | _ => false
  end.

(** What bring-up writes to metadata for the service [svc] on the host
    [myhost]: an addressable that it creates bears the name of the service,
    the method [POST], the protocol [HTTP], the host, the configured port
    and the callback path; a device service that it creates bears the name
    of the service and its labels, last label first, and is enabled and
    unlocked; an addressable that it updates has the configured port and
    the host. *)
Definition registers_as (svc : devsdk_service_t) (myhost : string) (e : event)
  : Prop :=
  let service := cfg_service (svc_config svc) in
  match e with
  | Ev_create_addressable a =>
      addr_name a = svc_name svc ∧ addr_method a = "POST"
      ∧ addr_protocol a = "HTTP" ∧ addr_address a = myhost
      ∧ addr_port a = si_port service ∧ addr_path a = EDGEX_DEV_API_CALLBACK
  | Ev_create_deviceservice ds =>
      ds_name ds = svc_name svc ∧ ds_labels ds = reverse (si_labels service)
      ∧ ds_operatingState ds = ENABLED ∧ ds_adminState ds = UNLOCKED
  | Ev_update_addressable a =>
      addr_port a = si_port service ∧ addr_address a = myhost
  | _ => True
  end.

(** What a part of bring-up that comes before the driver does: calls of
    [before_driver], writes to metadata as [registers_as] says, and an
    error when it makes [startConfigured] return. *)
Definition early_part (env : environment) (config : option toml_table_t)
    (myhost : string) (m : M unit unit) : Prop :=
  ∀ s f s', m s = (f, s') →
    ∃ tr,
      st_trace s' = st_trace s ++ tr
      ∧ forallb (before_driver config) tr = true
      ∧ Forall (registers_as (st_svc s) myhost) tr
      ∧ svc_name (st_svc s') = svc_name (st_svc s)
      ∧ svc_config (st_svc s') = svc_config (st_svc s)
      ∧ svc_registry (st_svc s') = svc_registry (st_svc s)
      ∧ match f with
        | Return _ => code (st_err s') = true
        | Next _ => True
        end.

(** Bring-up from the initialisation of the driver on. *)
Definition sc_from_driver (env : environment) (myhost : string) : M unit unit :=
  (sc_driver_init env ;;
   sc_watchers_and_scheduler env ;;
   sc_register_handlers ;;
   sc_ready env myhost)%prog.

(** Collaborators as in [sample_env], but with platform services that
    answer no request. *)
Definition offline_env : environment :=
  Environment
    (env_getenv calm_env) (env_uname_nodename calm_env) (env_time_msecs calm_env)
    (env_nanosleep calm_env) (λ _ _, EDGEX_ERROR "connection refused")
    (env_loadConfig calm_env) (env_populateConfig calm_env)
    (env_overrideConfig calm_env) (env_registry_get_registry calm_env)
    (env_registry_ping calm_env) (env_registry_get_config calm_env)
    (env_registry_put_config calm_env) (env_registry_query_service calm_env)
    (env_registry_register_service calm_env)
    (env_registry_deregister_service calm_env) (env_metadata_fault calm_env)
    (env_metadata_new_id calm_env) (env_profiles_upload calm_env)
    (env_get_devices calm_env) (env_get_watchers calm_env)
    (env_rest_server_create calm_env) (env_process_configured_devices calm_env)
    (env_driver_init calm_env) (env_data_process_event calm_env).

(** Collaborators as in [sample_env], but with a metadata service that
    fails to give the provision watchers. *)
Definition no_watchers_env : environment :=
  Environment
    (env_getenv calm_env) (env_uname_nodename calm_env) (env_time_msecs calm_env)
    (env_nanosleep calm_env) (env_http_get calm_env)
    (env_loadConfig calm_env) (env_populateConfig calm_env)
    (env_overrideConfig calm_env) (env_registry_get_registry calm_env)
    (env_registry_ping calm_env) (env_registry_get_config calm_env)
    (env_registry_put_config calm_env) (env_registry_query_service calm_env)
    (env_registry_register_service calm_env)
    (env_registry_deregister_service calm_env) (env_metadata_fault calm_env)
    (env_metadata_new_id calm_env) (env_profiles_upload calm_env)
    (env_get_devices calm_env) (λ _, (EDGEX_ERROR "watchers unavailable", []))
    (env_rest_server_create calm_env) (env_process_configured_devices calm_env)
    (env_driver_init calm_env) (env_data_process_event calm_env).

(** The calls that bring-up makes from the initialisation of the driver
    on; the service is registered in the registry only if it uses one. *)
Definition from_driver (registered : bool) (e : event) : bool :=
  match e with
  | Ev_log _ _ _ | Ev_driver_init _ | Ev_get_watchers _
  | Ev_watchlist_populate _ | Ev_scheduler_start => true
  | Ev_rest_server_register_handler _ _ h =>
      match h with edgex_device_handler_callback => false | _ => true end
  | Ev_registry_register_service _ _ _ _ => registered
  | _ => false
  end.

(** The calls that [devsdk_service_start] makes once the configuration is
    in place: the endpoints come from the registry if the service uses one
    and from the [Clients] table of the file otherwise; then the logging
    service is waited for if the log goes there, and bring-up is run with
    the table of the configuration file, if one was loaded. *)
Definition after_configuration (config : option toml_table_t)
    (registered : bool) (e : event) : bool :=
  match e with
  | Ev_registry_query_service _ => registered
  | Ev_parseTomlClients => negb registered
  | Ev_toml_free => true
  | _ => before_driver config e || from_driver registered e
  end.

Definition is_parseTomlClients (e : event) : bool :=
  match e with Ev_parseTomlClients => true | _ => false end.

(** The service uses a registry. *)
Definition registered (s : state) : bool :=
  bool_decide (is_Some (svc_registry (st_svc s))).

(** * Properties of the name/value lists *)

Lemma string_compare_refl (s : string) : String.compare s s = Eq.
Proof.
  induction s as [|c s IH]; simpl; [done|].
  unfold Ascii.compare. by rewrite N.compare_refl.
Qed.

(** [strcmp] is 0 exactly on equal strings. *)
Lemma strcmp_eqb (a b : string) : (strcmp a b =? 0) = bool_decide (a = b).
Proof.
  unfold strcmp. case_bool_decide as H.
  - subst. by rewrite string_compare_refl.
  - destruct (String.compare a b) eqn:E; try done.
    by apply String.compare_eq_iff in E.
Qed.

Lemma nvpair_eta (p : nvpair) : NVPair (nv_name p) (nv_value p) = p.
Proof. by destruct p. Qed.

Lemma nvpair_eq (p q : nvpair) :
  nv_name p = nv_name q → nv_value p = nv_value q → p = q.
Proof. destruct p, q; simpl; congruence. Qed.

Lemma nvpairs_dup_loop_app (p result : devsdk_nvpairs) :
  nvpairs_dup_loop p result = result ++ p.
Proof.
  revert result. induction p as [|n p IH]; intros result; simpl.
  - by rewrite app_nil_r.
  - rewrite IH. unfold strdup. rewrite nvpair_eta, <- app_assoc. done.
Qed.

(** The copy has the same pairs in the same order. *)
Lemma devsdk_nvpairs_dup_id (p : devsdk_nvpairs) : devsdk_nvpairs_dup p = p.
Proof. unfold devsdk_nvpairs_dup. by rewrite nvpairs_dup_loop_app. Qed.

Section ListEqualFacts.
Context {T : Type}.
Variable NAMEFIELD : T → string.
Variable CMPFUNC : T → T → bool.

Lemma count_nodes_spec (l : list T) (n : Z) :
  0 ≤ n < UINT_MODULUS →
  count_nodes l n = (n + Z.of_nat (length l)) mod UINT_MODULUS.
Proof.
  revert n. induction l as [|x l IH]; intros n Hn; simpl count_nodes.
  - simpl. rewrite Z.add_0_r, Z.mod_small; lia.
  - rewrite IH.
    + unfold uint_incr. rewrite Zplus_mod_idemp_l. f_equal.
      rewrite length_cons. lia.
    + unfold uint_incr. apply Z.mod_pos_bound. done.
Qed.

Lemma count_nodes_length (l : list T) :
  Z.of_nat (length l) < UINT_MODULUS →
  count_nodes l 0 = Z.of_nat (length l).
Proof.
  intros H. rewrite count_nodes_spec by done.
  rewrite Z.add_0_l, Z.mod_small; lia.
Qed.

Lemma find_same_name_Some (x : T) (l2 : list T) (y : T) :
  find_same_name NAMEFIELD x l2 = Some y →
  y ∈ l2 ∧ NAMEFIELD x = NAMEFIELD y.
Proof.
  induction l2 as [|f l2 IH]; simpl; [done|].
  rewrite strcmp_eqb. case_bool_decide as E.
  - intros [= <-]. split; [left | done].
  - intros H. destruct (IH H) as [? ?]. split; [by right | done].
Qed.

Lemma find_same_name_None (x : T) (l2 : list T) :
  find_same_name NAMEFIELD x l2 = None ↔
  ∀ y, y ∈ l2 → NAMEFIELD x ≠ NAMEFIELD y.
Proof.
  induction l2 as [|f l2 IH]; simpl.
  - split; [|done]. intros _ y Hy. by apply elem_of_nil in Hy.
  - rewrite strcmp_eqb. case_bool_decide as E.
    + split; [done|]. intros H. exfalso. apply (H f); [left | done].
    + rewrite IH. split.
      * intros H y Hy. apply elem_of_cons in Hy as [-> | Hy]; auto.
      * intros H y Hy. apply H. by right.
Qed.

(** The first node with the key is the only one when keys are distinct. *)
Lemma find_same_name_unique (x y : T) (l2 : list T) :
  NoDup (NAMEFIELD <$> l2) → y ∈ l2 → NAMEFIELD x = NAMEFIELD y →
  find_same_name NAMEFIELD x l2 = Some y.
Proof.
  induction l2 as [|f l2 IH]; simpl; intros Hnd Hy Hxy.
  - by apply elem_of_nil in Hy.
  - apply NoDup_cons in Hnd as [Hf Hnd].
    rewrite strcmp_eqb. apply elem_of_cons in Hy as [-> | Hy].
    + by rewrite bool_decide_eq_true_2.
    + rewrite bool_decide_eq_false_2; [by apply IH|].
      intros E. apply Hf. rewrite <- E, Hxy. by apply list_elem_of_fmap_2.
Qed.

Lemma list_equal_loop_true (l l2 : list T) :
  list_equal_loop NAMEFIELD CMPFUNC l l2 = true ↔
  ∀ x, x ∈ l → ∃ y, find_same_name NAMEFIELD x l2 = Some y ∧ CMPFUNC x y = true.
Proof.
  induction l as [|a l IH]; simpl.
  - split; [|done]. intros _ x Hx. by apply elem_of_nil in Hx.
  - split.
    + intros H x Hx. destruct (find_same_name NAMEFIELD a l2) as [y|] eqn:E; [|done].
      destruct (CMPFUNC a y) eqn:C; simpl in H; [|done].
      apply elem_of_cons in Hx as [-> | Hx]; [eauto|].
      by apply IH.
    + intros H. destruct (H a) as (y & -> & ->); [left|]. simpl.
      apply IH. intros x Hx. apply H. by right.
Qed.
End ListEqualFacts.

Lemma pair_equal_true (p q : nvpair) :
  pair_equal p q = true ↔ nv_value p = nv_value q.
Proof. unfold pair_equal. rewrite strcmp_eqb. apply bool_decide_eq_true. Qed.

Lemma nvpairs_value_loop_find (x : nvpair) (l : devsdk_nvpairs) :
  nvpairs_value_loop l (nv_name x) = nv_value <$> find_same_name nv_name x l.
Proof.
  induction l as [|f l IH]; simpl; [done|].
  rewrite !strcmp_eqb.
  destruct (decide (nv_name f = nv_name x)) as [E|E].
  - by rewrite !bool_decide_eq_true_2.
  - rewrite !bool_decide_eq_false_2; [done | congruence | done].
Qed.

Lemma nvpairs_value_loop_Some (l : devsdk_nvpairs) (n v : string) :
  nvpairs_value_loop l n = Some v → ∃ x, x ∈ l ∧ nv_name x = n ∧ nv_value x = v.
Proof.
  induction l as [|f l IH]; simpl; [done|].
  rewrite strcmp_eqb. case_bool_decide as E.
  - intros [= <-]. exists f. split; [left | done].
  - intros H. destruct (IH H) as (x & ? & ? & ?). exists x. split; [by right | done].
Qed.

Lemma nvpairs_value_loop_None (l : devsdk_nvpairs) (n : string) :
  nvpairs_value_loop l n = None ↔ n ∉ nv_name <$> l.
Proof.
  induction l as [|f l IH]; simpl.
  - split; [|done]. intros _ H. by apply elem_of_nil in H.
  - rewrite strcmp_eqb. case_bool_decide as E.
    + split; [done|]. intros H. exfalso. apply H. subst. left.
    + rewrite IH, not_elem_of_cons. intuition congruence.
Qed.

(** Equal lists in the sense of the macro are permutations of one another,
    provided the keys of the first are distinct and the node counters do
    not wrap. *)
Lemma nvpairs_equal_Permutation (L1 L2 : devsdk_nvpairs) :
  NoDup (nv_name <$> L1) →
  Z.of_nat (length L1) < UINT_MODULUS →
  Z.of_nat (length L2) < UINT_MODULUS →
  devsdk_nvpairs_equal L1 L2 = true → L1 ≡ₚ L2.
Proof.
  intros Hnd H1 H2. unfold devsdk_nvpairs_equal, list_equal.
  rewrite !count_nodes_length by done.
  destruct (Z.eqb_spec (Z.of_nat (length L1)) (Z.of_nat (length L2))) as [Hlen|];
    simpl; [|done].
  rewrite list_equal_loop_true. intros Hloop.
  apply submseteq_length_Permutation; [|lia].
  apply NoDup_submseteq; [by eapply NoDup_fmap_1|].
  intros x Hx. destruct (Hloop x Hx) as (y & Hfind & Hcmp).
  apply find_same_name_Some in Hfind as [Hy Hname].
  apply pair_equal_true in Hcmp.
  by rewrite (nvpair_eq x y).
Qed.

Lemma Permutation_nvpairs_equal (L1 L2 : devsdk_nvpairs) :
  NoDup (nv_name <$> L1) → L1 ≡ₚ L2 → devsdk_nvpairs_equal L1 L2 = true.
Proof.
  intros Hnd Hperm. unfold devsdk_nvpairs_equal, list_equal.
  rewrite !count_nodes_spec by (unfold UINT_MODULUS; lia).
  rewrite (Permutation_length Hperm), Z.eqb_refl. simpl.
  apply list_equal_loop_true. intros x Hx. exists x. split.
  - apply find_same_name_unique; [by rewrite <- Hperm | by rewrite <- Hperm | done].
  - by apply pair_equal_true.
Qed.

(** Whatever the keys, a differing value under a common key is noticed. *)
Lemma nvpairs_equal_value_differs (L1 L2 : devsdk_nvpairs) (n v1 v2 : string) :
  devsdk_nvpairs_value L1 (Some n) = Some v1 →
  devsdk_nvpairs_value L2 (Some n) = Some v2 →
  v1 ≠ v2 → devsdk_nvpairs_equal L1 L2 = false.
Proof.
  simpl. intros Hv1 Hv2 Hne.
  apply not_true_is_false. unfold devsdk_nvpairs_equal, list_equal.
  destruct (negb _); [done|]. rewrite list_equal_loop_true. intros Hloop.
  revert Hv1 Hloop. induction L1 as [|f L1 IH]; simpl; [done|].
  rewrite strcmp_eqb. case_bool_decide as E.
  - intros [= <-] Hloop. destruct (Hloop f) as (y & Hfind & Hcmp); [left|].
    apply pair_equal_true in Hcmp.
    rewrite <- E, nvpairs_value_loop_find, Hfind in Hv2. simpl in Hv2.
    congruence.
  - intros Hv1 Hloop. apply IH; [done|]. intros x Hx. apply Hloop. by right.
Qed.

(** C7 (as amended): for a list whose names are pairwise distinct the copy
    made by [devsdk_nvpairs_dup] compares equal to the original; and for
    lists of fewer than 2^32 nodes of which the first has pairwise distinct
    names, [devsdk_nvpairs_equal] holds exactly of the permutations: it is
    true whatever the order, false when the sets of names differ, and false
    when a name has different values in the two lists. *)
Theorem devsdk_nvpairs_equal_distinct_names (L1 L2 : devsdk_nvpairs) :
  NoDup (nv_name <$> L1) →
  Z.of_nat (length L1) < UINT_MODULUS →
  Z.of_nat (length L2) < UINT_MODULUS →
  devsdk_nvpairs_equal (devsdk_nvpairs_dup L1) L1 = true
  ∧ (devsdk_nvpairs_equal L1 L2 = true ↔ L1 ≡ₚ L2)
  ∧ ((∃ n, ¬ (n ∈ nv_name <$> L1 ↔ n ∈ nv_name <$> L2)) →
     devsdk_nvpairs_equal L1 L2 = false)
  ∧ (∀ n v1 v2,
       devsdk_nvpairs_value L1 (Some n) = Some v1 →
       devsdk_nvpairs_value L2 (Some n) = Some v2 →
       v1 ≠ v2 → devsdk_nvpairs_equal L1 L2 = false).
Proof.
  intros Hnd H1 H2. repeat split.
  - rewrite devsdk_nvpairs_dup_id. by apply Permutation_nvpairs_equal.
  - by apply nvpairs_equal_Permutation.
  - by apply Permutation_nvpairs_equal.
  - intros [n Hn]. apply not_true_is_false. intros Heq. apply Hn.
    apply nvpairs_equal_Permutation in Heq; [|done..]. by rewrite Heq.
  - intros n v1 v2. apply nvpairs_equal_value_differs.
Qed.

Lemma devsdk_nvpairs_equal_distinct_names_witness :
  let L1 := [NVPair "Port" "49990"; NVPair "Host" "edge"] in
  let L2 := [NVPair "Host" "edge"; NVPair "Port" "49990"] in
  devsdk_nvpairs_equal (devsdk_nvpairs_dup L1) L1 = true
  ∧ (devsdk_nvpairs_equal L1 L2 = true ↔ L1 ≡ₚ L2).
Proof.
  intros L1 L2.
  destruct (devsdk_nvpairs_equal_distinct_names L1 L2) as (Hdup & Hperm & _).
  - apply (bool_decide_unpack _). vm_compute. exact I.
  - vm_compute. reflexivity.
  - vm_compute. reflexivity.
  - split; [exact Hdup | exact Hperm].
Defined.

(** C7, as stated, fails on a list in which a name occurs twice: the copy of
    such a list does not compare equal to it, and two lists with different
    sets of names can compare equal. *)
Lemma devsdk_nvpairs_equal_duplicate_names :
  devsdk_nvpairs_equal
    (devsdk_nvpairs_dup [NVPair "a" "1"; NVPair "a" "2"])
    [NVPair "a" "1"; NVPair "a" "2"] = false
  ∧ devsdk_nvpairs_equal
      [NVPair "a" "1"; NVPair "a" "1"] [NVPair "a" "1"; NVPair "b" "2"] = true.
Proof. split; vm_compute; reflexivity. Qed.

(** * Lookup returns the latest addition *)

Lemma nvpairs_built_from_snoc (adds : list (string * string)) (n v : string) :
  nvpairs_built_from (adds ++ [(n, v)]) = devsdk_nvpairs_new n v (nvpairs_built_from adds).
Proof. unfold nvpairs_built_from. by rewrite foldl_app. Qed.

Lemma most_recent_snoc (adds : list (string * string)) (n v name : string) :
  most_recent (adds ++ [(n, v)]) name =
  if decide (n = name) then Some v else most_recent adds name.
Proof.
  unfold most_recent. rewrite filter_app, filter_cons, filter_nil. simpl.
  destruct (decide (n = name)) as [E|E].
  - by rewrite last_snoc.
  - by rewrite app_nil_r.
Qed.

Lemma nvpairs_built_from_names (adds : list (string * string)) (name : string) :
  name ∈ nv_name <$> nvpairs_built_from adds ↔ name ∈ adds.*1.
Proof.
  induction adds as [|[n v] adds IH] using rev_ind.
  - done.
  - rewrite nvpairs_built_from_snoc, fmap_app. unfold devsdk_nvpairs_new, strdup.
    rewrite fmap_cons, elem_of_cons, elem_of_app, IH. simpl.
    rewrite list_elem_of_singleton. tauto.
Qed.

(** C10: on a list built with [devsdk_nvpairs_new], [devsdk_nvpairs_value]
    gives the value of the pair added last under the name asked for; it
    gives [NULL] exactly when no pair has that name, and also when the name
    asked for is [NULL]. *)
Theorem devsdk_nvpairs_value_most_recent (adds : list (string * string))
    (name : string) :
  devsdk_nvpairs_value (nvpairs_built_from adds) (Some name) = most_recent adds name
  ∧ (devsdk_nvpairs_value (nvpairs_built_from adds) (Some name) = None ↔
     name ∉ adds.*1)
  ∧ devsdk_nvpairs_value (nvpairs_built_from adds) None = None.
Proof.
  split; [|split]; [| |done].
  - simpl. induction adds as [|[n v] adds IH] using rev_ind; [done|].
    rewrite nvpairs_built_from_snoc, most_recent_snoc. simpl.
    unfold strdup. rewrite strcmp_eqb, IH.
    destruct (decide (n = name)).
    + by rewrite bool_decide_eq_true_2.
    + by rewrite bool_decide_eq_false_2.
  - simpl. rewrite nvpairs_value_loop_None, nvpairs_built_from_names. done.
Qed.

(** * Copies of protocol lists *)

Lemma protocol_eta (p : protocol) : Protocol (prot_name p) (prot_properties p) = p.
Proof. by destruct p. Qed.

Lemma protocols_dup_loop_reverse (p result : devsdk_protocols) :
  protocols_dup_loop p result = reverse p ++ result.
Proof.
  revert result. induction p as [|x p IH]; intros result; simpl; [done|].
  rewrite IH, devsdk_nvpairs_dup_id. unfold strdup.
  rewrite protocol_eta, reverse_cons, <- app_assoc. done.
Qed.

(** The copy holds the same nodes, last first. *)
Lemma devsdk_protocols_dup_reverse (e : devsdk_protocols) :
  devsdk_protocols_dup e = reverse e.
Proof.
  unfold devsdk_protocols_dup. by rewrite protocols_dup_loop_reverse, app_nil_r.
Qed.

(** C9 (as amended): [devsdk_protocols_dup] copies every node but reverses
    the list: the copy has the length of the original, and its element at
    position [length - 1 - i] has the protocol name and the properties, pair
    for pair, of the [i]-th element of the original; these properties compare
    equal under [devsdk_nvpairs_equal] when their names are pairwise
    distinct. A list of at most one protocol is copied as it is. *)
Theorem devsdk_protocols_dup_reversed_copy (e : devsdk_protocols) :
  length (devsdk_protocols_dup e) = length e
  ∧ (∀ i x, e !! i = Some x →
       ∃ y, devsdk_protocols_dup e !! (length e - 1 - i)%nat = Some y
            ∧ prot_name y = prot_name x
            ∧ prot_properties y = prot_properties x
            ∧ (NoDup (nv_name <$> prot_properties x) →
               devsdk_nvpairs_equal (prot_properties y) (prot_properties x) = true))
  ∧ ((length e ≤ 1)%nat → devsdk_protocols_dup e = e).
Proof.
  rewrite devsdk_protocols_dup_reverse. split; [|split].
  - apply length_reverse.
  - intros i x Hi. exists x. split; [|split; [done|split; [done|]]].
    + pose proof (lookup_lt_Some _ _ _ Hi) as Hlt.
      rewrite reverse_lookup by lia.
      replace (length e - S (length e - 1 - i))%nat with i by lia. done.
    + intros Hnd. by apply Permutation_nvpairs_equal.
  - intros Hlen. destruct e as [|a [|b e]]; simpl in *; [done | done | lia].
Qed.

Lemma devsdk_protocols_dup_reversed_copy_witness :
  let e := [Protocol "modbus" [NVPair "Address" "10.0.0.7"];
            Protocol "other" [NVPair "Port" "502"]] in
  ∃ y, devsdk_protocols_dup e !! 1%nat = Some y
       ∧ prot_name y = "modbus"
       ∧ devsdk_nvpairs_equal (prot_properties y) [NVPair "Address" "10.0.0.7"] = true.
Proof.
  intros e.
  destruct (devsdk_protocols_dup_reversed_copy e) as (_ & Hnth & _).
  destruct (Hnth 0%nat (Protocol "modbus" [NVPair "Address" "10.0.0.7"]))
    as (y & Hy & Hname & _ & Heq); [reflexivity|].
  exists y. split; [exact Hy | split; [exact Hname |]].
  apply Heq. apply (bool_decide_unpack _). vm_compute. exact I.
Defined.

(** C9, as stated, fails on a list of two protocols: the first element of
    the copy bears the name of the second element of the original. *)
Lemma devsdk_protocols_dup_not_in_order :
  let e := [Protocol "modbus" []; Protocol "other" []] in
  prot_name <$> devsdk_protocols_dup e !! 0%nat = Some "other"
  ∧ prot_name <$> e !! 0%nat = Some "modbus".
Proof. split; vm_compute; reflexivity. Qed.

(** * Typed accessors *)

Lemma nonempty_Some (v : option string) :
  nonempty v = true ↔ ∃ s, v = Some s ∧ s ≠ "".
Proof.
  destruct v as [[|c s]|]; simpl; split; try done.
  - intros (s & [= <-] & H). done.
  - intros _. by eexists.
  - intros (s & ? & _). done.
Qed.

Lemma at_end_true (e : string) : at_end e = true ↔ e = "".
Proof. by destruct e. Qed.

Lemma digit_value_nonneg (c : ascii) (d : Z) : digit_value c = Some d → 0 ≤ d.
Proof.
  unfold digit_value.
  repeat match goal with
         | |- context [if ?b then _ else _] => destruct b eqn:?
         end; intros [= <-]; lia.
Qed.

Lemma scan_digits_nonneg (base : Z) (s : string) (acc : Z) (any : bool)
    (v : Z) (b : bool) (rest : string) :
  0 ≤ base → 0 ≤ acc → scan_digits base s acc any = (v, b, rest) → 0 ≤ v.
Proof.
  intros Hbase. revert acc any.
  induction s as [|c s IH]; intros acc any Hacc; simpl.
  - by intros [= <- _ _].
  - destruct (digit_value c) as [d|] eqn:Hd; [|by intros [= <- _ _]].
    destruct (d <? base); [|by intros [= <- _ _]].
    apply IH. apply digit_value_nonneg in Hd. nia.
Qed.

Lemma scan_number_nonneg (s : string) (v : Z) (b : bool) (rest : string) :
  scan_number 0 s = (v, b, rest) → 0 ≤ v.
Proof.
  assert (∀ base t, 0 ≤ base → scan_digits base t 0 false = (v, b, rest) → 0 ≤ v)
    as Hdigits by (intros base t Hb H; by eapply scan_digits_nonneg in H).
  unfold scan_number. simpl (0 =? 0). cbv iota.
  destruct s as [|c s]; [by apply Hdigits|].
  destruct (Ascii.eqb_spec c "0") as [->|Hc].
  - destruct s as [|x s]; [by apply Hdigits|].
    destruct (is_x x).
    + destruct (scan_digits 16 s 0 false) as [[v' any] rest'] eqn:E.
      destruct any.
      * intros [= <- _ _]. by eapply scan_digits_nonneg in E.
      * by intros [= <- _ _].
    + by apply Hdigits.
  - intros H. apply (Hdigits 10 (String c s)); [lia|].
    destruct c as [[] [] [] [] [] [] [] []]; try done.
Qed.

(** ** The conversions and the numbers that texts denote *)

Lemma scan_digits_whole (base : Z) (s : string) (acc : Z) (any : bool) :
  match digits_value base s acc with
  | Some v => scan_digits base s acc any = (v, any || negb (at_end s), "")
  | None => ∃ v a c r, scan_digits base s acc any = (v, a, String c r)
  end.
Proof.
  revert acc any. induction s as [|c s IH]; intros acc any; simpl.
  - by rewrite orb_false_r.
  - destruct (digit_value c) as [d|]; [|by eauto].
    destruct (d <? base); [|by eauto].
    specialize (IH (acc * base + d) true).
    destruct (digits_value base s (acc * base + d)) as [v|]; [|done].
    by rewrite IH, orb_true_r.
Qed.

Lemma numeral_scan (base : Z) (s : string) :
  match numeral base s with
  | Some v => scan_digits base s 0 false = (v, true, "")
  | None => ∀ v rest, scan_digits base s 0 false = (v, true, rest) → rest ≠ ""
  end.
Proof.
  destruct s as [|c s]; [by intros v rest [=]|].
  unfold numeral. pose proof (scan_digits_whole base (String c s) 0 false) as H.
  destruct (digits_value base (String c s) 0) as [v|]; [done|].
  destruct H as (v & a & c' & r & ->). by intros ? ? [= _ _ <-].
Qed.

Lemma scan_number_whole (s : string) :
  match unsigned_literal s with
  | Some m => scan_number 0 s = (m, true, "")
  | None => ∀ v rest, scan_number 0 s = (v, true, rest) → rest ≠ ""
  end.
Proof.
  unfold scan_number, unsigned_literal. simpl (0 =? 0). cbv iota.
  destruct s as [|c s]; [exact (numeral_scan 10 "")|].
  destruct (Ascii.eqb_spec c "0") as [->|Hc].
  - destruct s as [|x s]; [done|].
    destruct (is_x x); [|exact (numeral_scan 8 (String "0" (String x s)))].
    pose proof (numeral_scan 16 s) as H.
    destruct (numeral 16 s) as [m|].
    + by rewrite H.
    + destruct (scan_digits 16 s 0 false) as [[v' any] rest'].
      destruct any.
      * intros v rest [= _ <-]. by eapply H.
      * by intros v rest [= _ <-].
  - pose proof (numeral_scan 10 (String c s)) as H.
    destruct c as [[] [] [] [] [] [] [] []]; try exact H.
    done.
Qed.

Lemma strtol_whole (nptr : string) (x : Z) :
  nptr ≠ "" → strtol nptr 0 = (x, "", 0) ↔ parses_as_long nptr x.
Proof.
  intros Hne. unfold strtol, parses_as_long, integer_literal.
  destruct (scan_sign (skip_space nptr)) as [neg t].
  pose proof (scan_number_whole t) as H.
  destruct (scan_number 0 t) as [[v any] rest] eqn:Hscan.
  pose proof (scan_number_nonneg _ _ _ _ Hscan) as Hv.
  destruct (unsigned_literal t) as [m|].
  - injection H as -> -> ->.
    destruct (Z.ltb_spec (if neg then - m else m) LONG_MIN);
      [|destruct (Z.ltb_spec LONG_MAX (if neg then - m else m))].
    + split; [done|]. intros [[= <-] ?]. lia.
    + split; [done|]. intros [[= <-] ?]. lia.
    + split; [by intros [= <-] | by intros [[= <-] _]].
  - split; [|by intros [? _]].
    destruct any; [|by intros [= _ ->]].
    specialize (H v rest eq_refl).
    destruct (_ <? _); [by intros [= _ ->]|].
    destruct (_ <? _); by intros [= _ ->].
Qed.

Lemma strtoul_whole (nptr : string) (x : Z) :
  nptr ≠ "" → strtoul nptr 0 = (x, "", 0) ↔ converts_as_ulong nptr x.
Proof.
  intros Hne. unfold strtoul, converts_as_ulong, integer_literal.
  destruct (scan_sign (skip_space nptr)) as [neg t].
  pose proof (scan_number_whole t) as H.
  destruct (scan_number 0 t) as [[v any] rest] eqn:Hscan.
  pose proof (scan_number_nonneg _ _ _ _ Hscan) as Hv.
  destruct (unsigned_literal t) as [m|].
  - injection H as -> -> ->.
    destruct (Z.ltb_spec ULONG_MAX m).
    + split; [done|]. intros (m' & [= <-] & ? & _). destruct neg; lia.
    + split.
      * intros [= <-]. eexists. split; [done|]. split; [destruct neg; lia|].
        destruct neg; [done|]. unfold ULONG_MAX in *. rewrite Z.mod_small; lia.
      * intros (m' & [= <-] & _ & ->). f_equal. f_equal.
        destruct neg; [done|]. unfold ULONG_MAX in *. rewrite Z.mod_small; lia.
  - split; [|by intros (? & ? & _)].
    destruct any; [|by intros [= _ ->]].
    specialize (H v rest eq_refl).
    destruct (_ <? _); by intros [= _ ->].
Qed.

(** A decimal numeral within the range of [int] is what [atoi] reads. *)
Lemma atoi_numeral (v : string) (k : Z) :
  numeral 10 v = Some k → k ≤ INT_MAX → atoi v = k.
Proof.
  intros Hnum Hk. pose proof (numeral_scan 10 v) as Hscan. rewrite Hnum in Hscan.
  pose proof (scan_digits_nonneg 10 v 0 false _ _ _ ltac:(lia) ltac:(lia) Hscan) as Hpos.
  destruct v as [|c v]; [done|].
  assert (skip_space (String c v) = String c v
          ∧ scan_sign (String c v) = (false, String c v)) as [Hsp Hsg].
  { simpl in Hnum. destruct (digit_value c) as [d|] eqn:Hd; [|done].
    destruct (Z.ltb_spec d 10) as [Hlt|]; [|done]. clear Hnum Hscan.
    destruct c as [[] [] [] [] [] [] [] []]; try done.
    all: vm_compute in Hd; injection Hd as <-; lia. }
  unfold atoi, strtol. rewrite Hsp, Hsg.
  unfold scan_number. simpl (10 =? 0). cbv iota. rewrite Hscan.
  unfold INT_MAX, LONG_MIN, LONG_MAX, to_int, INT_MODULUS in *.
  destruct (Z.ltb_spec k (- 2 ^ 63)); [lia|].
  destruct (Z.ltb_spec (2 ^ 63 - 1) k); [lia|].
  change (2 ^ 32 / 2) with (2 ^ 31).
  rewrite Z.mod_small; lia.
Qed.

(** The shape shared by the three accessors. *)
Lemma accessor_shape {A} (conv : string → A * string * Z) (P : string → A → Prop)
    (nvp : devsdk_nvpairs) (name : option string) (val : A) :
  (∀ v x, v ≠ "" → conv v = (x, "", 0) ↔ P v x) → (∀ x, ¬ P "" x) →
  let r := (let v := devsdk_nvpairs_value nvp name in
            if nonempty v then
              let '(x, e, errno) := conv (default "" v) in
              if (errno =? 0) && at_end e then (true, x) else (false, val)
            else (false, val)) in
  (∀ x, r = (true, x) ↔ ∃ v, devsdk_nvpairs_value nvp name = Some v ∧ P v x)
  ∧ (r.1 = false → r.2 = val).
Proof.
  intros Hconv Hempty. cbv zeta.
  destruct (nonempty (devsdk_nvpairs_value nvp name)) eqn:Hne.
  - apply nonempty_Some in Hne as (s & Hs & Hs').
    rewrite Hs. simpl default.
    assert (∀ y, (∃ v, Some s = Some v ∧ P v y) ↔ conv s = (y, "", 0)) as Hiff.
    { intros y. rewrite (Hconv s y Hs'). split; [by intros (v & [= <-] & ?) | eauto]. }
    destruct (conv s) as [[x e] errno] eqn:Hc.
    destruct (Z.eqb_spec errno 0) as [->|Herr]; simpl.
    + destruct e as [|c e]; simpl.
      * split; [|done]. intros y. rewrite Hiff. split; congruence.
      * split; [|done]. intros y. rewrite Hiff. split; congruence.
    + split; [|done]. intros y. rewrite Hiff. split; congruence.
  - split; [|done]. intros y. split; [done|].
    intros (v & Hv & HP). destruct v as [|c v]; [by apply Hempty in HP|].
    by rewrite Hv in Hne.
Qed.



(** The accessors at work. *)
Example long_value_examples :
  let nvp := [NVPair "retries" "0x10"; NVPair "port" " -49990";
              NVPair "bad" "12abc"; NVPair "big" "9223372036854775808";
              NVPair "empty" ""] in
  devsdk_nvpairs_long_value nvp (Some "retries") 7 = (true, 16)
  ∧ devsdk_nvpairs_long_value nvp (Some "port") 7 = (true, -49990)
  ∧ devsdk_nvpairs_long_value nvp (Some "bad") 7 = (false, 7)
  ∧ devsdk_nvpairs_long_value nvp (Some "big") 7 = (false, 7)
  ∧ devsdk_nvpairs_long_value nvp (Some "empty") 7 = (false, 7)
  ∧ devsdk_nvpairs_long_value nvp (Some "absent") 7 = (false, 7)
  ∧ devsdk_nvpairs_long_value nvp None 7 = (false, 7)
  ∧ devsdk_nvpairs_ulong_value nvp (Some "big") 7 = (true, 9223372036854775808).
Proof. repeat split. Qed.

(** * Running the lifecycle code symbolically *)

Create HintDb exec.

#[local] Hint Unfold
  bind ret return_ run call when emit iot_log history
  get_svc update_svc get_err set_err get_metadata set_metadata
  iot_time_msecs nanosleep edgex_http_get
  edgex_metadata_client_get_deviceservice
  edgex_metadata_client_get_addressable
  edgex_metadata_client_create_addressable
  edgex_metadata_client_update_addressable
  edgex_metadata_client_create_deviceservice
  edgex_metadata_client_get_devices edgex_metadata_client_get_watchers
  edgex_device_profiles_upload edgex_devmap_populate_devices
  edgex_devmap_device_byname edgex_device_release edgex_devmap_clear
  edgex_watchlist_populate edgex_deviceprofile_findcommand
  edgex_data_process_event edgex_rest_server_create
  edgex_rest_server_register_handler
  edgex_device_process_configured_devices userfns_init userfns_stop
  edgex_device_loadConfig edgex_device_populateConfig
  edgex_device_overrideConfig edgex_device_parseTomlClients
  devsdk_registry_get_registry devsdk_registry_ping
  devsdk_registry_get_config devsdk_registry_put_config
  devsdk_registry_query_service devsdk_registry_register_service
  devsdk_registry_deregister_service iot_threadpool_add_work strdup : exec.

(** Unfolds the control operators and the collaborators' operations in the
    equation [H] of a run, which leaves the answers of the environment to
    be told apart. *)
Ltac exec_red_in H :=
  repeat (progress (autounfold with exec in H; cbv beta iota zeta in H));
  cbn [st_svc st_err st_trace st_metadata fst snd code negb
       svc_name svc_version svc_confdir svc_profile svc_regURL svc_registry
       svc_config svc_adminstate svc_opstate svc_daemon svc_devices
       svc_watchlist svc_logger svc_scheduler svc_stopconfig svc_starttime
       with_regURL with_registry with_config with_states with_daemon
       with_devices with_watchlist with_logger with_stopconfig with_starttime]
    in H.

Ltac exec_red :=
  repeat (progress (autounfold with exec; cbv beta iota zeta));
  cbn [st_svc st_err st_trace st_metadata fst snd code negb
       svc_name svc_version svc_confdir svc_profile svc_regURL svc_registry
       svc_config svc_adminstate svc_opstate svc_daemon svc_devices
       svc_watchlist svc_logger svc_scheduler svc_stopconfig svc_starttime
       with_regURL with_registry with_config with_states with_daemon
       with_devices with_watchlist with_logger with_stopconfig with_starttime].

Ltac exec_case_in H :=
  match type of H with
  | context [match ?x with _ => _ end] =>
      lazymatch x with
      | context [match _ with _ => _ end] => fail
      | _ => destruct x eqn:?
      end
  end.

(** Runs [H : m s = (f, s')] to its end on every path. *)
Ltac exec_in H :=
  exec_red_in H; repeat (exec_case_in H; exec_red_in H);
  first [injection H as ? ? | injection H as ?]; subst;
  cbn [st_svc st_err st_trace st_metadata fst snd
       svc_name svc_version svc_confdir svc_profile svc_regURL svc_registry
       svc_config svc_adminstate svc_opstate svc_daemon svc_devices
       svc_watchlist svc_logger svc_scheduler svc_stopconfig svc_starttime
       with_regURL with_registry with_config with_states with_daemon
       with_devices with_watchlist with_logger with_stopconfig with_starttime]
    in *;
  try discriminate.

Lemma trace_snoc (t0 t tr l : list event) :
  t = t0 ++ tr → t ++ l = t0 ++ (tr ++ l).
Proof. intros ->. by rewrite app_assoc. Qed.

(** Solves [t = t0 ++ ?tr] when [t] is [t0] with lists added at its end. *)
Ltac trace_eq :=
  repeat first
    [ eapply trace_snoc
    | match goal with
      | Ht : st_trace ?x = _ |- st_trace ?x = _ => rewrite Ht
      end ];
  first [reflexivity | symmetry; apply app_nil_r].

Lemma quiet_step_refl s : quiet_step s s [].
Proof. unfold quiet_step. by rewrite app_nil_r. Qed.

Lemma quiet_step_trans s1 s2 s3 tr1 tr2 :
  quiet_step s1 s2 tr1 → quiet_step s2 s3 tr2 → quiet_step s1 s3 (tr1 ++ tr2).
Proof.
  unfold quiet_step. intros (-> & -> & -> & -> & -> & H1) (-> & -> & -> & -> & -> & H2).
  rewrite app_assoc, forallb_app, H1, H2. done.
Qed.

(** Closes a goal [quiet_step s s' ?tr] on a fully executed path. *)
Ltac quiet_step_explicit :=
  unfold quiet_step; cbn [st_svc st_err st_trace st_metadata];
  repeat rewrite <- app_assoc;
  split; [reflexivity || (symmetry; apply app_nil_r) |];
  repeat split; reflexivity.

Ltac quiet_explicit :=
  eexists; split; [quiet_step_explicit | reflexivity].

Lemma code_false (e : devsdk_error) : code e = false ↔ e = EDGEX_OK.
Proof. destruct e; simpl; split; congruence. Qed.

Lemma negb_code_true (e : devsdk_error) : negb (code e) = true ↔ e = EDGEX_OK.
Proof. rewrite negb_true_iff. apply code_false. Qed.

(** ** [ping_client] *)

Lemma ping_client_loop_spec env fuel sname u n d s f s' :
  ping_client_loop env fuel sname u n d s = (f, s') →
  (∃ tr, quiet_step s s' tr ∧ List.filter is_milestone tr = [])
  ∧ st_svc s' = st_svc s
  ∧ match f with
    | Return b => b = true ∧ st_err s' = EDGEX_OK
    | Next _ => True
    end.
Proof.
  revert n s f s'. induction fuel as [|fuel IH]; intros n s f s'; simpl; intros H.
  - exec_red_in H.
    destruct (negb (code (env_http_get env (st_trace s) u))) eqn:Hc;
      [|destruct (n =? 0)].
    all: exec_in H.
    all: split; [quiet_explicit|].
    all: split; [done|]; try done.
    split; [done|]. by apply negb_code_true.
  - exec_red_in H.
    destruct (negb (code (env_http_get env (st_trace s) u))) eqn:Hc;
      [|destruct (n =? 0)].
    + exec_in H. split; [quiet_explicit|].
      split; [done|]. split; [done|]. by apply negb_code_true.
    + exec_in H. split; [quiet_explicit|done].
    + exec_red_in H. destruct (env_nanosleep env _ =? 0) eqn:Hz.
      * apply IH in H as ((tr & Hq & Hm) & Hsvc & Hf).
        split; [|split; [by rewrite Hsvc | done]].
        eexists. split.
        -- eapply quiet_step_trans; [|exact Hq]. quiet_step_explicit.
        -- rewrite List.filter_app, Hm. reflexivity.
      * exec_in H. split; [quiet_explicit|done].
Qed.

Lemma ping_client_spec env sname ep n d s b s' :
  run (ping_client env sname ep n d) s = (b, s') →
  (∃ tr, quiet_step s s' tr ∧ List.filter is_milestone tr = [])
  ∧ st_svc s' = st_svc s
  ∧ (if b then st_err s' = EDGEX_OK else code (st_err s') = true).
Proof.
  unfold ping_client, run. intros H.
  destruct (ep_host ep) as [host|]; [destruct (ep_port ep =? 0) eqn:Hport|].
  1,3: exec_in H; split; [quiet_explicit | done].
  unfold bind at 1 in H.
  destruct (ping_client_loop _ _ _ _ _ _ s) as [[r|[]] s1] eqn:Hloop;
    apply ping_client_loop_spec in Hloop as ((tr & Hq & Hm) & Hsvc & Hf).
  - exec_in H. destruct Hf as [-> Herr]. split; [by eauto|]. done.
  - exec_in H. split; [|split; [done|done]].
    eexists. split.
    + eapply quiet_step_trans; [exact Hq|]. quiet_step_explicit.
    + rewrite List.filter_app, Hm. reflexivity.
Qed.

(** ** The parts of [startConfigured] *)

Ltac quiet_block_explicit :=
  unfold quiet_block; eexists; split; [quiet_step_explicit | first [done | reflexivity]].

Lemma sc_wait_for_services_spec env s f s' :
  sc_wait_for_services env s = (f, s') →
  ∃ tr, quiet_step s s' tr
        ∧ List.filter is_milestone tr = []
        ∧ st_svc s' = st_svc s
        ∧ match f with
          | Return _ => code (st_err s') = true
          | Next _ => st_err s' = EDGEX_OK
          end.
Proof.
  unfold sc_wait_for_services. intros H.
  unfold get_svc, bind at 1 in H. cbv beta iota in H.
  unfold bind at 1, call at 1 in H.
  destruct (run (ping_client env "core-data" _ _ _) s) as [b1 s1] eqn:Hp1.
  apply ping_client_spec in Hp1 as ((tr1 & Hq1 & Hm1) & Hsvc1 & Hb1).
  destruct b1; cbn [negb when] in H.
  - unfold bind at 1, ret at 1 in H. cbv beta iota in H.
    unfold bind at 1, call at 1 in H.
    destruct (run (ping_client env "core-metadata" _ _ _) s1) as [b2 s2] eqn:Hp2.
    apply ping_client_spec in Hp2 as ((tr2 & Hq2 & Hm2) & Hsvc2 & Hb2).
    destruct b2; cbn [negb when] in H; exec_in H.
    + exists ((tr1 ++ tr2) ++ []). split; [|split; [|split; [congruence | done]]].
      * eapply quiet_step_trans; [by eapply quiet_step_trans|].
        quiet_step_explicit.
      * by rewrite app_nil_r, List.filter_app, Hm1, Hm2.
    + exists (tr1 ++ tr2). split; [|split; [|split; [congruence | done]]].
      * by eapply quiet_step_trans.
      * by rewrite List.filter_app, Hm1, Hm2.
  - exec_in H. by exists tr1.
Qed.

Lemma sc_load_devices_spec env s f s' :
  sc_load_devices env s = (f, s') → quiet_block [] f s s'.
Proof.
  unfold sc_load_devices. intros H. exec_in H; quiet_block_explicit.
Qed.

Lemma sc_start_rest_server_spec env s f s' :
  sc_start_rest_server env s = (f, s') →
  quiet_block
    [Ev_rest_server_create (si_port (cfg_service (svc_config (st_svc s))));
     Ev_rest_server_register_handler EDGEX_DEV_API_CALLBACK [PUT; POST; DELETE]
       edgex_device_handler_callback] f s s'.
Proof.
  unfold sc_start_rest_server. intros H. exec_in H; quiet_block_explicit.
Qed.

Lemma sc_configured_devices_spec env config s f s' :
  sc_configured_devices env config s = (f, s') →
  quiet_block
    match config with
    | Some c => [Ev_process_configured_devices (toml_DeviceList c)]
    | None => []
    end f s s'.
Proof.
  unfold sc_configured_devices. intros H.
  destruct config; exec_in H; quiet_block_explicit.
Qed.

Lemma sc_driver_init_spec env s f s' :
  sc_driver_init env s = (f, s') →
  quiet_block [Ev_driver_init (cfg_driverconf (svc_config (st_svc s)))] f s s'.
Proof.
  unfold sc_driver_init. intros H. exec_in H; quiet_block_explicit.
Qed.

Lemma sc_watchers_and_scheduler_spec env s f s' :
  sc_watchers_and_scheduler env s = (f, s') →
  quiet_block [] f s s' ∧ f = Next tt.
Proof.
  unfold sc_watchers_and_scheduler. intros H.
  exec_in H; (split; [quiet_block_explicit | done]).
Qed.

Lemma sc_register_handlers_spec s f s' :
  sc_register_handlers s = (f, s') →
  quiet_block
    [Ev_rest_server_register_handler EDGEX_DEV_API_DEVICE [GET; PUT; POST]
       edgex_device_handler_device;
     Ev_rest_server_register_handler EDGEX_DEV_API_DISCOVERY [POST]
       edgex_device_handler_discovery;
     Ev_rest_server_register_handler EDGEX_DEV_API_METRICS [GET]
       edgex_device_handler_metrics;
     Ev_rest_server_register_handler EDGEX_DEV_API_CONFIG [GET]
       edgex_device_handler_config;
     Ev_rest_server_register_handler EDGEX_DEV_API_VERSION [GET] version_handler;
     Ev_rest_server_register_handler EDGEX_DEV_API_PING [GET] ping_handler]
    f s s'
  ∧ f = Next tt.
Proof.
  unfold sc_register_handlers. intros H.
  exec_in H; (split; [quiet_block_explicit | done]).
Qed.

Lemma sc_ready_spec env myhost s f s' :
  sc_ready env myhost s = (f, s') → quiet_block [] f s s'.
Proof.
  unfold sc_ready. intros H. exec_in H; quiet_block_explicit.
Qed.

(** ** The metadata store *)

Lemma md_find_addressable_name md k a :
  md_find_addressable md k = Some a → addr_name a = k.
Proof.
  unfold md_find_addressable. intros H. apply List.find_some in H as [_ H].
  by apply bool_decide_eq_true in H.
Qed.

Lemma find_replaced_addressable (l : list edgex_addressable) a x :
  List.find (λ r, bool_decide (addr_name r = addr_name a)) l = Some x →
  List.find (λ r, bool_decide (addr_name r = addr_name a))
    ((λ r, if bool_decide (addr_name r = addr_name a) then a else r) <$> l) = Some a.
Proof.
  induction l as [|r l IH]; simpl; [done|].
  case_bool_decide as E.
  - intros _. by rewrite bool_decide_eq_true_2.
  - intros H. rewrite bool_decide_eq_false_2 by done. by apply IH.
Qed.

Lemma md_lookup_deviceservice_None md n :
  md_lookup_deviceservice md n = None ↔ md_find_deviceservice md n = None.
Proof.
  unfold md_lookup_deviceservice.
  destruct (md_find_deviceservice md n) as [ds|]; [|done].
  by destruct (md_find_addressable md _).
Qed.

Lemma endpoint_differs_false ds port myhost :
  endpoint_differs ds port myhost = false ↔
  addr_port (ds_addressable ds) = port ∧ addr_address (ds_addressable ds) = myhost.
Proof.
  unfold endpoint_differs. rewrite orb_false_iff, !negb_false_iff, strcmp_eqb.
  rewrite Z.eqb_eq, bool_decide_eq_true. done.
Qed.

Lemma endpoint_differs_true ds port myhost :
  endpoint_differs ds port myhost = true ↔ addressable_differs ds port myhost.
Proof.
  unfold endpoint_differs, addressable_differs.
  rewrite orb_true_iff, !negb_true_iff, strcmp_eqb.
  rewrite Z.eqb_neq, bool_decide_eq_false. done.
Qed.

Lemma recorded_unchanged md n ds port myhost :
  md_lookup_deviceservice md n = Some ds →
  endpoint_differs ds port myhost = false →
  addressable_recorded md n port myhost.
Proof.
  intros Hds Hd. apply endpoint_differs_false in Hd as [? ?].
  exists (ds_addressable ds). unfold md_service_addressable. by rewrite Hds.
Qed.

Lemma recorded_after_update md n ds x port myhost :
  md_lookup_deviceservice md n = Some ds →
  md_find_addressable md (addr_name (ds_addressable ds)) = Some x →
  let a := with_port_address port myhost (ds_addressable ds) in
  addressable_recorded
    (Metadata ((λ r, if bool_decide (addr_name r = addr_name a) then a else r)
                 <$> md_addressables md)
              (md_deviceservices md)) n port myhost.
Proof.
  intros Hds Hx a. exists a. split; [|done].
  unfold md_service_addressable, md_lookup_deviceservice in *.
  unfold md_find_deviceservice in *. cbn [md_deviceservices md_addressables].
  destruct (List.find _ (md_deviceservices md)) as [ds0|]; [|done].
  assert (addr_name (ds_addressable ds0) = addr_name a) as Hk.
  { destruct (md_find_addressable md (addr_name (ds_addressable ds0))) as [r|] eqn:Hr.
    - apply md_find_addressable_name in Hr. injection Hds as <-. by destruct ds0.
    - by injection Hds as <-. }
  unfold md_find_addressable in *. cbn [md_addressables].
  rewrite Hk. erewrite find_replaced_addressable; [done|].
  change (addr_name a) with (addr_name (ds_addressable ds)). exact Hx.
Qed.

Lemma find_app_None {A} (p : A → bool) (l : list A) (x : A) :
  List.find p l = None → p x = true → List.find p (l ++ [x]) = Some x.
Proof.
  induction l as [|y l IH]; simpl; intros H Hx; [by rewrite Hx|].
  destruct (p y); [done|]. by apply IH.
Qed.

Lemma recorded_after_create md n a ds :
  md_find_deviceservice md n = None →
  md_find_addressable md n = None →
  addr_name a = n → ds_name ds = n → ds_addressable ds = a →
  addressable_recorded
    (Metadata (md_addressables md ++ [a]) (md_deviceservices md ++ [ds]))
    n (addr_port a) (addr_address a).
Proof.
  intros Hds Ha Hna Hnd Hda. exists a. split; [|done].
  unfold md_service_addressable, md_lookup_deviceservice.
  unfold md_find_deviceservice, md_find_addressable in *.
  cbn [md_deviceservices md_addressables].
  rewrite (find_app_None _ _ ds Hds) by by apply bool_decide_eq_true.
  rewrite Hda, Hna.
  rewrite (find_app_None _ _ a Ha) by by apply bool_decide_eq_true.
  simpl. by rewrite <- Hda; destruct ds.
Qed.

(** ** The registration of the device service in metadata *)

Lemma sc_register_deviceservice_spec env myhost s f s' :
  sc_register_deviceservice env myhost s = (f, s') →
  let n := svc_name (st_svc s) in
  let port := si_port (cfg_service (svc_config (st_svc s))) in
  st_svc s' = st_svc s
  ∧ match f with Return _ => code (st_err s') = true | Next _ => True end
  ∧ ∃ tr,
      st_trace s' = st_trace s ++ tr
      ∧ forallb (λ e, is_log e || is_reconcile_call e) tr = true
      ∧ registration_outcome (List.filter is_reconcile_call tr)
          (st_metadata s) (st_metadata s') n port myhost (f = Next tt).
Proof.
  intros H. cbv zeta. unfold sc_register_deviceservice in H. exec_in H.
  all: split; [reflexivity|].
  all: split; [first [assumption | reflexivity | exact I]|].
  all: eexists.
  all: split; [repeat rewrite <- app_assoc; reflexivity|].
  all: split; [reflexivity|].
  all: unfold registration_outcome; eexists _, _.
  all: split; [reflexivity|].
  all: cbv beta iota.
  all: unfold endpoint_differs.
  all: try match goal with Hd : (negb _ || negb _) = _ |- _ => rewrite Hd end.
  all: simpl.
  all: repeat split; try reflexivity.
  all: try (intros; discriminate).
  all: intros.
  - eapply recorded_after_update; eassumption.
  - eapply recorded_unchanged; [eassumption | unfold endpoint_differs; assumption].
  - repeat match goal with
      | Hin : _ ∈ _ :: _ |- _ => apply elem_of_cons in Hin as [[=] | Hin]
      | Hin : _ ∈ [] |- _ => by apply elem_of_nil in Hin
      end.
  - apply recorded_after_create;
      first [reflexivity | assumption | by apply md_lookup_deviceservice_None].
Qed.

(** ** Putting the parts of [startConfigured] together *)

Lemma quiet_block_seq (m k : M unit unit) ms1 ms2 s f s' :
  bind m (λ _ : unit, k) s = (f, s') →
  (∀ f1 s1, m s = (f1, s1) → quiet_block ms1 f1 s s1) →
  (∀ s1 f2 s2, svc_config (st_svc s1) = svc_config (st_svc s) →
               k s1 = (f2, s2) → quiet_block ms2 f2 s1 s2) →
  quiet_block (ms1 ++ ms2) f s s'.
Proof.
  unfold bind. intros H Hm Hk.
  destruct (m s) as [[[]|[]] s1] eqn:E; specialize (Hm _ _ eq_refl).
  - injection H as <- <-. destruct Hm as (tr & Hq & Herr). by exists tr.
  - destruct Hm as (tr1 & Hq1 & Hms1).
    assert (svc_config (st_svc s1) = svc_config (st_svc s)) as Hcfg
      by apply Hq1.
    destruct (Hk _ _ _ Hcfg H) as (tr2 & Hq2 & Hf).
    exists (tr1 ++ tr2). split; [by eapply quiet_step_trans|].
    destruct f; [done|]. by rewrite List.filter_app, Hms1, Hf.
Qed.

(** The milestones of bring-up after the registration in metadata. *)
Lemma sc_after_registration_spec env config myhost s f s' :
  (sc_load_devices env ;;
   sc_start_rest_server env ;;
   sc_configured_devices env config ;;
   sc_driver_init env ;;
   sc_watchers_and_scheduler env ;;
   sc_register_handlers ;;
   sc_ready env myhost)%prog s = (f, s') →
  quiet_block
    ([] ++
     [Ev_rest_server_create (si_port (cfg_service (svc_config (st_svc s))));
      Ev_rest_server_register_handler EDGEX_DEV_API_CALLBACK [PUT; POST; DELETE]
        edgex_device_handler_callback] ++
     match config with
     | Some c => [Ev_process_configured_devices (toml_DeviceList c)]
     | None => []
     end ++
     [Ev_driver_init (cfg_driverconf (svc_config (st_svc s)))] ++
     [] ++
     [Ev_rest_server_register_handler EDGEX_DEV_API_DEVICE [GET; PUT; POST]
        edgex_device_handler_device;
      Ev_rest_server_register_handler EDGEX_DEV_API_DISCOVERY [POST]
        edgex_device_handler_discovery;
      Ev_rest_server_register_handler EDGEX_DEV_API_METRICS [GET]
        edgex_device_handler_metrics;
      Ev_rest_server_register_handler EDGEX_DEV_API_CONFIG [GET]
        edgex_device_handler_config;
      Ev_rest_server_register_handler EDGEX_DEV_API_VERSION [GET] version_handler;
      Ev_rest_server_register_handler EDGEX_DEV_API_PING [GET] ping_handler] ++
     []) f s s'.
Proof.
  intros H.
  eapply quiet_block_seq; [exact H | intros ? ? Hw; by apply sc_load_devices_spec in Hw |].
  clear H. intros s1 f1 s1' E1 H. rewrite <- E1.
  eapply quiet_block_seq; [exact H | intros ? ? Hw; by apply sc_start_rest_server_spec in Hw |].
  clear H. intros s2 f2 s2' E2 H.
  eapply quiet_block_seq; [exact H | intros ? ? Hw; by apply sc_configured_devices_spec in Hw |].
  clear H. intros s3 f3 s3' E3 H. rewrite <- E2, <- E3.
  eapply quiet_block_seq; [exact H | intros ? ? Hw; by apply sc_driver_init_spec in Hw |].
  clear H. intros s4 f4 s4' E4 H.
  eapply quiet_block_seq;
    [exact H | intros ? ? Hw; by apply sc_watchers_and_scheduler_spec in Hw as [? _] |].
  clear H. intros s5 f5 s5' E5 H.
  eapply quiet_block_seq;
    [exact H | intros ? ? Hw; by apply sc_register_handlers_spec in Hw as [? _] |].
  clear H. intros s6 f6 s6' E6 H.
  by apply sc_ready_spec in H.
Qed.

Lemma bind_inv {R A B} (m : M R A) (k : A → M R B) s f s' :
  bind m k s = (f, s') →
  (∃ r, m s = (Return r, s') ∧ f = Return r)
  ∨ (∃ a s1, m s = (Next a, s1) ∧ k a s1 = (f, s')).
Proof.
  unfold bind. destruct (m s) as [[r|a] s1]; intros H.
  - injection H as <- <-. left. by exists r.
  - right. by exists a, s1.
Qed.

Lemma run_inv {R} (m : M R R) s r s' :
  run m s = (r, s') → ∃ f, m s = (f, s') ∧ (f = Return r ∨ f = Next r).
Proof.
  unfold run. destruct (m s) as [[r'|r'] s1]; intros [= <- <-]; eauto.
Qed.

Lemma registration_outcome_mono calls md md' n port myhost (ok ok' : Prop) :
  (ok' → ok) →
  registration_outcome calls md md' n port myhost ok →
  registration_outcome calls md md' n port myhost ok'.
Proof.
  intros Himp (found & rest & Hcalls & H). exists found, rest. split; [done|].
  destruct found as [ds|]; intuition auto.
Qed.

(** The whole of [startConfigured]: the calls before the registration in
    metadata, those of the registration, and those after it. *)
Lemma startConfigured_spec env config s s' :
  run (startConfigured env config) s = (tt, s') →
  ∃ tr1 tr2 tr3,
    st_trace s' = st_trace s ++ tr1 ++ tr2 ++ tr3
    ∧ forallb (λ e, bringup_alphabet e && negb (is_reconcile_call e)) (tr1 ++ tr3) = true
    ∧ forallb (λ e, is_log e || is_reconcile_call e) tr2 = true
    ∧ List.filter is_milestone tr1 = []
    ∧ svc_registry (st_svc s') = svc_registry (st_svc s)
    ∧ (code (st_err s') = false →
       List.filter is_milestone tr3 = bringup_milestones config (st_svc s))
    ∧ (tr2 = [] ∧ tr3 = [] ∧ code (st_err s') = true
       ∨ registration_outcome (List.filter is_reconcile_call tr2)
           (st_metadata s) (st_metadata s') (svc_name (st_svc s))
           (si_port (cfg_service (svc_config (st_svc s))))
           (myhost_of env (st_svc s)) (code (st_err s') = false)).
Proof.
  intros H. apply run_inv in H as (f & H & Hf).
  unfold startConfigured in H.
  apply bind_inv in H as [(r & [=] & _) | (svc & s0 & [= <- <-] & H)].
  apply bind_inv in H as [(r & [=] & _) | ([] & s0 & [= <-] & H)].
  apply bind_inv in H as [([] & Hw & ->) | ([] & s1 & Hw & H)];
    apply sc_wait_for_services_spec in Hw as (tr1 & Hq1 & Hm1 & Hsvc1 & Hf1);
    destruct Hq1 as (Htr1 & Hmd1 & Hn1 & Hc1 & Hr1 & Hall1);
    cbn [st_svc st_err st_trace st_metadata] in *.
  { (* the platform services did not answer *)
    exists tr1, [], []. rewrite !app_nil_r.
    repeat split; try done.
    - intros Hc. congruence.
    - by left. }
  apply bind_inv in H as [([] & Hr & ->) | ([] & s2 & Hr & H)];
    apply sc_register_deviceservice_spec in Hr
      as (Hsvc2 & Hf2 & tr2 & Htr2 & Hall2 & Hout);
    rewrite Hmd1, Hsvc1 in Hout; cbn [svc_name svc_config with_states] in Hout.
  { (* the registration failed *)
    exists tr1, tr2, []. rewrite !app_nil_r.
    repeat split; try done.
    - by rewrite Htr2, Htr1, app_assoc.
    - by rewrite Hsvc2.
    - intros Hc. congruence.
    - right. eapply registration_outcome_mono; [|exact Hout]. congruence. }
  apply sc_after_registration_spec in H as (tr3 & Hq3 & Hf3).
  destruct Hq3 as (Htr3 & Hmd3 & Hn3 & Hc3 & Hr3 & Hall3).
  exists tr1, tr2, tr3. repeat split; try done.
  - by rewrite Htr3, Htr2, Htr1, !app_assoc.
  - by rewrite forallb_app, Hall1, Hall3.
  - by rewrite Hr3, Hsvc2.
  - intros Hc. destruct f; [congruence|]. rewrite Hf3, Hsvc2, Hsvc1. reflexivity.
  - right. rewrite Hmd3. eapply registration_outcome_mono; [|exact Hout]. done.
Qed.

(** ** Facts on traces *)

Lemma elem_of_list_filter (p : event → bool) (l : list event) (e : event) :
  e ∈ List.filter p l ↔ p e = true ∧ e ∈ l.
Proof. rewrite !list_elem_of_In, List.filter_In. tauto. Qed.

Lemma filter_nil_of_forallb (P q : event → bool) (l : list event) :
  forallb P l = true → (∀ e, P e = true → q e = false) → List.filter q l = [].
Proof.
  intros Hall Hq. induction l as [|e l IH]; simpl in *; [done|].
  apply andb_true_iff in Hall as [He Hl]. rewrite (Hq e He). by apply IH.
Qed.

Lemma filter_filter_sub (p q : event → bool) (l : list event) :
  (∀ e, q e = true → p e = true) →
  List.filter q (List.filter p l) = List.filter q l.
Proof.
  intros Hsub. induction l as [|e l IH]; simpl; [done|].
  destruct (p e) eqn:Hp; simpl.
  - by rewrite IH.
  - destruct (q e) eqn:Hq; [|done]. apply Hsub in Hq. congruence.
Qed.

Lemma strictly_before_filter (a b p : event → bool) (tr : list event) :
  (∀ e, p e = false → a e = false ∧ b e = false) →
  strictly_before a b (List.filter p tr) = strictly_before a b tr.
Proof.
  intros Hp. induction tr as [|e tr IH]; simpl; [done|].
  destruct (p e) eqn:E; simpl; [by rewrite IH|].
  destruct (Hp e E) as [-> ->]. done.
Qed.

Lemma occurs_filter (a p : event → bool) (tr : list event) :
  (∀ e, p e = false → a e = false) →
  occurs a (List.filter p tr) = occurs a tr.
Proof.
  intros Hp. unfold occurs. induction tr as [|e tr IH]; simpl; [done|].
  destruct (p e) eqn:E; simpl; [by rewrite IH|]. by rewrite (Hp e E).
Qed.

Lemma count_filter (a p : event → bool) (tr : list event) :
  (∀ e, p e = false → a e = false) →
  count a (List.filter p tr) = count a tr.
Proof.
  intros Hp. unfold count. f_equal. apply filter_filter_sub.
  intros e Ha. destruct (p e) eqn:E; [done|]. rewrite (Hp e E) in Ha. done.
Qed.

(** The milestones of a whole run are those of its last stretch. *)
Lemma startConfigured_milestones env config s s' :
  run (startConfigured env config) s = (tt, s') →
  st_err s' = EDGEX_OK →
  ∃ tr, st_trace s' = st_trace s ++ tr
        ∧ List.filter is_milestone tr = bringup_milestones config (st_svc s).
Proof.
  intros H Hok. apply startConfigured_spec in H
    as (tr1 & tr2 & tr3 & Htr & Hall13 & Hall2 & Hm1 & _ & Hm3 & _).
  exists (tr1 ++ tr2 ++ tr3). split; [done|].
  rewrite !List.filter_app, Hm1, Hm3 by by rewrite Hok.
  rewrite (filter_nil_of_forallb _ _ _ Hall2); [done|].
  by intros [].
Qed.

(** C1: in every successful run of [startConfigured] the callback handler
    is registered, and no configured device is processed before that; the
    driver is initialised, and none of the remaining handlers (device,
    discovery, metrics, config, version, ping) is registered before that;
    each of the seven handlers is registered once, and the configured
    devices are processed when there is a configuration file. *)
Theorem startConfigured_bringup_order env config s s' :
  run (startConfigured env config) s = (tt, s') →
  st_err s' = EDGEX_OK →
  ∃ tr, st_trace s' = st_trace s ++ tr
    ∧ strictly_before is_callback_registration is_process_configured tr = true
    ∧ (is_Some config → occurs is_process_configured tr = true)
    ∧ strictly_before is_driver_init is_other_registration tr = true
    ∧ Forall (λ h, count (is_registration h) tr = 1%nat)
        (edgex_device_handler_callback :: remaining_handlers)
    ∧ strictly_before is_rest_server_create
        (λ e, is_callback_registration e || is_other_registration e) tr = true.
Proof.
  intros H Hok.
  destruct (startConfigured_milestones _ _ _ _ H Hok) as (tr & Htr & Hm).
  exists tr. split; [done|].
  rewrite <- (strictly_before_filter _ _ is_milestone tr) by by intros [].
  rewrite <- (strictly_before_filter is_driver_init _ is_milestone tr)
    by by intros [].
  rewrite <- (strictly_before_filter is_rest_server_create _ is_milestone tr)
    by by intros [].
  rewrite <- (occurs_filter _ is_milestone tr) by by intros [].
  assert (∀ h, count (is_registration h) tr =
               count (is_registration h) (List.filter is_milestone tr)) as Hcount.
  { intros h. symmetry. apply count_filter. by intros []. }
  unfold remaining_handlers. rewrite !Forall_cons, Forall_nil, !Hcount, Hm.
  destruct config as [c|]; repeat split; try reflexivity.
  intros [? [=]].
Qed.

Lemma startConfigured_bringup_order_witness :
  let s := sample_state (sample_service None None) empty_metadata in
  let s' := (run (startConfigured calm_env (Some sample_toml)) s).2 in
  ∃ tr, st_trace s' = st_trace s ++ tr
    ∧ strictly_before is_callback_registration is_process_configured tr = true
    ∧ strictly_before is_driver_init is_other_registration tr = true.
Proof.
  intros s s'.
  destruct (startConfigured_bringup_order calm_env (Some sample_toml) s s')
    as (tr & Htr & Hcb & _ & Hinit & _).
  - vm_compute. reflexivity.
  - vm_compute. reflexivity.
  - exists tr. split; [exact Htr | split; [exact Hcb | exact Hinit]].
Defined.

(** ** The addressable of the service after bring-up *)

Lemma registration_calls_of_run env config s s' tr :
  run (startConfigured env config) s = (tt, s') →
  st_trace s' = st_trace s ++ tr →
  List.filter is_reconcile_call tr = []
  ∨ registration_outcome (List.filter is_reconcile_call tr)
      (st_metadata s) (st_metadata s') (svc_name (st_svc s))
      (si_port (cfg_service (svc_config (st_svc s))))
      (myhost_of env (st_svc s)) (code (st_err s') = false).
Proof.
  intros H Htr. apply startConfigured_spec in H
    as (tr1 & tr2 & tr3 & Htr' & Hall13 & Hall2 & _ & _ & _ & Hreg).
  rewrite Htr in Htr'. apply app_inv_head in Htr' as ->.
  rewrite forallb_app in Hall13. apply andb_true_iff in Hall13 as [Hall1 Hall3].
  rewrite !List.filter_app.
  rewrite (filter_nil_of_forallb _ _ _ Hall1), (filter_nil_of_forallb _ _ _ Hall3);
    [|by intros e [_ ->%negb_true_iff]%andb_true_iff..].
  rewrite app_nil_r. simpl.
  destruct Hreg as [(-> & _) | Hreg]; [by left | by right].
Qed.

(** The reconciliation of the addressable, where bring-up does it: in a run
    of [startConfigured] in which
    [get_deviceservice] gives a record whose addressable differs from the
    configured port or the resolved host, the one call that changes
    metadata is [update_addressable], made with the configured port and the
    resolved host, and [create_deviceservice] is not called; if the
    addressable agrees in both, no call changes metadata. After a successful
    run in which [get_deviceservice] gave a record, or in which
    [get_addressable] found no addressable, metadata records for the service
    an addressable with the configured port and the resolved host. *)
Theorem startConfigured_reconciles_addressable env config s s' tr :
  run (startConfigured env config) s = (tt, s') →
  st_trace s' = st_trace s ++ tr →
  let name := svc_name (st_svc s) in
  let port := si_port (cfg_service (svc_config (st_svc s))) in
  let myhost := myhost_of env (st_svc s) in
  (∀ ds, Ev_get_deviceservice name (Some ds) ∈ tr →
     (addressable_differs ds port myhost →
      ∃ a, List.filter is_metadata_mutation tr = [Ev_update_addressable a]
           ∧ addr_port a = port ∧ addr_address a = myhost
           ∧ count is_create_deviceservice tr = 0%nat)
     ∧ (¬ addressable_differs ds port myhost →
        List.filter is_metadata_mutation tr = []
        ∧ st_metadata s' = st_metadata s)
     ∧ (st_err s' = EDGEX_OK →
        addressable_recorded (st_metadata s') name port myhost))
  ∧ (st_err s' = EDGEX_OK → Ev_get_addressable name None ∈ tr →
     addressable_recorded (st_metadata s') name port myhost).
Proof.
  intros H Htr. cbv zeta.
  set (name := svc_name (st_svc s)).
  set (port := si_port (cfg_service (svc_config (st_svc s)))).
  set (myhost := myhost_of env (st_svc s)).
  assert (∀ p, (∀ e, p e = true → is_reconcile_call e = true) →
               List.filter p tr = List.filter p (List.filter is_reconcile_call tr))
    as Hsub by (intros p Hp; symmetry; by apply filter_filter_sub).
  assert (count is_create_deviceservice tr =
          length (List.filter is_create_deviceservice
                    (List.filter is_reconcile_call tr))) as Hcount.
  { unfold count. rewrite <- Hsub; [done | by intros []]. }
  rewrite Hcount, (Hsub is_metadata_mutation) by by intros [].
  assert (∀ e, is_reconcile_call e = true →
               e ∈ tr → e ∈ List.filter is_reconcile_call tr) as Hin
    by (intros e He Hetr; by apply elem_of_list_filter).
  destruct (registration_calls_of_run _ _ _ _ _ H Htr)
    as [Hnil | (found & rest & Hcalls & Hout)];
    [|fold name port myhost in Hout].
  { rewrite Hnil in *. split.
    - intros ds Hds%Hin; [|done]. by apply elem_of_nil in Hds.
    - intros _ Ha%Hin; [|done]. by apply elem_of_nil in Ha. }
  rewrite Hcalls in *. clear Hcalls Hsub Hcount. split.
  - intros ds Hds%Hin; [|done].
    destruct found as [ds0|].
    + destruct Hout as (-> & Hsame & Hrec).
      assert (ds0 = ds) as ->.
      { apply elem_of_cons in Hds as [[=]|Hds]; [done|].
        destruct (endpoint_differs _ _ _);
          repeat (apply elem_of_cons in Hds as [[=]|Hds]);
          by apply elem_of_nil in Hds. }
      split; [|split].
      * intros Hd%endpoint_differs_true. rewrite Hd. simpl. eauto.
      * intros Hd. destruct (endpoint_differs ds port myhost) eqn:E.
        -- by apply endpoint_differs_true in E.
        -- split; [done | by apply Hsame].
      * intros Hok. apply Hrec. by rewrite Hok.
    + destruct Hout as (Hnone & _).
      apply elem_of_cons in Hds as [[=]|Hds].
      apply list_elem_of_In in Hds.
      rewrite forallb_forall in Hnone. by apply Hnone in Hds.
  - intros Hok Ha%Hin; [|done]. destruct found as [ds0|].
    + destruct Hout as (-> & _ & Hrec). apply Hrec. by rewrite Hok.
    + destruct Hout as (_ & Hrec). apply Hrec; [by rewrite Hok|].
      by apply elem_of_cons in Ha as [[=]|Ha].
Qed.

Lemma startConfigured_reconciles_addressable_witness :
  let s := sample_state (sample_service None None) registered_metadata in
  let s' := (run (startConfigured calm_env (Some sample_toml)) s).2 in
  addr_port <$> md_service_addressable (st_metadata s) "device-sample" = Some 48080
  ∧ addressable_recorded (st_metadata s') "device-sample" 49990 "edge-node".
Proof.
  intros s s'. split; [vm_compute; reflexivity|].
  pose proof (startConfigured_reconciles_addressable calm_env (Some sample_toml)
                s s' (st_trace s')) as [Hfound _].
  - vm_compute. reflexivity.
  - vm_compute. reflexivity.
  - refine (proj2 (proj2 (Hfound
      (DeviceService "id-9" "device-sample"
         (Addressable "id-0" "device-sample" 900 "POST" "HTTP" "edge-node" 48080
            "/api/v1/callback") [] ENABLED UNLOCKED 900) _)) _).
    + apply list_elem_of_In. vm_compute. do 4 right. left. reflexivity.
    + vm_compute. reflexivity.
Defined.

(** C2: the code breaks the claim when metadata holds an addressable under
    the name of the service but no device service. The branch that finds
    a device service compares its addressable with the configured port and
    the resolved host and updates it; the branch that finds only the
    addressable does not: bring-up succeeds, the device service is created
    on the addressable found, and metadata goes on recording port 48080
    for a service configured on port 49990. *)
Lemma startConfigured_stale_addressable :
  let s := sample_state (sample_service None None) stale_metadata in
  let s' := (run (startConfigured calm_env (Some sample_toml)) s).2 in
  st_err s' = EDGEX_OK
  ∧ si_port (cfg_service (svc_config (st_svc s))) = 49990
  ∧ addr_port <$> md_service_addressable (st_metadata s') "device-sample"
    = Some 48080.
Proof. repeat split; vm_compute; reflexivity. Qed.

(** * Posting readings *)

(** C5: a call of [devsdk_post_readings] puts at most one work item on the
    worker pool. When the device map has no device of the name given, or the
    profile of the device has no command for the resource named, the call
    logs an error, enqueues nothing and leaves the error state alone. When
    the device is found, its handle is released right after the command has
    been looked up on its profile, before anything else is done. *)
Theorem devsdk_post_readings_at_most_one env devname resname values s :
  ∃ s' tr,
    run (devsdk_post_readings env devname resname values) s = (tt, s')
    ∧ st_trace s' = st_trace s ++ tr
    ∧ st_err s' = st_err s
    ∧ (count is_add_work tr ≤ 1)%nat
    ∧ match svc_devices (st_svc s) !! devname with
      | None =>
          tr = [Ev_devmap_device_byname devname;
                Ev_log LOG_ERROR "Post readings: no such device %s" [devname]]
      | Some dev =>
          ∃ rest,
            tr = [Ev_devmap_device_byname devname;
                  Ev_deviceprofile_findcommand resname (prof_name (dev_profile dev));
                  Ev_device_release (dev_name dev)] ++ rest
            ∧ (find_command resname (dev_profile dev) true = None →
               rest = [Ev_log LOG_ERROR "Post readings: no such resource %s"
                         [resname]])
      end.
Proof.
  destruct (run (devsdk_post_readings env devname resname values) s)
    as [u s'] eqn:H.
  destruct u. exists s'. unfold devsdk_post_readings in H. exec_in H.
  all: eexists; split; [reflexivity|].
  all: split; [repeat rewrite <- app_assoc; reflexivity|].
  all: split; [reflexivity|].
  all: split; [unfold count; simpl; lia|].
  all: try reflexivity.
  all: eexists; split; [reflexivity|]; intros; first [congruence | reflexivity].
Qed.

Lemma devsdk_post_readings_at_most_one_witness :
  let s := sample_state (sample_service None None) empty_metadata in
  ∃ s' tr,
    run (devsdk_post_readings calm_env "probe" "pressure" (CommandResult ["3"])) s
    = (tt, s')
    ∧ st_trace s' = st_trace s ++ tr
    ∧ (count is_add_work tr ≤ 1)%nat.
Proof.
  intros s.
  destruct (devsdk_post_readings_at_most_one calm_env "probe" "pressure"
              (CommandResult ["3"]) s) as (s' & tr & Hrun & Htr & _ & Hcount & _).
  exists s', tr. split; [exact Hrun | split; [exact Htr | exact Hcount]].
Defined.

(** The readings of a known resource of a known device are posted. *)
Example devsdk_post_readings_sample :
  let s := sample_state (sample_service None None) empty_metadata in
  st_trace (run (devsdk_post_readings calm_env "probe" "temperature"
                   (CommandResult ["21"])) s).2
  = [Ev_devmap_device_byname "probe";
     Ev_deviceprofile_findcommand "temperature" "thermometer";
     Ev_device_release "probe";
     Ev_data_process_event "probe" (CmdInfo "temperature" true) true;
     Ev_threadpool_add_work (PostParams (CookedEvent "reading"))]
  ∧ st_trace (run (devsdk_post_readings calm_env "ghost" "r"
                     (CommandResult ["21"])) s).2
    = [Ev_devmap_device_byname "ghost";
       Ev_log LOG_ERROR "Post readings: no such device %s" ["ghost"]].
Proof. split; vm_compute; reflexivity. Qed.

(** * Stopping the service *)

(** C6 (as amended): [devsdk_service_stop] never returns early: whatever
    the outcome of the steps, it carries out every step of the shutdown, in
    this order: the opening log entry, the stop of the scheduler if there
    is one, the destruction of the HTTP server if there is one, the stop
    callback of the driver, the clearing of the device map, the
    deregistration from the registry if one is in use, the release of the
    scheduler, the wait for the thread pool, and the closing log entry;
    the flag that stops the configuration updates is raised if there is
    one, and nothing else of the service changes. A failure of the
    deregistration is logged, right after it, and it is reported: the error
    out-parameter holds the outcome of the deregistration when a registry is
    in use, and success when none is. *)
Theorem devsdk_service_stop_runs_to_end env force s :
  let svc := st_svc s in
  let h := st_trace s ++ shutdown_begin force svc in
  let e := env_registry_deregister_service env h in
  ∃ s',
    run (devsdk_service_stop env force) s = (tt, s')
    ∧ st_trace s' = h ++ shutdown_registry e svc ++ shutdown_end
    ∧ st_err s' = match svc_registry svc with Some _ => e | None => EDGEX_OK end
    ∧ st_svc s' =
      with_devices ∅
        (match svc_stopconfig svc with
         | Some _ => with_stopconfig (Some true) svc
         | None => svc
         end)
    ∧ st_metadata s' = st_metadata s.
Proof.
  intros svc h e. subst svc h e.
  destruct (run (devsdk_service_stop env force) s) as [u s'] eqn:H.
  destruct u. exists s'. split; [reflexivity|].
  unfold devsdk_service_stop in H. unfold shutdown_begin, shutdown_registry, shutdown_end.
  exec_in H.
  all: repeat match goal with
         | Hc : bool_decide (is_Some _) = true |- _ =>
             apply bool_decide_eq_true in Hc as [? Hc]
         | Hc : bool_decide (is_Some _) = false |- _ =>
             apply bool_decide_eq_false, eq_None_not_Some in Hc
         end.
  all: repeat match goal with
         | Hc : svc_scheduler _ = _ |- _ => rewrite Hc; clear Hc
         | Hc : svc_daemon _ = _ |- _ => rewrite Hc; clear Hc
         | Hc : svc_registry _ = _ |- _ => rewrite Hc; clear Hc
         | Hc : svc_stopconfig _ = _ |- _ => rewrite Hc; clear Hc
         end.
  all: repeat rewrite <- app_assoc in *.
  all: cbn [app] in *.
  all: repeat match goal with
         | Hc : code _ = _ |- _ => rewrite Hc; clear Hc
         end.
  all: repeat split; reflexivity.
Qed.

Lemma devsdk_service_stop_runs_to_end_witness :
  let s := sample_state
             (sample_service (Some "consul://registry:8500")
                (Some (Registry "consul://registry:8500")))
             empty_metadata in
  ∃ s',
    run (devsdk_service_stop calm_env true) s = (tt, s')
    ∧ st_trace s' =
      st_trace s ++
      [Ev_log LOG_DEBUG "Stop device service" []; Ev_scheduler_stop;
       Ev_driver_stop true; Ev_devmap_clear;
       Ev_registry_deregister_service (svc_name (st_svc s));
       Ev_scheduler_free; Ev_threadpool_wait;
       Ev_log LOG_INFO "Stopped device service" []]
    ∧ st_err s' = EDGEX_OK.
Proof.
  intros s.
  destruct (devsdk_service_stop_runs_to_end calm_env true s)
    as (s' & Hrun & Htr & Herr & _).
  exists s'. split; [exact Hrun|]. split; [exact Htr | exact Herr].
Defined.

(** C6, as stated, fails when the deregistration fails: the error it
    reports is what the out-parameter holds when [devsdk_service_stop]
    returns, so that the code is not 0. *)
Lemma devsdk_service_stop_reports_deregistration_failure :
  let env := sample_env (λ _, None) (λ _, true) [] EDGEX_OK
               (EDGEX_ERROR "registry unreachable") true in
  let s := sample_state
             (sample_service (Some "consul://registry:8500")
                (Some (Registry "consul://registry:8500")))
             empty_metadata in
  let s' := (run (devsdk_service_stop env false) s).2 in
  st_err s' = EDGEX_ERROR "registry unreachable" ∧ code (st_err s') = true.
Proof. split; vm_compute; reflexivity. Qed.

(** * Starting the service *)

(** Membership in an explicit list, case by case. *)
Ltac elem_cases H :=
  repeat (apply elem_of_cons in H as [H|H];
          [try discriminate H; try (injection H as ?; subst) |]);
  try (by apply elem_of_nil in H).

Ltac elem_split H :=
  repeat match type of H with
    | _ ∈ _ ++ _ => apply elem_of_app in H as [H|H]
    end.

Lemma same_names_refl s : same_names s s.
Proof. by unfold same_names. Qed.

Lemma same_names_trans s1 s2 s3 :
  same_names s1 s2 → same_names s2 s3 → same_names s1 s3.
Proof. unfold same_names. intros (-> & -> & ->) (-> & -> & ->). done. Qed.

(** ** Locating the registry *)

Lemma start_find_registry_spec env s f s' :
  start_find_registry env s = (f, s') →
  ∃ tr, st_trace s' = st_trace s ++ tr
    ∧ forallb phase_find tr = true
    ∧ same_names s s'
    ∧ st_metadata s' = st_metadata s
    ∧ (∀ u, Ev_registry_get_registry u ∈ tr →
         svc_registry (st_svc s') = env_registry_get_registry env u)
    ∧ match f with
      | Return _ =>
          code (st_err s') = true
          ∧ ∀ u, Ev_registry_get_registry u ∈ tr →
                 env_registry_get_registry env u = None
      | Next config =>
          (List.filter is_loadConfig tr = [] ∧ config = None)
          ∨ (List.filter is_loadConfig tr =
               [Ev_loadConfig (svc_confdir (st_svc s)) (svc_profile (st_svc s)) config]
             ∧ ∃ h, config = (env_loadConfig env h (svc_confdir (st_svc s))
                                (svc_profile (st_svc s))).2)
      end.
Proof.
  unfold start_find_registry. intros H. exec_in H.
  all: eexists; split; [repeat rewrite <- app_assoc; reflexivity || (symmetry; apply app_nil_r)|].
  all: split; [reflexivity|].
  all: split; [done|].
  all: split; [reflexivity|].
  all: split; [intros u Hu; elem_cases Hu; done|].
  all: try (split; [first [assumption | reflexivity] | intros u Hu; elem_cases Hu; done]).
  all: try (by left).
  all: right; split; [reflexivity | by eexists].
Qed.

(** ** Waiting for the registry *)

(** What the wait for the registry does, whatever the registry answers:
    pings and sleeps only, and a counter that stays above 0 unless the last
    ping failed. *)
Lemma registry_ping_loop_spec env d k s f s' :
  registry_ping_loop env d k s = (f, s') →
  ∃ tr retries,
    f = Next retries
    ∧ st_trace s' = st_trace s ++ tr
    ∧ forallb is_ping_or_sleep tr = true
    ∧ st_svc s' = st_svc s ∧ st_metadata s' = st_metadata s.
Proof.
  revert s f s'. induction k as [|k IH]; intros s f s'; simpl; intros H.
  - exec_in H; eexists _, _; (split; [reflexivity|]);
      (split; [reflexivity|]); done.
  - exec_red_in H.
    destruct (env_registry_ping env (st_trace s)).1 eqn:Hp.
    + exec_in H. eexists _, _. split; [reflexivity|]. split; [reflexivity|]. done.
    + apply IH in H as (tr & r & -> & Htr & Hall & Hsvc & Hmd).
      cbn [st_svc st_err st_trace st_metadata] in *.
      exists (Ev_registry_ping :: Ev_nanosleep d :: tr), r.
      split; [done|]. split; [by rewrite Htr, <- !app_assoc|].
      split; [done|]. done.
Qed.

(** When no ping is answered, the registry is pinged [k + 1] times, with a
    sleep of [d] between one ping and the next, and the counter ends at 0. *)
Lemma registry_ping_loop_unanswered env d k s :
  (∀ h, (env_registry_ping env h).1 = false) →
  ∃ s',
    registry_ping_loop env d k s = (Next 0, s')
    ∧ st_trace s' =
      st_trace s ++
      Ev_registry_ping :: concat (replicate k [Ev_nanosleep d; Ev_registry_ping])
    ∧ st_svc s' = st_svc s ∧ st_metadata s' = st_metadata s.
Proof.
  intros Hdown. revert s. induction k as [|k IH]; intros s; simpl.
  - exec_red. rewrite Hdown. eexists. split; [reflexivity|]. done.
  - exec_red. rewrite Hdown.
    match goal with |- ∃ s', registry_ping_loop _ _ _ ?s1 = _ ∧ _ =>
      destruct (IH s1) as (s' & Hrun & Htr & Hsvc & Hmd)
    end.
    cbn [st_svc st_err st_trace st_metadata] in *.
    exists s'. split; [done|]. split; [|done].
    rewrite Htr, <- !app_assoc. reflexivity.
Qed.

Lemma registry_retries_positive env : 0 < registry_retries env.
Proof.
  unfold registry_retries. destruct (env_getenv env _) as [errc|]; [|lia].
  cbv zeta. destruct (Z.ltb_spec 0 (atoi errc)); lia.
Qed.

(** The registry does not answer: [devsdk_service_start] gives up with
    [EDGEX_REMOTE_SERVER_DOWN]. *)
Lemma start_registry_config_unanswered env s :
  (∀ h, (env_registry_ping env h).1 = false) →
  ∃ s',
    start_registry_config env s = (Return tt, s')
    ∧ st_err s' = EDGEX_REMOTE_SERVER_DOWN
    ∧ st_trace s' =
      st_trace s ++
      (Ev_registry_ping ::
       concat (replicate (Z.to_nat (registry_retries env - 1))
                 [Ev_nanosleep (registry_delay env); Ev_registry_ping])) ++
      [Ev_log LOG_ERROR "registry service not running at %s"
         [default "" (svc_regURL (st_svc s))]].
Proof.
  intros Hdown. unfold start_registry_config.
  destruct (registry_ping_loop_unanswered env (registry_delay env)
              (Z.to_nat (registry_retries env - 1)) s Hdown)
    as (s1 & Hloop & Htr & Hsvc & Hmd).
  unfold get_svc, bind at 1. cbv beta iota.
  unfold bind at 1. rewrite Hloop. exec_red.
  eexists. split; [reflexivity|]. cbn [st_err st_trace].
  split; [reflexivity|]. by rewrite Htr, <- app_assoc.
Qed.

Lemma filter_all_of_forallb (p : event → bool) (l : list event) :
  forallb p l = true → List.filter p l = l.
Proof.
  induction l as [|e l IH]; simpl; [done|].
  intros [-> Hl]%andb_true_iff. by rewrite IH.
Qed.

Lemma count_app (a : event → bool) (l1 l2 : list event) :
  count a (l1 ++ l2) = (count a l1 + count a l2)%nat.
Proof. unfold count. by rewrite List.filter_app, length_app. Qed.

Lemma count_zero_of_forallb (P a : event → bool) (l : list event) :
  forallb P l = true → (∀ e, P e = true → a e = false) → count a l = 0%nat.
Proof. intros. unfold count. by erewrite filter_nil_of_forallb. Qed.

Lemma forallb_impl (P Q : event → bool) (l : list event) :
  forallb P l = true → (∀ e, P e = true → Q e = true) → forallb Q l = true.
Proof.
  rewrite !forallb_forall. auto.
Qed.

(** [k] rounds of sleeping and pinging again. *)
Lemma rounds_ping_or_sleep d k :
  forallb is_ping_or_sleep
    (Ev_registry_ping :: concat (replicate k [Ev_nanosleep d; Ev_registry_ping]))
  = true.
Proof. induction k as [|k IH]; simpl; done. Qed.

Lemma rounds_count_ping d k :
  count is_registry_ping
    (Ev_registry_ping :: concat (replicate k [Ev_nanosleep d; Ev_registry_ping]))
  = S k.
Proof.
  induction k as [|k IH]; [done|].
  unfold count in *. simpl in *. by rewrite IH.
Qed.

Lemma rounds_count_sleep d k :
  count is_nanosleep
    (Ev_registry_ping :: concat (replicate k [Ev_nanosleep d; Ev_registry_ping]))
  = k.
Proof.
  induction k as [|k IH]; [done|].
  unfold count in *. simpl in *. by rewrite IH.
Qed.

(** ** Reading the registry, reading the file *)

Lemma start_registry_config_spec env s f s' :
  start_registry_config env s = (f, s') →
  ∃ tr, st_trace s' = st_trace s ++ tr
    ∧ forallb phase_registry tr = true
    ∧ same_names s s'
    ∧ st_metadata s' = st_metadata s
    ∧ svc_registry (st_svc s') = svc_registry (st_svc s)
    ∧ match f with
      | Return _ =>
          Ev_registry_get_config (svc_name (st_svc s)) (svc_profile (st_svc s)) []
          ∉ tr
      | Next uc =>
          ∃ found,
            List.filter is_get_config tr =
              [Ev_registry_get_config (svc_name (st_svc s))
                 (svc_profile (st_svc s)) found]
            ∧ uc = (match found with [] => true | _ => false end, found)
      end.
Proof.
  unfold start_registry_config. intros H.
  apply bind_inv in H as [(r & [=] & _) | (svc & s0 & [= <- <-] & H)].
  apply bind_inv in H as [(r & Hloop & _) | (retries & s1 & Hloop & H)];
    apply registry_ping_loop_spec in Hloop
      as (trL & r' & Hr & HtrL & HallL & Hsvc & Hmd); [done|].
  assert (List.filter is_get_config trL = []) as HgL
    by (apply (filter_nil_of_forallb _ _ _ HallL); by intros []).
  assert (forallb phase_registry trL = true) as HallL'
    by (apply (forallb_impl _ _ _ HallL); by intros []).
  exec_in H.
  all: rewrite ?Hsvc, ?Hmd.
  all: eexists; split; [trace_eq|].
  all: split; [by rewrite ?forallb_app, HallL'|].
  all: split; [done|].
  all: split; [done|].
  all: split; [done|].
  all: try (eexists; split;
            [rewrite ?List.filter_app, HgL; reflexivity | reflexivity]).
  all: intros Hin; elem_split Hin;
    first [ apply list_elem_of_In in Hin; rewrite forallb_forall in HallL;
            by apply HallL in Hin
          | elem_cases Hin; congruence ].
Qed.

Lemma start_file_config_spec env config u c s f s' :
  start_file_config env config u c s = (f, s') →
  ∃ tr, st_trace s' = st_trace s ++ tr
    ∧ forallb phase_file tr = true
    ∧ same_names s s'
    ∧ st_metadata s' = st_metadata s
    ∧ svc_registry (st_svc s') = svc_registry (st_svc s)
    ∧ (u = false → List.filter is_put_config tr = [])
    ∧ (u = true → config_file_loads env →
       ∃ cfg result,
         tr = match config with
              | None => [Ev_loadConfig (svc_confdir (st_svc s))
                           (svc_profile (st_svc s)) (Some cfg)]
              | Some _ => []
              end ++
              [Ev_populateConfig (edgex_device_parseToml (Some cfg));
               Ev_log LOG_INFO "Uploading configuration to registry." [];
               Ev_overrideConfig (edgex_device_parseToml (Some cfg));
               Ev_registry_put_config (svc_name (st_svc s)) (svc_profile (st_svc s))
                 (env_overrideConfig env (svc_name (st_svc s))
                    (edgex_device_parseToml (Some cfg))) result] ++
              (if code result
               then [Ev_log LOG_ERROR "Unable to upload config: %s" []; Ev_toml_free]
               else [])
         ∧ (∀ c0, config = Some c0 → cfg = c0)
         ∧ st_err s' = result
         ∧ match f with
           | Return _ => code result = true
           | Next _ => code result = false
           end).
Proof.
  unfold start_file_config. intros H.
  destruct u.
  - (* the configuration goes to the registry *)
    cbn [orb] in H. destruct config as [c0|].
    + exec_in H.
      all: eexists; split; [trace_eq|].
      all: split; [reflexivity|].
      all: split; [done|]; split; [done|]; split; [done|]; split; [done|].
      all: intros _ _; exists c0; eexists.
      all: match goal with Hc : code _ = _ |- _ => rewrite Hc end.
      all: split; [reflexivity|]; split; [by intros ? [= <-]|]; done.
    + exec_red_in H.
      destruct (code (env_loadConfig env (st_trace s) (svc_confdir (st_svc s))
                        (svc_profile (st_svc s))).1) eqn:Hload.
      * exec_in H. eexists. split; [reflexivity|]. split; [reflexivity|].
        split; [done|]; split; [done|]; split; [done|]; split; [done|].
        intros _ Hloads.
        destruct (Hloads (st_trace s) (svc_confdir (st_svc s)) (svc_profile (st_svc s)))
          as [cfg Hcfg]. rewrite Hcfg in Hload. done.
      * exec_in H.
        all: eexists; split; [trace_eq|].
        all: split; [reflexivity|].
        all: split; [done|]; split; [done|]; split; [done|]; split; [done|].
        all: intros _ Hloads.
        all: destruct (Hloads (st_trace s) (svc_confdir (st_svc s))
                         (svc_profile (st_svc s))) as [cfg Hcfg].
        all: rewrite Hcfg in *; cbn [fst snd] in *.
        all: exists cfg; eexists.
        all: match goal with Hc : code (env_registry_put_config _ _) = _ |- _ =>
               rewrite Hc end.
        all: split; [reflexivity|]; split; [by intros ? [=]|]; done.
  - cbn [orb] in H. exec_in H.
    all: eexists; split;
      [repeat rewrite <- app_assoc; reflexivity || (symmetry; apply app_nil_r)|].
    all: split; [reflexivity|].
    all: split; [done|]; split; [done|]; split; [done|]; split; [done|].
    all: intros [=].
Qed.
(** ** From the endpoints on *)

Lemma run_of_raw {R} (m : M R R) s f s' :
  m s = (f, s') → run m s = (match f with Return r | Next r => r end, s').
Proof. unfold run. by intros ->; destruct f. Qed.

Lemma ping_client_alphabet env sname ep n d s f s' :
  ping_client env sname ep n d s = (f, s') →
  ∃ tr, st_trace s' = st_trace s ++ tr ∧ forallb phase_tail tr = true.
Proof.
  intros H%run_of_raw. apply ping_client_spec in H as ((tr & Hq & _) & _).
  exists tr. destruct Hq as (Htr & _ & _ & _ & _ & Hall). split; [done|].
  apply (forallb_impl _ _ _ Hall). by intros [].
Qed.

Lemma startConfigured_alphabet env config s f s' :
  startConfigured env config s = (f, s') →
  ∃ tr, st_trace s' = st_trace s ++ tr ∧ forallb phase_tail tr = true.
Proof.
  intros H%run_of_raw. destruct f as [[]|[]].
  all: apply startConfigured_spec in H
         as (tr1 & tr2 & tr3 & Htr & Hall13 & Hall2 & _).
  all: exists (tr1 ++ tr2 ++ tr3); split; [done|].
  all: rewrite forallb_app in Hall13; apply andb_true_iff in Hall13 as [Hall1 Hall3].
  all: rewrite !forallb_app.
  all: rewrite (forallb_impl _ _ _ Hall1), (forallb_impl _ _ _ Hall2),
         (forallb_impl _ _ _ Hall3); [done | by intros []..].
Qed.

Lemma log_confpairs_spec (l : devsdk_nvpairs) s f s' :
  log_confpairs l s = (f, s') →
  ∃ tr, f = Next tt ∧ st_trace s' = st_trace s ++ tr
        ∧ forallb phase_tail tr = true.
Proof.
  revert s. induction l as [|p l IH]; intros s; simpl; intros H.
  - exec_in H. exists []. split; [done|]. split; [by rewrite app_nil_r | done].
  - exec_red_in H. apply IH in H as (tr & -> & Htr & Hall).
    cbn [st_trace] in Htr. eexists. split; [done|]. split; [trace_eq|].
    rewrite forallb_app. simpl. done.
Qed.

Lemma start_endpoints_and_logging_spec env config s f s' :
  start_endpoints_and_logging env config s = (f, s') →
  ∃ tr, st_trace s' = st_trace s ++ tr
    ∧ forallb phase_tail tr = true
    ∧ (is_Some (svc_registry (st_svc s)) →
       ∃ rest, tr = Ev_registry_query_service "edgex-core-metadata" :: rest).
Proof.
  unfold start_endpoints_and_logging. intros H. exec_in H.
  all: repeat match goal with
         | Hp : ping_client _ _ _ _ _ _ = _ |- _ =>
             apply ping_client_alphabet in Hp as (trP & HtrP & HallP);
             cbn [st_trace] in HtrP
         end.
  all: eexists; split; [trace_eq|].
  all: split; [by rewrite ?forallb_app, ?HallP|].
  all: try (intros _; eexists; reflexivity).
  all: by intros [? [=]].
Qed.

Lemma start_bringup_spec env config confpairs s f s' :
  start_bringup env config confpairs s = (f, s') →
  ∃ tr, st_trace s' = st_trace s ++ tr ∧ forallb phase_tail tr = true.
Proof.
  unfold start_bringup. intros H. exec_in H.
  all: repeat match goal with
         | Hl : log_confpairs _ _ = _ |- _ =>
             apply log_confpairs_spec in Hl as (trL & HfL & HtrL & HallL);
             cbn [st_trace] in HtrL; try discriminate HfL
         | Hc : startConfigured _ _ _ = _ |- _ =>
             apply startConfigured_alphabet in Hc as (trS & HtrS & HallS);
             cbn [st_trace] in HtrS
         end.
  all: eexists; split; [trace_eq|].
  all: by rewrite ?forallb_app, ?HallL, ?HallS.
Qed.

(** ** The course of [devsdk_service_start] *)

Lemma devsdk_service_start_inv env s s' :
  run (devsdk_service_start env) s = (tt, s') →
  ∃ s0 fA sA,
    st_trace s0 = st_trace s ++ [Ev_iot_init; Ev_threadpool_start]
    ∧ same_names s s0
    ∧ start_find_registry env s0 = (fA, sA)
    ∧ match fA with
      | Return _ => s' = sA
      | Next config =>
          ∃ fB sB,
            match svc_registry (st_svc sA) with
            | Some _ => start_registry_config env sA
            | None => (Next (false, []), sA)
            end = (fB, sB)
            ∧ match fB with
              | Return _ => s' = sB
              | Next uc =>
                  ∃ fC sC,
                    start_file_config env config uc.1 uc.2 sB = (fC, sC)
                    ∧ match fC with
                      | Return _ => s' = sC
                      | Next cc =>
                          ∃ trD,
                            st_trace s' = st_trace sC ++ trD
                            ∧ forallb phase_tail trD = true
                            ∧ (is_Some (svc_registry (st_svc sC)) →
                               ∃ rest,
                                 trD = Ev_registry_query_service
                                         "edgex-core-metadata" :: rest)
                      end
              end
      end.
Proof.
  intros H. apply run_inv in H as (f & H & _).
  unfold devsdk_service_start in H.
  apply bind_inv in H as [(r & [=] & _) | (now & s1 & [= <- <-] & H)].
  apply bind_inv in H as [(r & [=] & _) | ([] & s1 & [= <-] & H)].
  apply bind_inv in H as [(r & [=] & _) | ([] & s2 & [= <-] & H)].
  apply bind_inv in H as [(r & [=] & _) | ([] & s3 & [= <-] & H)].
  apply bind_inv in H as [(r & [=] & _) | ([] & s4 & [= <-] & H)].
  cbn [st_svc st_err st_trace st_metadata] in H.
  match type of H with bind _ _ ?x = _ => set (s0 := x) in * end.
  destruct (start_find_registry env s0) as [fA sA0] eqn:HA.
  exists s0, fA, sA0. split; [subst s0; cbn [st_trace]; by rewrite <- app_assoc|].
  split; [done|]. split; [done|].
  apply bind_inv in H as [([] & HA' & ->) | (config & sA & HA' & H)];
    rewrite HA in HA'; injection HA' as -> ->; [done|].
  apply bind_inv in H as [(r & [=] & _) | (svc & sA' & [= <- <-] & H)].
  apply bind_inv in H as [([] & HB & ->) | (uc & sB & HB & H)].
  { exists (Return tt), s'. split; [|done].
    destruct (svc_registry (st_svc sA)); [exact HB | discriminate HB]. }
  exists (Next uc), sB. split.
  { destruct (svc_registry (st_svc sA)); [exact HB|].
    by injection HB as <- <-. }
  apply bind_inv in H as [([] & HC & ->) | (cc & sC & HC & H)].
  { by exists (Return tt), s'. }
  exists (Next cc), sC. split; [done|].
  apply bind_inv in H as [([] & HD & ->) | ([] & sD & HD & H)];
    apply start_endpoints_and_logging_spec in HD as (tr1 & Htr1 & Hall1 & Hq).
  { by exists tr1. }
  apply start_bringup_spec in H as (tr2 & Htr2 & Hall2).
  exists (tr1 ++ tr2). split; [by rewrite Htr2, Htr1, app_assoc|].
  split; [by rewrite forallb_app, Hall1, Hall2|].
  intros Hreg. destruct (Hq Hreg) as [rest ->]. by eexists.
Qed.




(** ** The first run against a registry *)

Lemma not_elem_of_alphabet (P : event → bool) (l : list event) (e : event) :
  forallb P l = true → P e = false → e ∉ l.
Proof.
  intros Hall He Hin. apply list_elem_of_In in Hin.
  rewrite forallb_forall in Hall. apply Hall in Hin. congruence.
Qed.



(** * Further properties of the lists *)

Section ListEqualMore.
Context {T : Type}.
Variable NAMEFIELD : T → string.
Variable CMPFUNC : T → T → bool.

(** The comparison made by the macro: the two counters agree, and every node
    of the first list is matched by the first node of the second list that
    has its key. *)
Lemma list_equal_true (l1 l2 : list T) :
  list_equal NAMEFIELD CMPFUNC l1 l2 = true ↔
  Z.of_nat (length l1) mod UINT_MODULUS = Z.of_nat (length l2) mod UINT_MODULUS
  ∧ ∀ x, x ∈ l1 →
      ∃ y, find_same_name NAMEFIELD x l2 = Some y ∧ CMPFUNC x y = true.
Proof.
  unfold list_equal.
  rewrite !count_nodes_spec by (unfold UINT_MODULUS; lia).
  rewrite !Z.add_0_l.
  destruct (Z.eqb_spec (Z.of_nat (length l1) mod UINT_MODULUS)
              (Z.of_nat (length l2) mod UINT_MODULUS)) as [E|E]; simpl.
  - rewrite list_equal_loop_true. tauto.
  - split; [done | tauto].
Qed.

(** With distinct keys a list is equal to each of its permutations, if the
    comparison of nodes holds of a node and itself. *)
Lemma Permutation_list_equal (l1 l2 : list T) :
  NoDup (NAMEFIELD <$> l1) → (∀ x, x ∈ l1 → CMPFUNC x x = true) →
  l1 ≡ₚ l2 → list_equal NAMEFIELD CMPFUNC l1 l2 = true.
Proof.
  intros Hnd Hrefl Hperm. apply list_equal_true. split.
  - by rewrite (Permutation_length Hperm).
  - intros x Hx. exists x. split; [|by apply Hrefl].
    apply (find_same_name_unique NAMEFIELD);
      [by rewrite <- Hperm | by rewrite <- Hperm | done].
Qed.

(** With distinct keys in the first list and counters that do not wrap,
    equal lists are permutations of one another, if the comparison of nodes
    holds only of nodes that are the same once their keys are. *)
Lemma list_equal_Permutation (l1 l2 : list T) :
  NoDup (NAMEFIELD <$> l1) →
  (∀ x y, NAMEFIELD x = NAMEFIELD y → CMPFUNC x y = true → x = y) →
  Z.of_nat (length l1) < UINT_MODULUS →
  Z.of_nat (length l2) < UINT_MODULUS →
  list_equal NAMEFIELD CMPFUNC l1 l2 = true → l1 ≡ₚ l2.
Proof.
  intros Hnd Hsame H1 H2 [Hlen Hloop]%list_equal_true.
  rewrite !Z.mod_small in Hlen by lia.
  apply submseteq_length_Permutation; [|lia].
  apply NoDup_submseteq; [by eapply NoDup_fmap_1|].
  intros x Hx. destruct (Hloop x Hx) as (y & Hfind & Hcmp).
  apply find_same_name_Some in Hfind as [Hy Hname].
  by rewrite (Hsame x y).
Qed.
End ListEqualMore.

Lemma protocols_properties_loop_find (x : protocol) (l : devsdk_protocols) :
  protocols_properties_loop l (prot_name x) =
  default [] (prot_properties <$> find_same_name prot_name x l).
Proof.
  induction l as [|f l IH]; simpl; [done|].
  rewrite !strcmp_eqb.
  destruct (decide (prot_name f = prot_name x)) as [E|E].
  - by rewrite !bool_decide_eq_true_2.
  - rewrite !bool_decide_eq_false_2; [done | congruence | done].
Qed.

Lemma nvpairs_equal_refl (l : devsdk_nvpairs) :
  NoDup (nv_name <$> l) → devsdk_nvpairs_equal l l = true.
Proof. intros Hnd. by apply Permutation_nvpairs_equal. Qed.

(** With distinct names, lookup in a protocol list finds the node that has
    the name, wherever it stands. *)
Lemma protocols_properties_loop_unique (l : devsdk_protocols) (x : protocol) :
  NoDup (prot_name <$> l) → x ∈ l →
  protocols_properties_loop l (prot_name x) = prot_properties x.
Proof.
  intros Hnd Hx. rewrite protocols_properties_loop_find.
  by rewrite (find_same_name_unique prot_name x x l).
Qed.

(** A name that no protocol bears gives [NULL]. *)
Lemma protocols_properties_loop_absent (l : devsdk_protocols) (n : string) :
  n ∉ prot_name <$> l → protocols_properties_loop l n = [].
Proof.
  induction l as [|f l IH]; simpl; [done|].
  rewrite strcmp_eqb, not_elem_of_cons. intros [Hf Hl].
  rewrite bool_decide_eq_false_2 by congruence. by apply IH.
Qed.

Lemma find_same_name_present (x : protocol) (l : devsdk_protocols) :
  prot_name x ∈ prot_name <$> l →
  ∃ y, find_same_name prot_name x l = Some y.
Proof.
  intros Hin.
  destruct (find_same_name prot_name x l) as [y|] eqn:E; [by exists y|].
  exfalso. apply list_elem_of_fmap in Hin as (y & Hname & Hy).
  by apply (proj1 (find_same_name_None prot_name x l) E y).
Qed.

(** X1: [devsdk_nvpairs_equal] in terms of lookup: two lists compare equal
    exactly when their node counters agree (the lengths, modulo 2^32) and
    every pair of the first list has the value that [devsdk_nvpairs_value]
    finds under its name in the second. *)
Theorem devsdk_nvpairs_equal_by_lookup (l1 l2 : devsdk_nvpairs) :
  devsdk_nvpairs_equal l1 l2 = true ↔
  Z.of_nat (length l1) mod UINT_MODULUS = Z.of_nat (length l2) mod UINT_MODULUS
  ∧ ∀ p, p ∈ l1 →
      devsdk_nvpairs_value l2 (Some (nv_name p)) = Some (nv_value p).
Proof.
  unfold devsdk_nvpairs_equal. rewrite list_equal_true.
  apply and_iff_compat_l. simpl. split.
  - intros H p Hp. destruct (H p Hp) as (y & Hfind & Hcmp).
    rewrite nvpairs_value_loop_find, Hfind. simpl.
    apply pair_equal_true in Hcmp. by rewrite Hcmp.
  - intros H p Hp. specialize (H p Hp).
    rewrite nvpairs_value_loop_find in H.
    destruct (find_same_name nv_name p l2) as [y|]; [|done].
    exists y. split; [done|]. apply pair_equal_true. simpl in H. congruence.
Qed.

(** X2: [devsdk_nvpairs_dup] keeps the order: the copy has the length of the
    original and the same pair at every position, so that every lookup and
    every typed accessor gives on the copy what it gives on the original. *)
Theorem devsdk_nvpairs_dup_in_order (p : devsdk_nvpairs) :
  length (devsdk_nvpairs_dup p) = length p
  ∧ (∀ i, devsdk_nvpairs_dup p !! i = p !! i)
  ∧ (∀ name, devsdk_nvpairs_value (devsdk_nvpairs_dup p) name
             = devsdk_nvpairs_value p name)
  ∧ (∀ name val, devsdk_nvpairs_long_value (devsdk_nvpairs_dup p) name val
                 = devsdk_nvpairs_long_value p name val)
  ∧ (∀ name val, devsdk_nvpairs_ulong_value (devsdk_nvpairs_dup p) name val
                 = devsdk_nvpairs_ulong_value p name val).
Proof. by rewrite devsdk_nvpairs_dup_id. Qed.

(** X3: a protocol added with [devsdk_protocols_new] is found again: lookup
    of its name gives the properties it was added with, whatever the list
    held under that name before; lookup of another name gives what the list
    held; and lookup of a [NULL] name gives [NULL]. *)
Theorem devsdk_protocols_new_lookup (name : string) (properties : devsdk_nvpairs)
    (l : devsdk_protocols) (m : string) :
  devsdk_protocols_properties (devsdk_protocols_new name properties l) (Some m)
  = (if decide (name = m) then properties
     else devsdk_protocols_properties l (Some m))
  ∧ devsdk_protocols_properties (devsdk_protocols_new name properties l) None = [].
Proof.
  split; [|done]. unfold devsdk_protocols_new, strdup. simpl.
  rewrite strcmp_eqb, devsdk_nvpairs_dup_id.
  destruct (decide (name = m)) as [E|E].
  - by rewrite bool_decide_eq_true_2.
  - by rewrite bool_decide_eq_false_2.
Qed.

(** X4: lookup in a copy made by [devsdk_protocols_dup] is lookup in the
    reversed original: when a protocol name occurs more than once the copy
    gives the properties of its last occurrence in the original; when the
    names are pairwise distinct the copy gives what the original gives. *)
Theorem devsdk_protocols_dup_lookup (e : devsdk_protocols) (name : option string) :
  devsdk_protocols_properties (devsdk_protocols_dup e) name
  = devsdk_protocols_properties (reverse e) name
  ∧ (NoDup (prot_name <$> e) →
     devsdk_protocols_properties (devsdk_protocols_dup e) name
     = devsdk_protocols_properties e name).
Proof.
  rewrite devsdk_protocols_dup_reverse. split; [done|].
  intros Hnd. destruct name as [n|]; [|done]. simpl.
  destruct (decide (n ∈ prot_name <$> e)) as [Hin|Hout].
  - apply list_elem_of_fmap in Hin as (x & -> & Hx).
    rewrite (protocols_properties_loop_unique e x Hnd Hx).
    apply protocols_properties_loop_unique.
    + by rewrite fmap_reverse, reverse_Permutation.
    + by rewrite elem_of_reverse.
  - rewrite (protocols_properties_loop_absent e n Hout).
    apply protocols_properties_loop_absent.
    by rewrite fmap_reverse, elem_of_reverse.
Qed.

Lemma devsdk_protocols_dup_lookup_witness :
  let e := [Protocol "modbus" [NVPair "Address" "7"];
            Protocol "other" [NVPair "Port" "502"]] in
  devsdk_protocols_properties (devsdk_protocols_dup e) (Some "other")
  = devsdk_protocols_properties e (Some "other").
Proof.
  intros e.
  apply (proj2 (devsdk_protocols_dup_lookup e (Some "other"))).
  apply (bool_decide_unpack _). vm_compute. exact I.
Defined.

(** X5: [devsdk_protocols_equal] in terms of lookup: two protocol lists
    compare equal exactly when their node counters agree (the lengths,
    modulo 2^32) and every protocol of the first list has its name borne
    by a protocol of the second, where [devsdk_protocols_properties] finds
    under that name properties that [devsdk_nvpairs_equal] holds equal to
    its own. The presence of the name is a condition of its own: the lookup
    gives [NULL] for a name that is absent as for a protocol without
    properties. *)
Theorem devsdk_protocols_equal_by_lookup (l1 l2 : devsdk_protocols) :
  devsdk_protocols_equal l1 l2 = true ↔
  Z.of_nat (length l1) mod UINT_MODULUS = Z.of_nat (length l2) mod UINT_MODULUS
  ∧ ∀ p, p ∈ l1 →
      prot_name p ∈ prot_name <$> l2
      ∧ devsdk_nvpairs_equal (prot_properties p)
          (devsdk_protocols_properties l2 (Some (prot_name p))) = true.
Proof.
  unfold devsdk_protocols_equal. rewrite list_equal_true.
  apply and_iff_compat_l. simpl. split.
  - intros H p Hp. destruct (H p Hp) as (y & Hfind & Hcmp).
    rewrite protocols_properties_loop_find, Hfind. simpl. split; [|done].
    apply find_same_name_Some in Hfind as [Hy ->].
    apply list_elem_of_fmap. by exists y.
  - intros H p Hp. destruct (H p Hp) as (Hin & Hcmp).
    destruct (find_same_name_present p l2 Hin) as (y & Hfind).
    rewrite protocols_properties_loop_find, Hfind in Hcmp.
    exists y. split; [done|]. exact Hcmp.
Qed.

(** X6: the copy made by [devsdk_protocols_dup], although reversed, compares
    equal to the original under [devsdk_protocols_equal], whatever the
    length, when the protocol names are pairwise distinct and so are the
    names within the properties of each protocol. *)
Theorem devsdk_protocols_equal_dup (e : devsdk_protocols) :
  NoDup (prot_name <$> e) →
  (∀ p, p ∈ e → NoDup (nv_name <$> prot_properties p)) →
  devsdk_protocols_equal (devsdk_protocols_dup e) e = true
  ∧ devsdk_protocols_equal e (devsdk_protocols_dup e) = true.
Proof.
  intros Hnd Hprops. rewrite devsdk_protocols_dup_reverse.
  unfold devsdk_protocols_equal. split.
  - apply Permutation_list_equal.
    + by rewrite fmap_reverse, reverse_Permutation.
    + intros x Hx. rewrite elem_of_reverse in Hx. unfold protocol_equal.
      by apply nvpairs_equal_refl, Hprops.
    + apply reverse_Permutation.
  - apply Permutation_list_equal; [done | |by rewrite reverse_Permutation].
    intros x Hx. unfold protocol_equal. by apply nvpairs_equal_refl, Hprops.
Qed.

Lemma devsdk_protocols_equal_dup_witness :
  let e := [Protocol "modbus" [NVPair "Address" "7"; NVPair "Port" "502"];
            Protocol "other" []] in
  devsdk_protocols_equal (devsdk_protocols_dup e) e = true.
Proof.
  intros e. apply (devsdk_protocols_equal_dup e).
  - apply (bool_decide_unpack _). vm_compute. exact I.
  - intros p Hp. apply list_elem_of_In in Hp.
    destruct Hp as [<- | [<- | []]];
      apply (bool_decide_unpack _); vm_compute; exact I.
Defined.

Lemma autoevent_equal_true (x y : edgex_device_autoevents) :
  autoevent_equal x y = true ↔
  ae_frequency x = ae_frequency y ∧ ae_onChange x = ae_onChange y.
Proof.
  unfold autoevent_equal.
  rewrite andb_true_iff, strcmp_eqb, bool_decide_eq_true, Bool.eqb_true_iff.
  done.
Qed.

(** X7: on lists of fewer than 2^32 auto-events of which the first has
    pairwise distinct resources, [edgex_device_autoevents_equal] holds
    exactly of the permutations, an auto-event being taken by the three
    fields that the comparison reads: the order is immaterial, and a
    resource missing on either side, a different frequency or a different
    [onChange] flag makes the lists unequal. *)
Theorem edgex_device_autoevents_equal_Permutation
    (l1 l2 : list edgex_device_autoevents) :
  NoDup (ae_resource <$> l1) →
  Z.of_nat (length l1) < UINT_MODULUS →
  Z.of_nat (length l2) < UINT_MODULUS →
  edgex_device_autoevents_equal l1 l2 = true ↔ l1 ≡ₚ l2.
Proof.
  intros Hnd H1 H2. unfold edgex_device_autoevents_equal. split.
  - apply list_equal_Permutation; [done | | done | done].
    intros [r f c] [r' f' c'] Hr [Hf Hc]%autoevent_equal_true.
    simpl in *. congruence.
  - apply Permutation_list_equal; [done|].
    intros x _. by apply autoevent_equal_true.
Qed.

Lemma edgex_device_autoevents_equal_Permutation_witness :
  let l1 := [AutoEvent "temperature" "10s" true; AutoEvent "humidity" "1m" false] in
  let l2 := [AutoEvent "humidity" "1m" false; AutoEvent "temperature" "10s" true] in
  edgex_device_autoevents_equal l1 l2 = true ↔ l1 ≡ₚ l2.
Proof.
  intros l1 l2. apply (edgex_device_autoevents_equal_Permutation l1 l2).
  - apply (bool_decide_unpack _). vm_compute. exact I.
  - vm_compute. reflexivity.
  - vm_compute. reflexivity.
Defined.

(** * The typed accessors compared *)

(** X8: whatever the signed accessor reads, the unsigned accessor reads too:
    when [devsdk_nvpairs_long_value] succeeds with a number, which lies
    between [LONG_MIN] and [LONG_MAX], [devsdk_nvpairs_ulong_value] succeeds
    on the same list and name, with that number modulo 2^64; so the
    unsigned accessor takes a value with a minus sign. *)
Theorem devsdk_nvpairs_ulong_value_of_long (nvp : devsdk_nvpairs)
    (name : option string) (val l : Z) :
  devsdk_nvpairs_long_value nvp name val = (true, l) →
  LONG_MIN ≤ l ≤ LONG_MAX
  ∧ ∀ uval, devsdk_nvpairs_ulong_value nvp name uval
            = (true, l mod (ULONG_MAX + 1)).
Proof.
  unfold devsdk_nvpairs_long_value, devsdk_nvpairs_ulong_value.
  destruct (nonempty (devsdk_nvpairs_value nvp name)); [|done].
  unfold strtol, strtoul.
  destruct (scan_sign _) as [neg s].
  destruct (scan_number 0 s) as [[v any] rest] eqn:Hscan.
  pose proof (scan_number_nonneg _ _ _ _ Hscan) as Hv.
  destruct any.
  - unfold LONG_MIN, LONG_MAX, ULONG_MAX in *.
    destruct (Z.ltb_spec (if neg then - v else v) (- 2 ^ 63)); [done|].
    destruct (Z.ltb_spec (2 ^ 63 - 1) (if neg then - v else v)); [done|].
    simpl (0 =? 0). cbv iota.
    destruct (at_end rest) eqn:Hend; simpl; [|done].
    intros [= <-]. split; [lia|]. intros uval.
    destruct (Z.ltb_spec (2 ^ 64 - 1) v) as [Hbig|Hsmall].
    + destruct neg; lia.
    + simpl. rewrite Hend. simpl. f_equal.
      destruct neg; [done|]. rewrite Z.mod_small; lia.
  - simpl (0 =? 0). cbv iota.
    destruct (at_end _) eqn:Hend; simpl; [|done].
    intros [= <-]. split; [unfold LONG_MIN, LONG_MAX; lia|].
    intros uval. done.
Qed.

Lemma devsdk_nvpairs_ulong_value_of_long_witness :
  devsdk_nvpairs_ulong_value [NVPair "Offset" "-1"] (Some "Offset") 0
  = (true, ULONG_MAX).
Proof.
  apply (proj2 (devsdk_nvpairs_ulong_value_of_long
                  [NVPair "Offset" "-1"] (Some "Offset") 0 (-1) eq_refl)).
Defined.

(** * The command line *)

Lemma argv_get_Some (argv : list string) (n : Z) :
  0 ≤ n < Z.of_nat (length argv) →
  ∃ a, argv !! Z.to_nat n = Some a ∧ argv_get argv n = Some a.
Proof.
  intros Hn. unfold argv_get.
  destruct (Z.ltb_spec n 0); [lia|].
  destruct (lookup_lt_is_Some_2 argv (Z.to_nat n)) as [a Ha]; [lia|]. eauto.
Qed.

Lemma argv_get_lookup (argv : list string) (n : Z) (a : string) :
  0 ≤ n → argv !! Z.to_nat n = Some a → argv_get argv n = Some a.
Proof. intros Hn Ha. unfold argv_get. by destruct (Z.ltb_spec n 0); [lia|]. Qed.

(** The shifting loop of [consumeArgs] copies [k] arguments [nargs] places
    down, reading none that it has written. *)
Lemma consume_loop_spec (k : nat) (argv : list string) (n nargs : Z) :
  0 < nargs ≤ n → (Z.to_nat n + k ≤ length argv)%nat →
  consume_loop k argv n nargs =
  Some (take (Z.to_nat (n - nargs)) argv ++ take k (drop (Z.to_nat n) argv)
          ++ drop (Z.to_nat (n - nargs) + k) argv).
Proof.
  revert argv n. induction k as [|k IH]; intros argv n Hn Hlen.
  - simpl. by rewrite Nat.add_0_r, take_drop.
  - simpl consume_loop.
    destruct (argv_get_Some argv n) as (a & Ha & ->); [lia|].
    unfold argv_set.
    destruct (Z.leb_spec 0 (n - nargs)); [|lia].
    destruct (Z.ltb_spec (n - nargs) (Z.of_nat (length argv))); [|lia].
    simpl. rewrite IH by (rewrite ?length_insert; lia).
    f_equal.
    replace (Z.to_nat (n + 1 - nargs)) with (S (Z.to_nat (n - nargs))) by lia.
    replace (Z.to_nat (n + 1)) with (S (Z.to_nat n)) by lia.
    rewrite (take_S_r _ _ a) by (apply list_lookup_insert_eq; lia).
    rewrite take_insert_ge by lia.
    rewrite !drop_insert_lt by lia.
    rewrite (drop_S argv a (Z.to_nat n)) by done.
    rewrite <- app_assoc. simpl. do 4 f_equal. lia.
Qed.

(** [consumeArgs] takes [nargs] arguments out of the visible ones, from
    [start] on; when fewer than [nargs] are left there it only lowers the
    count. *)
Lemma consumeArgs_spec (argc : Z) (argv : list string) (start nargs : Z) :
  0 ≤ start → 0 < nargs → argc ≤ Z.of_nat (length argv) →
  ∃ argv',
    consumeArgs argc argv start nargs = Some (argc - nargs, argv')
    ∧ length argv' = length argv
    ∧ take (Z.to_nat start) argv' = take (Z.to_nat start) argv
    ∧ (start + nargs ≤ argc →
       visible (argc - nargs) argv' =
       take (Z.to_nat start) argv
         ++ drop (Z.to_nat (start + nargs)) (visible argc argv))
    ∧ (argc < start + nargs → argv' = argv).
Proof.
  intros Hstart Hnargs Hargc. unfold consumeArgs.
  destruct (Z.lt_ge_cases argc (start + nargs)) as [Hlt|Hle].
  { replace (Z.to_nat (argc - (start + nargs))) with 0%nat by lia. simpl.
    exists argv. repeat split; (lia || done). }
  rewrite consume_loop_spec by lia.
  eexists. split; [reflexivity|].
  replace (Z.to_nat (start + nargs - nargs)) with (Z.to_nat start) by lia.
  set (k := Z.to_nat (argc - (start + nargs))).
  split; [|split; [|split]].
  - rewrite !length_app, !length_take, !length_drop. lia.
  - rewrite take_app_le by (rewrite length_take; lia).
    rewrite take_take. f_equal. lia.
  - intros _. unfold visible.
    rewrite take_app_ge by (rewrite length_take; lia).
    rewrite length_take.
    replace (Z.to_nat start `min` length argv)%nat with (Z.to_nat start) by lia.
    f_equal.
    rewrite take_app_ge by (rewrite length_take, length_drop; lia).
    rewrite length_take, length_drop.
    replace (Z.to_nat (argc - nargs) - Z.to_nat start
             - k `min` (length argv - Z.to_nat (start + nargs)))%nat
      with 0%nat by lia.
    rewrite take_0, app_nil_r, take_drop_commute. do 2 f_equal. lia.
  - lia.
Qed.

Lemma consumeArgs_inv (argc : Z) (argv : list string) (start nargs : Z) :
  1 ≤ start < argc → argc ≤ Z.of_nat (length argv) → 0 < nargs ≤ 2 →
  ∃ argv',
    consumeArgs argc argv start nargs = Some (argc - nargs, argv')
    ∧ length argv' = length argv
    ∧ take (Z.to_nat start) argv' = take (Z.to_nat start) argv
    ∧ visible (argc - nargs) argv' `sublist_of` visible argc argv
    ∧ (start + nargs ≤ argc →
       visible (argc - nargs) argv' =
       take (Z.to_nat start) argv
         ++ drop (Z.to_nat (start + nargs)) (visible argc argv))
    ∧ (argc < start + nargs → argv' = argv).
Proof.
  intros Hstart Hargc Hnargs.
  destruct (consumeArgs_spec argc argv start nargs)
    as (argv' & Heq & Hlen & Htake & Hvis & Hsame); [lia..|].
  exists argv'. repeat split; try done.
  destruct (Z.lt_ge_cases argc (start + nargs)) as [Hlt|Hle].
  - rewrite (Hsame Hlt). unfold visible.
    replace (Z.to_nat (argc - nargs))
      with (Z.to_nat (argc - nargs) `min` Z.to_nat argc)%nat by lia.
    rewrite <- take_take. apply sublist_take.
  - rewrite (Hvis Hle).
    rewrite <- (take_drop (Z.to_nat start) (visible argc argv)) at 2.
    apply sublist_app.
    + unfold visible. rewrite take_take.
      by replace (Z.to_nat start `min` Z.to_nat argc)%nat with (Z.to_nat start) by lia.
    + replace (Z.to_nat (start + nargs))
        with (Z.to_nat start + Z.to_nat nargs)%nat by lia.
      rewrite <- drop_drop. apply sublist_drop.
Qed.

Lemma cut_at_no_occurrence (s : string) (c : ascii) :
  strchr s c = None → cut_at s c = s.
Proof.
  induction s as [|a s IH]; simpl; [done|].
  destruct (Ascii.eqb a c); [done|]. intros H. by rewrite IH.
Qed.

Lemma is_option_eqb (arg p q : string) :
  (strcmp arg p =? 0) || (strcmp arg q =? 0) = bool_decide (arg = p ∨ arg = q).
Proof.
  rewrite !strcmp_eqb.
  repeat case_bool_decide; simpl; try done; intuition congruence.
Qed.

Lemma set_field_same (f : cmdline_fields) :
  set_confdir (cf_confdir f) (set_profile (cf_profile f) (set_name (cf_name f) f)) = f.
Proof. by destruct f. Qed.

(** What one iteration of the loop does, by the kind of [argv[n]]. *)
Lemma cmdline_body_cases (st : cmdline_state) :
  cl_result st = true → 1 ≤ cl_n st < cl_argc st →
  cl_argc st ≤ Z.of_nat (length (cl_argv st)) →
  ∃ arg0,
    cl_argv st !! Z.to_nat (cl_n st) = Some arg0 ∧
    let arg := cut_at arg0 "=" in
    let val := value_at (cl_argc st) (cl_argv st) (cl_n st) arg0 in
    ((arg = "-r" ∨ arg = "--registry")
     ∧ ∃ argc' argv',
         consumeArgs (cl_argc st) (cl_argv st) (cl_n st)
           (if optional_value val then 2 else 1) = Some (argc', argv')
         ∧ cmdline_body st =
           Some (CmdState true (cl_n st) argc' argv'
                   (set_regURL (registry_choice val (cf_regURL (cl_svc st))) (cl_svc st))
                   (cl_stdout st)))
    ∨ (∃ o argc' argv',
         (arg = option_short o ∨ arg = option_long o)
         ∧ consumeArgs (cl_argc st) (cl_argv st) (cl_n st)
             (match strchr arg0 "=" with Some _ => 1 | None => 2 end) = Some (argc', argv')
         ∧ cmdline_body st =
           Some (if nonempty val
                 then CmdState true (cl_n st) argc' argv'
                        (set_field o val (cl_svc st)) (cl_stdout st)
                 else CmdState false (cl_n st) argc' argv' (cl_svc st)
                        (cl_stdout st ++ [requires_parameter arg])))
    ∨ (plain arg0 = true
       ∧ cmdline_body st =
         Some (CmdState true (cl_n st + 1) (cl_argc st) (cl_argv st) (cl_svc st)
                 (cl_stdout st))).
Proof.
  destruct st as [result n argc argv svc out]. simpl.
  intros -> Hn Hargc.
  destruct (argv_get_Some argv n) as (arg0 & Harg0 & Hget); [lia|].
  exists arg0. split; [done|].
  unfold cmdline_body. simpl. rewrite Hget.
  set (val := value_at argc argv n arg0).
  assert (match strchr arg0 "=" with
          | Some e => Some (Some (next_char e))
          | None =>
              if n + 1 <? argc then
                match argv_get argv (n + 1) with
                | Some v => Some (Some v)
                | None => None
                end
              else Some None
          end = Some val) as ->.
  { unfold val, value_at. destruct (strchr arg0 "="); [done|].
    destruct (Z.ltb_spec (n + 1) argc); [|done].
    destruct (argv_get_Some argv (n + 1)) as (v & -> & ->); [lia | done]. }
  assert (match strchr arg0 "=" with
          | Some _ => cut_at arg0 "="
          | None => arg0
          end = cut_at arg0 "=") as ->.
  { destruct (strchr arg0 "=") eqn:E; [done|]. by rewrite cut_at_no_occurrence. }
  set (arg := cut_at arg0 "=").
  unfold testArgOpt, testArg. rewrite !is_option_eqb.
  destruct (consumeArgs_inv argc argv n (if optional_value val then 2 else 1))
    as (argv1 & Hc1 & _); [lia | lia | destruct (optional_value val); lia |].
  destruct (consumeArgs_inv argc argv n (match strchr arg0 "=" with Some _ => 1 | None => 2 end))
    as (argv2 & Hc2 & _); [lia | lia | destruct (strchr arg0 "="); lia |].
  case_bool_decide as Hr.
  { left. split; [done|]. do 2 eexists. split; [exact Hc1|].
    unfold registry_choice.
    destruct (optional_value val); simpl; rewrite Hc1; done. }
  right.
  case_bool_decide as Hname.
  { left. exists OptName. do 2 eexists. split; [exact Hname|]. split; [exact Hc2|].
    destruct (nonempty val); simpl.
    - destruct (strchr arg0 "="); rewrite Hc2; by destruct svc.
    - destruct (strchr arg0 "="); rewrite Hc2; by destruct svc. }
  case_bool_decide as Hprofile.
  { left. exists OptProfile. do 2 eexists. split; [exact Hprofile|]. split; [exact Hc2|].
    destruct (nonempty val); simpl.
    - destruct (strchr arg0 "="); rewrite Hc2; by destruct svc.
    - destruct (strchr arg0 "="); rewrite Hc2; by destruct svc. }
  case_bool_decide as Hconfdir.
  { left. exists OptConfdir. do 2 eexists. split; [exact Hconfdir|]. split; [exact Hc2|].
    destruct (nonempty val); simpl.
    - destruct (strchr arg0 "="); rewrite Hc2; by destruct svc.
    - destruct (strchr arg0 "="); rewrite Hc2; by destruct svc. }
  right. simpl. split; [|by destruct svc].
  unfold plain. fold arg. apply negb_true_iff, bool_decide_eq_false.
  unfold option_names. rewrite !elem_of_cons, elem_of_nil. tauto.
Qed.

Lemma fields_set_nonempty_set_field (o : value_option) (val : option string)
    (f : cmdline_fields) :
  nonempty val = true → fields_set_nonempty f →
  fields_set_nonempty (set_field o val f).
Proof.
  intros Hval Hf o' v.
  destruct val as [[|c val]|]; try done.
  destruct o, o'; simpl; try (intros [= <-]; done).
  all: first [apply (Hf OptName v) | apply (Hf OptProfile v) | apply (Hf OptConfdir v)].
Qed.

Lemma fields_set_nonempty_set_regURL (v : option string) (f : cmdline_fields) :
  fields_set_nonempty f → fields_set_nonempty (set_regURL v f).
Proof.
  intros Hf o w.
  destruct o; [apply (Hf OptName w) | apply (Hf OptProfile w) | apply (Hf OptConfdir w)].
Qed.

Lemma cmdline_loop_failed (fuel : nat) (st : cmdline_state) :
  cl_result st = false → cmdline_loop fuel st = Some st.
Proof. intros H. destruct fuel; simpl; by rewrite H. Qed.

Lemma cmdline_loop_done (fuel : nat) (st : cmdline_state) :
  cl_argc st ≤ cl_n st → cmdline_loop fuel st = Some st.
Proof.
  intros H. destruct fuel; simpl;
    (destruct (Z.ltb_spec (cl_n st) (cl_argc st)); [lia|]); by rewrite andb_false_r.
Qed.

Lemma cmdline_loop_step (fuel : nat) (st : cmdline_state) :
  cl_result st = true → cl_n st < cl_argc st →
  cmdline_loop (S fuel) st =
  match cmdline_body st with
  | Some st' => cmdline_loop fuel st'
  | None => None
  end.
Proof.
  intros H Hn. simpl. rewrite H.
  by destruct (Z.ltb_spec (cl_n st) (cl_argc st)); [|lia].
Qed.

(** What the loop keeps, from any state in which it may be entered. *)
Lemma cmdline_loop_inv (fuel : nat) (st : cmdline_state) :
  1 ≤ cl_n st → cl_argc st ≤ Z.of_nat (length (cl_argv st)) →
  cl_argc st - cl_n st ≤ Z.of_nat fuel →
  ∃ st',
    cmdline_loop fuel st = Some st'
    ∧ (cl_result st' = false ∨ cl_argc st' ≤ cl_n st')
    ∧ cl_argc st' ≤ cl_argc st
    ∧ (0 ≤ cl_argc st → 0 ≤ cl_argc st')
    ∧ length (cl_argv st') = length (cl_argv st)
    ∧ take (Z.to_nat (cl_n st)) (cl_argv st') = take (Z.to_nat (cl_n st)) (cl_argv st)
    ∧ visible (cl_argc st') (cl_argv st') `sublist_of` visible (cl_argc st) (cl_argv st)
    ∧ (fields_set_nonempty (cl_svc st) → fields_set_nonempty (cl_svc st'))
    ∧ (cl_result st = true →
       if cl_result st' then cl_stdout st' = cl_stdout st
       else ∃ arg, cl_stdout st' = cl_stdout st ++ [requires_parameter arg]).
Proof.
  revert st. induction fuel as [|fuel IH]; intros st Hn Hargc Hfuel.
  - simpl. destruct (Z.ltb_spec (cl_n st) (cl_argc st)); [lia|].
    rewrite andb_false_r. exists st.
    split; [done|]. split; [right; lia|]. do 5 (split; [done|]). split; [done|].
    intros ->. done.
  - simpl.
    destruct (cl_result st) eqn:Hres; simpl.
    2: { exists st. split; [done|]. split; [by left|]. do 5 (split; [done|]).
         split; [done|]. done. }
    destruct (Z.ltb_spec (cl_n st) (cl_argc st)) as [Hlt|Hge].
    2: { exists st. split; [done|]. split; [right; lia|]. do 5 (split; [done|]).
         split; [done|]. intros _. by rewrite Hres. }
    destruct (cmdline_body_cases st Hres) as (arg0 & Harg0 & Hcases); [lia | lia |].
    cbv zeta in Hcases.
    set (val := value_at (cl_argc st) (cl_argv st) (cl_n st) arg0) in *.
    assert (∀ nargs argc' argv' st1,
              0 < nargs ≤ 2 →
              consumeArgs (cl_argc st) (cl_argv st) (cl_n st) nargs = Some (argc', argv') →
              cl_n st1 = cl_n st → cl_argc st1 = argc' → cl_argv st1 = argv' →
              (fields_set_nonempty (cl_svc st) → fields_set_nonempty (cl_svc st1)) →
              (if cl_result st1 then cl_stdout st1 = cl_stdout st
               else ∃ arg, cl_stdout st1 = cl_stdout st ++ [requires_parameter arg]) →
              ∃ st',
                cmdline_loop fuel st1 = Some st'
                ∧ (cl_result st' = false ∨ cl_argc st' ≤ cl_n st')
                ∧ cl_argc st' ≤ cl_argc st
                ∧ (0 ≤ cl_argc st → 0 ≤ cl_argc st')
                ∧ length (cl_argv st') = length (cl_argv st)
                ∧ take (Z.to_nat (cl_n st)) (cl_argv st')
                  = take (Z.to_nat (cl_n st)) (cl_argv st)
                ∧ visible (cl_argc st') (cl_argv st')
                    `sublist_of` visible (cl_argc st) (cl_argv st)
                ∧ (fields_set_nonempty (cl_svc st) → fields_set_nonempty (cl_svc st'))
                ∧ (true = true →
                   if cl_result st' then cl_stdout st' = cl_stdout st
                   else ∃ arg, cl_stdout st' = cl_stdout st ++ [requires_parameter arg]))
      as Hconsumed.
    { intros nargs argc' argv' st1 Hnargs Hc Hn1 Hargc1 Hargv1 Hf1 Hout1.
      destruct (consumeArgs_inv (cl_argc st) (cl_argv st) (cl_n st) nargs)
        as (argv'' & Hc' & Hlen & Htake & Hsub & _); [lia..|].
      rewrite Hc in Hc'. injection Hc' as -> ->.
      destruct (IH st1) as (st' & Hloop & Hexit & Hle & Hpos & Hlen' & Htake' & Hsub' & Hf' & Hout');
        [lia | rewrite Hargc1, Hargv1, Hlen; lia | lia |].
      exists st'. split; [done|]. split; [done|].
      rewrite Hargc1, Hargv1, Hn1 in *.
      split; [lia|]. split; [lia|]. split; [congruence|].
      split; [congruence|]. split; [by etrans|]. split; [auto|].
      intros _. destruct (cl_result st1) eqn:Hr1.
      - specialize (Hout' eq_refl). destruct (cl_result st'); [congruence|].
        destruct Hout' as [arg ->]. exists arg. congruence.
      - clear Hout'. rewrite cmdline_loop_failed in Hloop by done.
        injection Hloop as <-. rewrite Hr1. done. }
    destruct Hcases as [(_ & argc' & argv' & Hc & ->)
                       |[(o & argc' & argv' & _ & Hc & ->)|(_ & ->)]].
    + eapply Hconsumed; [|exact Hc|done..| |done].
      * destruct (optional_value val); lia.
      * apply fields_set_nonempty_set_regURL.
    + destruct (nonempty val) eqn:Hval.
      * eapply Hconsumed; [|exact Hc|done..| |done].
        -- destruct (strchr arg0 "="); lia.
        -- by apply fields_set_nonempty_set_field.
      * eapply Hconsumed; [|exact Hc|done..|done|simpl; eauto].
        destruct (strchr arg0 "="); lia.
    + destruct (IH (CmdState true (cl_n st + 1) (cl_argc st) (cl_argv st) (cl_svc st)
                      (cl_stdout st)))
        as (st' & Hloop & Hexit & Hle & Hpos & Hlen' & Htake' & Hsub' & Hf' & Hout');
        simpl; [lia..|].
      simpl in *. exists st'. repeat split; try done.
      apply (f_equal (take (Z.to_nat (cl_n st)))) in Htake'.
      rewrite !take_take in Htake'.
      by replace (Z.to_nat (cl_n st) `min` Z.to_nat (cl_n st + 1))%nat
        with (Z.to_nat (cl_n st)) in Htake' by lia.
Qed.

Lemma plain_not_option (a : string) :
  plain a = true → cut_at a "=" ∉ option_names.
Proof. unfold plain. by intros H%negb_true_iff%bool_decide_eq_false. Qed.

Lemma option_short_long_names (o : value_option) (arg : string) :
  arg = option_short o ∨ arg = option_long o → arg ∈ option_names.
Proof.
  unfold option_names. rewrite !elem_of_cons.
  destruct o; simpl; intros [-> | ->]; tauto.
Qed.

(** An argument that is no option is stepped over. *)
Lemma cmdline_body_plain (st : cmdline_state) (a : string) :
  cl_result st = true → 1 ≤ cl_n st < cl_argc st →
  cl_argc st ≤ Z.of_nat (length (cl_argv st)) →
  cl_argv st !! Z.to_nat (cl_n st) = Some a → plain a = true →
  cmdline_body st =
  Some (CmdState true (cl_n st + 1) (cl_argc st) (cl_argv st) (cl_svc st)
          (cl_stdout st)).
Proof.
  intros Hres Hn Hargc Ha Hplain.
  destruct (cmdline_body_cases st Hres Hn Hargc) as (arg0 & Harg0 & Hcases).
  rewrite Ha in Harg0. injection Harg0 as <-. cbv zeta in Hcases.
  apply plain_not_option in Hplain.
  destruct Hcases as [(Hr & _)|[(o & ? & ? & Ho & _)|(_ & ->)]]; [| |done].
  - exfalso. apply Hplain. unfold option_names. rewrite !elem_of_cons. tauto.
  - exfalso. apply Hplain. by eapply option_short_long_names.
Qed.

Lemma cmdline_loop_skip (k fuel : nat) (st : cmdline_state) :
  cl_result st = true → 1 ≤ cl_n st →
  cl_n st + Z.of_nat k ≤ cl_argc st → cl_argc st ≤ Z.of_nat (length (cl_argv st)) →
  (∀ i a, (i < k)%nat → cl_argv st !! (Z.to_nat (cl_n st) + i)%nat = Some a →
          plain a = true) →
  cmdline_loop (k + fuel) st =
  cmdline_loop fuel
    (CmdState true (cl_n st + Z.of_nat k) (cl_argc st) (cl_argv st) (cl_svc st)
       (cl_stdout st)).
Proof.
  revert st. induction k as [|k IH]; intros st Hres Hn Hk Hargc Hplain.
  - simpl. rewrite Z.add_0_r. destruct st; simpl in *. by rewrite Hres.
  - replace (S k + fuel)%nat with (S (k + fuel)) by lia.
    rewrite cmdline_loop_step by (done || lia).
    destruct (lookup_lt_is_Some_2 (cl_argv st) (Z.to_nat (cl_n st))) as [a Ha]; [lia|].
    rewrite (cmdline_body_plain st a); [|done|lia|done|done|].
    2: { apply (Hplain 0%nat); [lia|]. by rewrite Nat.add_0_r. }
    rewrite IH; simpl; [|done|lia|lia|done|].
    + do 2 f_equal. lia.
    + intros i b Hi Hb. apply (Hplain (S i)); [lia|].
      rewrite <- Hb. f_equal. lia.
Qed.

(** The loop over arguments that are no options: it runs to the end of the
    visible arguments and changes nothing. *)
Lemma cmdline_loop_plain (fuel : nat) (st : cmdline_state) :
  cl_result st = true → 1 ≤ cl_n st →
  cl_argc st ≤ Z.of_nat (length (cl_argv st)) →
  cl_argc st - cl_n st ≤ Z.of_nat fuel →
  Forall (λ a, plain a = true)
    (drop (Z.to_nat (cl_n st)) (visible (cl_argc st) (cl_argv st))) →
  cmdline_loop fuel st =
  Some (CmdState true (Z.max (cl_n st) (cl_argc st)) (cl_argc st) (cl_argv st)
          (cl_svc st) (cl_stdout st)).
Proof.
  intros Hres Hn Hargc Hfuel Hplain.
  destruct (Z.le_gt_cases (cl_argc st) (cl_n st)) as [Hle|Hgt].
  { rewrite cmdline_loop_done by done.
    replace (Z.max (cl_n st) (cl_argc st)) with (cl_n st) by lia.
    destruct st; simpl in *. by rewrite Hres. }
  set (k := Z.to_nat (cl_argc st - cl_n st)).
  replace fuel with (k + (fuel - k))%nat by lia.
  rewrite cmdline_loop_skip; [|done|lia|lia|done|].
  - rewrite cmdline_loop_done by (simpl; lia). do 2 f_equal. lia.
  - intros i a Hi Ha. rewrite Forall_lookup in Hplain. apply (Hplain i).
    unfold visible. rewrite lookup_drop, lookup_take_lt by lia. done.
Qed.

Lemma with_environment_regURL (getenv : string → option string)
    (f : cmdline_fields) :
  with_environment getenv f =
  set_regURL (match getenv "edgex_registry" with
              | Some val => Some val
              | None => cf_regURL f
              end) f.
Proof. unfold with_environment. destruct (getenv _); by destruct f. Qed.

(** X9: [processCmdLine] keeps within the argument array and comes to an
    end, whatever the arguments: it returns with a count that is not above
    the count received (and not below 0), an array of the same length whose
    first entry is untouched, and visible arguments that are arguments
    received, in the order received; nothing is printed unless the result
    is false, and then one line that names an option without parameter. *)
Theorem processCmdLine_keeps_arguments (getenv : string → option string)
    (argc : Z) (argv : list string) (svc : cmdline_fields) :
  argc ≤ Z.of_nat (length argv) →
  ∃ st,
    processCmdLine getenv argc argv svc = Some st
    ∧ cl_argc st ≤ argc ∧ (0 ≤ argc → 0 ≤ cl_argc st)
    ∧ length (cl_argv st) = length argv
    ∧ cl_argv st !! 0%nat = argv !! 0%nat
    ∧ visible (cl_argc st) (cl_argv st) `sublist_of` visible argc argv
    ∧ (if cl_result st then cl_stdout st = []
       else ∃ arg, cl_stdout st = [requires_parameter arg]).
Proof.
  intros Hargc. unfold processCmdLine. fold (with_environment getenv svc).
  destruct (cmdline_loop_inv (Z.to_nat argc)
              (CmdState true 1 argc argv (with_environment getenv svc) []))
    as (st & Hloop & _ & Hle & Hpos & Hlen & Htake & Hsub & _ & Hout);
    simpl in *; [lia..|].
  exists st. repeat split; try done.
  - apply (f_equal (λ l, l !! 0%nat)) in Htake.
    by rewrite !lookup_take_lt in Htake by lia.
  - by apply Hout.
Qed.

Lemma processCmdLine_keeps_arguments_witness :
  ∃ st,
    processCmdLine (λ _, None) 4 ["device"; "--name=probe"; "-x"; "7"] zero_fields
    = Some st
    ∧ cl_argc st ≤ 4.
Proof.
  destruct (processCmdLine_keeps_arguments (λ _, None) 4
              ["device"; "--name=probe"; "-x"; "7"] zero_fields)
    as (st & Hst & Hle & _).
  - simpl. lia.
  - exists st. split; [exact Hst | exact Hle].
Defined.

(** X10: a command line without options is left alone: when none of the
    arguments after the first is an option, [processCmdLine] succeeds,
    prints nothing, leaves the count and the array as they are, and sets
    no field of the service but the registry location, which it takes from
    the environment variable [edgex_registry] when that is set. *)
Theorem processCmdLine_no_options (getenv : string → option string)
    (argc : Z) (argv : list string) (svc : cmdline_fields) :
  argc ≤ Z.of_nat (length argv) →
  Forall (λ a, plain a = true) (drop 1 (visible argc argv)) →
  ∃ st,
    processCmdLine getenv argc argv svc = Some st
    ∧ cl_result st = true ∧ cl_argc st = argc ∧ cl_argv st = argv
    ∧ cl_stdout st = []
    ∧ cl_svc st =
      set_regURL (match getenv "edgex_registry" with
                  | Some val => Some val
                  | None => cf_regURL svc
                  end) svc.
Proof.
  intros Hargc Hplain. unfold processCmdLine. fold (with_environment getenv svc).
  rewrite cmdline_loop_plain; simpl; [|done|lia|lia|lia|done].
  eexists. split; [reflexivity|]. simpl.
  by rewrite with_environment_regURL.
Qed.

Lemma processCmdLine_no_options_witness :
  ∃ st,
    processCmdLine (λ _, Some "consul://registry:8500") 3
      ["device"; "extra"; "--verbose=1"] zero_fields = Some st
    ∧ cl_argv st = ["device"; "extra"; "--verbose=1"]
    ∧ cf_regURL (cl_svc st) = Some "consul://registry:8500".
Proof.
  destruct (processCmdLine_no_options (λ _, Some "consul://registry:8500") 3
              ["device"; "extra"; "--verbose=1"] zero_fields)
    as (st & Hst & _ & _ & Hargv & _ & Hsvc).
  - simpl. lia.
  - apply (bool_decide_unpack _). vm_compute. exact I.
  - exists st. split; [exact Hst|]. split; [exact Hargv|]. by rewrite Hsvc.
Defined.

(** ** A command line with one option *)

Lemma strchr_app_eq (opt rest : string) :
  strchr opt "=" = None →
  strchr (opt ++ String "=" rest) "=" = Some (String "=" rest)
  ∧ cut_at (opt ++ String "=" rest) "=" = opt.
Proof.
  induction opt as [|c opt IH]; simpl; [done|].
  destruct (Ascii.eqb c "="); [done|]. intros H.
  destruct (IH H) as [-> ->]. done.
Qed.

Lemma option_spelling_no_eq (o : value_option) (opt : string) :
  opt = option_short o ∨ opt = option_long o → strchr opt "=" = None.
Proof. destruct o; intros [-> | ->]; done. Qed.

Lemma option_spelling_inj (o o' : value_option) (opt : string) :
  opt = option_short o ∨ opt = option_long o →
  opt = option_short o' ∨ opt = option_long o' → o' = o.
Proof. destruct o, o'; simpl; intros [-> | ->] [? | ?]; done. Qed.

Lemma option_spelling_not_registry (o : value_option) (opt : string) :
  opt = option_short o ∨ opt = option_long o →
  ¬ (opt = "-r" ∨ opt = "--registry").
Proof. destruct o; simpl; intros [-> | ->] [? | ?]; done. Qed.

Lemma registry_spelling_no_option (o : value_option) (opt : string) :
  opt = "-r" ∨ opt = "--registry" →
  ¬ (opt = option_short o ∨ opt = option_long o).
Proof. intros H H'. by eapply option_spelling_not_registry. Qed.

(** The arguments before the first option are stepped over; then comes
    the iteration that sees the option. *)
Lemma processCmdLine_one_group (getenv : string → option string)
    (pre args post : list string) (svc : cmdline_fields) :
  pre ≠ [] → Forall (λ a, plain a = true) (tail pre) → args ≠ [] →
  let argv := pre ++ args ++ post in
  processCmdLine getenv (Z.of_nat (length argv)) argv svc =
  match cmdline_body (CmdState true (Z.of_nat (length pre)) (Z.of_nat (length argv))
                        argv (with_environment getenv svc) []) with
  | Some st1 => cmdline_loop (length args + length post) st1
  | None => None
  end.
Proof.
  intros Hpre Hplain Hargs argv. unfold processCmdLine.
  fold (with_environment getenv svc).
  destruct pre as [|a0 pre]; [done|]. destruct args as [|a1 args]; [done|].
  simpl in Hplain.
  assert (length argv = S (length pre + S (length args + length post))) as Hlen.
  { unfold argv. simpl. rewrite !length_app. simpl. rewrite ?length_app. lia. }
  rewrite Nat2Z.id. rewrite Hlen at 1.
  replace (S (length pre + S (length args + length post)))
    with (length pre + S (S (length args + length post)))%nat at 1 by lia.
  rewrite cmdline_loop_skip;
    cbn [cl_result cl_n cl_argc cl_argv cl_svc cl_stdout]; [|done|lia|lia|lia|].
  - rewrite cmdline_loop_step
      by (cbn [cl_result cl_n cl_argc cl_argv cl_svc cl_stdout]; (done || lia)).
    replace (1 + Z.of_nat (length pre)) with (Z.of_nat (length (a0 :: pre)))
      by (simpl; lia).
    done.
  - intros i a Hi Ha. rewrite Forall_lookup in Hplain. apply (Hplain i).
    replace (Z.to_nat 1 + i)%nat with (S i) in Ha by lia.
    unfold argv in Ha. simpl in Ha.
    by rewrite lookup_app_l in Ha by lia.
Qed.

(** After the option, the arguments that are left are stepped over. *)
Lemma cmdline_loop_rest (fuel : nat) (st : cmdline_state) (pre post : list string) :
  cl_result st = true → pre ≠ [] → cl_n st = Z.of_nat (length pre) →
  cl_argc st ≤ Z.of_nat (length (cl_argv st)) →
  visible (cl_argc st) (cl_argv st) = pre ++ post →
  Forall (λ a, plain a = true) post → (length post ≤ fuel)%nat →
  ∃ st',
    cmdline_loop fuel st = Some st'
    ∧ cl_result st' = true
    ∧ visible (cl_argc st') (cl_argv st') = pre ++ post
    ∧ cl_svc st' = cl_svc st ∧ cl_stdout st' = cl_stdout st.
Proof.
  intros Hres Hpre Hn Hargc Hvis Hplain Hfuel.
  assert (Z.to_nat (cl_argc st) = (length pre + length post)%nat) as Hlen.
  { apply (f_equal length) in Hvis. unfold visible in Hvis.
    rewrite length_take, length_app in Hvis. lia. }
  assert (0 < length pre)%nat by (destruct pre; simpl; [done | lia]).
  rewrite cmdline_loop_plain; [|done|lia|done|lia|].
  - eexists. split; [reflexivity|]. simpl. done.
  - rewrite Hvis, Hn, Nat2Z.id. by rewrite drop_app_length.
Qed.

(** The state in which the iteration at [pre] leaves the loop when it
    takes [nargs] arguments out. *)
Lemma consumeArgs_group (pre args post : list string) (nargs : Z) :
  pre ≠ [] → 0 < nargs ≤ 2 → args ≠ [] →
  let argv := pre ++ args ++ post in
  ∃ argv',
    consumeArgs (Z.of_nat (length argv)) argv (Z.of_nat (length pre)) nargs
    = Some (Z.of_nat (length argv) - nargs, argv')
    ∧ length argv' = length argv
    ∧ (nargs ≤ Z.of_nat (length args + length post) →
       visible (Z.of_nat (length argv) - nargs) argv'
       = pre ++ drop (Z.to_nat nargs) (args ++ post)).
Proof.
  intros Hpre Hnargs Hargs argv.
  assert (0 < length pre)%nat by (destruct pre; simpl; [done | lia]).
  assert (0 < length args)%nat by (destruct args; simpl; [done | lia]).
  assert (length argv = (length pre + (length args + length post))%nat) as Hlen.
  { unfold argv. by rewrite !length_app. }
  destruct (consumeArgs_inv (Z.of_nat (length argv)) argv (Z.of_nat (length pre)) nargs)
    as (argv' & Hc & Hlen' & _ & _ & Hvis & _); [lia..|].
  exists argv'. split; [done|]. split; [done|].
  intros Hle. rewrite Hvis by lia.
  unfold visible. rewrite !Nat2Z.id, (take_ge argv (length argv)) by lia.
  unfold argv. rewrite take_app_length.
  f_equal. rewrite drop_app_ge by lia. f_equal. lia.
Qed.

Lemma cmdline_body_value_option (st : cmdline_state) (o : value_option)
    (arg0 : string) :
  cl_result st = true → 1 ≤ cl_n st < cl_argc st →
  cl_argc st ≤ Z.of_nat (length (cl_argv st)) →
  cl_argv st !! Z.to_nat (cl_n st) = Some arg0 →
  cut_at arg0 "=" = option_short o ∨ cut_at arg0 "=" = option_long o →
  ∃ argc' argv',
    consumeArgs (cl_argc st) (cl_argv st) (cl_n st)
      (match strchr arg0 "=" with Some _ => 1 | None => 2 end) = Some (argc', argv')
    ∧ cmdline_body st =
      Some (if nonempty (value_at (cl_argc st) (cl_argv st) (cl_n st) arg0)
            then CmdState true (cl_n st) argc' argv'
                   (set_field o (value_at (cl_argc st) (cl_argv st) (cl_n st) arg0)
                      (cl_svc st))
                   (cl_stdout st)
            else CmdState false (cl_n st) argc' argv' (cl_svc st)
                   (cl_stdout st ++ [requires_parameter (cut_at arg0 "=")])).
Proof.
  intros Hres Hn Hargc Ha Ho.
  destruct (cmdline_body_cases st Hres Hn Hargc) as (arg0' & Harg0 & Hcases).
  rewrite Ha in Harg0. injection Harg0 as <-. cbv zeta in Hcases.
  destruct Hcases as [(Hr & _)|[(o' & argc' & argv' & Ho' & Hc & Hbody)|(Hplain & _)]].
  - by apply (registry_spelling_no_option o) in Hr.
  - rewrite (option_spelling_inj o o' _ Ho Ho') in Hbody. eauto.
  - apply plain_not_option in Hplain. exfalso. apply Hplain.
    by eapply option_short_long_names.
Qed.

Lemma cmdline_body_registry (st : cmdline_state) (arg0 : string) :
  cl_result st = true → 1 ≤ cl_n st < cl_argc st →
  cl_argc st ≤ Z.of_nat (length (cl_argv st)) →
  cl_argv st !! Z.to_nat (cl_n st) = Some arg0 →
  cut_at arg0 "=" = "-r" ∨ cut_at arg0 "=" = "--registry" →
  ∃ argc' argv',
    consumeArgs (cl_argc st) (cl_argv st) (cl_n st)
      (if optional_value (value_at (cl_argc st) (cl_argv st) (cl_n st) arg0)
       then 2 else 1) = Some (argc', argv')
    ∧ cmdline_body st =
      Some (CmdState true (cl_n st) argc' argv'
              (set_regURL
                 (registry_choice (value_at (cl_argc st) (cl_argv st) (cl_n st) arg0)
                    (cf_regURL (cl_svc st)))
                 (cl_svc st))
              (cl_stdout st)).
Proof.
  intros Hres Hn Hargc Ha Ho.
  destruct (cmdline_body_cases st Hres Hn Hargc) as (arg0' & Harg0 & Hcases).
  rewrite Ha in Harg0. injection Harg0 as <-. cbv zeta in Hcases.
  destruct Hcases as [(_ & Hr)|[(o' & argc' & argv' & Ho' & _)|(Hplain & _)]].
  - done.
  - by apply (registry_spelling_no_option o') in Ho.
  - apply plain_not_option in Hplain. exfalso. apply Hplain.
    unfold option_names. rewrite !elem_of_cons. tauto.
Qed.

Lemma nonempty_Some_ne (v : string) : v ≠ "" → nonempty (Some v) = true.
Proof. by destruct v. Qed.

Lemma value_at_joined (argc : Z) (argv : list string) (n : Z) (opt v : string) :
  strchr opt "=" = None →
  value_at argc argv n (joined opt v) = Some v
  ∧ cut_at (joined opt v) "=" = opt
  ∧ strchr (joined opt v) "=" = Some (String "=" v).
Proof.
  intros Hopt. unfold value_at, joined.
  destruct (strchr_app_eq opt v Hopt) as [-> ->]. done.
Qed.

Lemma value_at_next (argc : Z) (argv : list string) (n : Z) (opt : string) :
  strchr opt "=" = None → 0 ≤ n →
  value_at argc argv n opt =
  (if n + 1 <? argc then argv !! S (Z.to_nat n) else None)
  ∧ cut_at opt "=" = opt.
Proof.
  intros Hopt Hn. unfold value_at. rewrite Hopt, cut_at_no_occurrence by done.
  split; [|done]. destruct (n + 1 <? argc); [|done]. f_equal. lia.
Qed.

(** An option that takes a value, in a command line that holds no other
    option. *)
Lemma processCmdLine_value_option_spec (getenv : string → option string)
    (pre post args : list string) (o : value_option) (opt v : string)
    (svc : cmdline_fields) :
  pre ≠ [] → Forall (λ a, plain a = true) (tail pre) →
  Forall (λ a, plain a = true) post →
  opt = option_short o ∨ opt = option_long o → v ≠ "" →
  args = [opt; v] ∨ args = [joined opt v] →
  ∃ st,
    processCmdLine getenv (Z.of_nat (length (pre ++ args ++ post)))
      (pre ++ args ++ post) svc = Some st
    ∧ cl_result st = true
    ∧ visible (cl_argc st) (cl_argv st) = pre ++ post
    ∧ cl_svc st = set_field o (Some v) (with_environment getenv svc)
    ∧ cl_stdout st = [].
Proof.
  intros Hpre Hplain Hpost Hopt Hv Hargs.
  assert (args ≠ []) as Hne by (by destruct Hargs as [-> | ->]).
  assert (0 < length pre)%nat as Hlen by (destruct pre; simpl; [done | lia]).
  pose proof (option_spelling_no_eq o opt Hopt) as Hnoeq.
  rewrite processCmdLine_one_group by done.
  set (argv := pre ++ args ++ post).
  set (st0 := CmdState true (Z.of_nat (length pre)) (Z.of_nat (length argv)) argv
                (with_environment getenv svc) []).
  assert (length argv = (length pre + (length args + length post))%nat) as Hlenv
    by (unfold argv; by rewrite !length_app).
  assert (0 < length args)%nat by (destruct args; simpl; [done | lia]).
  destruct Hargs as [-> | ->].
  - destruct (cmdline_body_value_option st0 o opt)
      as (argc' & argv' & Hc & ->);
      unfold st0 in *; cbn [cl_result cl_n cl_argc cl_argv cl_svc cl_stdout] in *;
      [done|lia|lia| | |].
    { unfold argv. by rewrite Nat2Z.id, lookup_app_r, Nat.sub_diag by lia. }
    { by rewrite cut_at_no_occurrence. }
    destruct (value_at_next (Z.of_nat (length argv)) argv (Z.of_nat (length pre)) opt)
      as [Hval _]; [done|lia|].
    rewrite Hnoeq in Hc. rewrite Hval.
    destruct (Z.ltb_spec (Z.of_nat (length pre) + 1) (Z.of_nat (length argv)));
      [|simpl in *; lia].
    assert (argv !! S (Z.to_nat (Z.of_nat (length pre))) = Some v) as ->.
    { unfold argv. rewrite Nat2Z.id, lookup_app_r by lia.
      by replace (S (length pre) - length pre)%nat with 1%nat by lia. }
    rewrite nonempty_Some_ne by done.
    destruct (consumeArgs_group pre [opt; v] post 2) as (argv'' & Hc' & Hl & Hvis);
      [done|lia|done|].
    fold argv in Hc', Hl, Hvis. rewrite Hc in Hc'. injection Hc' as -> ->.
    destruct (cmdline_loop_rest (length [opt; v] + length post)
                (CmdState true (Z.of_nat (length pre)) (Z.of_nat (length argv) - 2)
                   argv'' (set_field o (Some v) (with_environment getenv svc)) [])
                pre post) as (st & Hst & Hr & Hv' & Hs & Ho);
      cbn [cl_result cl_n cl_argc cl_argv cl_svc cl_stdout] in *; try done; try lia.
    { apply Hvis. simpl. lia. }
    exists st. by rewrite Hst.
  - destruct (value_at_joined (Z.of_nat (length argv)) argv (Z.of_nat (length pre)) opt v)
      as (Hval & Hcut & Heq); [done|].
    destruct (cmdline_body_value_option st0 o (joined opt v))
      as (argc' & argv' & Hc & ->);
      unfold st0 in *; cbn [cl_result cl_n cl_argc cl_argv cl_svc cl_stdout] in *;
      [done|lia|lia| | |].
    { unfold argv. by rewrite Nat2Z.id, lookup_app_r, Nat.sub_diag by lia. }
    { by rewrite Hcut. }
    rewrite Heq in Hc. rewrite Hval, nonempty_Some_ne by done.
    destruct (consumeArgs_group pre [joined opt v] post 1) as (argv'' & Hc' & Hl & Hvis);
      [done|lia|done|].
    fold argv in Hc', Hl, Hvis. rewrite Hc in Hc'. injection Hc' as -> ->.
    destruct (cmdline_loop_rest (length [joined opt v] + length post)
                (CmdState true (Z.of_nat (length pre)) (Z.of_nat (length argv) - 1)
                   argv'' (set_field o (Some v) (with_environment getenv svc)) [])
                pre post) as (st & Hst & Hr & Hv' & Hs & Ho);
      cbn [cl_result cl_n cl_argc cl_argv cl_svc cl_stdout] in *; try done; try lia.
    { apply Hvis. simpl. lia. }
    exists st. by rewrite Hst.
Qed.

(** The outcome of a command line whose one option takes [nargs]
    arguments out and leaves the result true. *)
Lemma processCmdLine_group_result (getenv : string → option string)
    (pre args post : list string) (svc : cmdline_fields) (st1 : cmdline_state)
    (nargs : Z) :
  pre ≠ [] → Forall (λ a, plain a = true) (tail pre) → args ≠ [] →
  let argv := pre ++ args ++ post in
  cmdline_body (CmdState true (Z.of_nat (length pre)) (Z.of_nat (length argv))
                  argv (with_environment getenv svc) []) = Some st1 →
  cl_result st1 = true → cl_n st1 = Z.of_nat (length pre) →
  consumeArgs (Z.of_nat (length argv)) argv (Z.of_nat (length pre)) nargs
  = Some (cl_argc st1, cl_argv st1) →
  0 < nargs ≤ 2 → nargs ≤ Z.of_nat (length args + length post) →
  Forall (λ a, plain a = true) (drop (Z.to_nat nargs) (args ++ post)) →
  ∃ st,
    processCmdLine getenv (Z.of_nat (length argv)) argv svc = Some st
    ∧ cl_result st = true
    ∧ visible (cl_argc st) (cl_argv st) = pre ++ drop (Z.to_nat nargs) (args ++ post)
    ∧ cl_svc st = cl_svc st1
    ∧ cl_stdout st = cl_stdout st1.
Proof.
  intros Hpre Hplain Hargs argv Hbody Hres Hn Hc Hnargs Hle Hrest. subst argv.
  rewrite processCmdLine_one_group by done. rewrite Hbody.
  destruct (consumeArgs_group pre args post nargs) as (argv' & Hc' & Hl & Hvis);
    [done..|].
  rewrite Hc in Hc'. injection Hc' as Hargc Hargv.
  apply (cmdline_loop_rest _ st1 pre); try done.
  - rewrite Hargc, Hargv, Hl. lia.
  - rewrite Hargc, Hargv. by apply Hvis.
  - rewrite length_drop, length_app. lia.
Qed.

(** X13: the registry option with a location, in a command line that holds
    no other option: [-r] or [--registry] followed by an argument that is
    not empty and does not begin with [-] sets the registry location to
    that argument, whatever the environment variable holds; both arguments
    are taken out of the array. *)
Theorem processCmdLine_registry_location (getenv : string → option string)
    (pre post : list string) (opt url : string) (svc : cmdline_fields) :
  pre ≠ [] → Forall (λ a, plain a = true) (tail pre) →
  Forall (λ a, plain a = true) post →
  opt = "-r" ∨ opt = "--registry" → optional_value (Some url) = true →
  ∃ st,
    processCmdLine getenv (Z.of_nat (length (pre ++ [opt; url] ++ post)))
      (pre ++ [opt; url] ++ post) svc = Some st
    ∧ cl_result st = true
    ∧ visible (cl_argc st) (cl_argv st) = pre ++ post
    ∧ cl_svc st = set_regURL (Some url) (with_environment getenv svc)
    ∧ cl_stdout st = [].
Proof.
  intros Hpre Hplain Hpost Hopt Hurl.
  assert (0 < length pre)%nat as Hlen by (destruct pre; simpl; [done | lia]).
  assert (strchr opt "=" = None) as Hnoeq by (by destruct Hopt as [-> | ->]).
  set (argv := pre ++ [opt; url] ++ post).
  assert (length argv = (length pre + (2 + length post))%nat) as Hlenv
    by (unfold argv; by rewrite !length_app).
  destruct (cmdline_body_registry
              (CmdState true (Z.of_nat (length pre)) (Z.of_nat (length argv)) argv
                 (with_environment getenv svc) []) opt)
    as (argc' & argv' & Hc & Hbody);
    cbn [cl_result cl_n cl_argc cl_argv cl_svc cl_stdout] in *; [done|lia|lia| | |].
  { unfold argv. by rewrite Nat2Z.id, lookup_app_r, Nat.sub_diag by lia. }
  { by rewrite cut_at_no_occurrence. }
  destruct (value_at_next (Z.of_nat (length argv)) argv (Z.of_nat (length pre)) opt)
    as [Hval _]; [done|lia|].
  destruct (Z.ltb_spec (Z.of_nat (length pre) + 1) (Z.of_nat (length argv))); [|lia].
  assert (argv !! S (Z.to_nat (Z.of_nat (length pre))) = Some url) as Hnext.
  { unfold argv. rewrite Nat2Z.id, lookup_app_r by lia.
    by replace (S (length pre) - length pre)%nat with 1%nat by lia. }
  rewrite Hval, Hnext in Hc, Hbody. unfold registry_choice in Hbody.
  rewrite Hurl in Hc, Hbody.
  destruct (processCmdLine_group_result getenv pre [opt; url] post svc _ 2
              Hpre Hplain ltac:(done) Hbody)
    as (st & Hst & Hr & Hv & Hs & Ho); simpl; try done; try lia.
  exists st. done.
Qed.

Lemma processCmdLine_registry_location_witness :
  ∃ st,
    processCmdLine (λ _, Some "consul://other:8500") 3
      ["device"; "-r"; "consul://registry:8500"] zero_fields = Some st
    ∧ cf_regURL (cl_svc st) = Some "consul://registry:8500".
Proof.
  destruct (processCmdLine_registry_location (λ _, Some "consul://other:8500")
              ["device"] [] "-r" "consul://registry:8500" zero_fields)
    as (st & Hst & _ & _ & Hsvc & _).
  - done.
  - apply (bool_decide_unpack _). vm_compute. exact I.
  - apply (bool_decide_unpack _). vm_compute. exact I.
  - left. reflexivity.
  - reflexivity.
  - exists st. split; [exact Hst|]. by rewrite Hsvc.
Defined.

(** X14: the registry option without a location, in a command line that
    holds no other option: [-r] or [--registry] at the end of the command
    line, or followed by an argument that is empty or begins with [-], or
    joined by [=] to such a value, asks for the registry without failing:
    the location that the environment variable gave is kept, and without
    one the location becomes the empty string; the option alone is taken
    out of the array. *)
Theorem processCmdLine_registry_default (getenv : string → option string)
    (pre post args : list string) (opt : string) (svc : cmdline_fields) :
  pre ≠ [] → Forall (λ a, plain a = true) (tail pre) →
  Forall (λ a, plain a = true) post →
  opt = "-r" ∨ opt = "--registry" →
  (args = [opt] ∧ optional_value (head post) = false)
  ∨ (∃ v, args = [joined opt v] ∧ optional_value (Some v) = false) →
  ∃ st,
    processCmdLine getenv (Z.of_nat (length (pre ++ args ++ post)))
      (pre ++ args ++ post) svc = Some st
    ∧ cl_result st = true
    ∧ visible (cl_argc st) (cl_argv st) = pre ++ post
    ∧ cl_svc st =
      set_regURL (match getenv "edgex_registry", cf_regURL svc with
                  | Some val, _ => Some val
                  | None, Some u => Some u
                  | None, None => Some ""
                  end) svc
    ∧ cl_stdout st = [].
Proof.
  intros Hpre Hplain Hpost Hopt Hargs.
  assert (0 < length pre)%nat as Hlen by (destruct pre; simpl; [done | lia]).
  assert (strchr opt "=" = None) as Hnoeq by (by destruct Hopt as [-> | ->]).
  assert (∃ arg0, args = [arg0] ∧ cut_at arg0 "=" = opt
                  ∧ optional_value
                      (value_at (Z.of_nat (length (pre ++ args ++ post)))
                         (pre ++ args ++ post) (Z.of_nat (length pre)) arg0) = false)
    as (arg0 & -> & Hcut & Hval).
  { destruct Hargs as [[-> Hhead] | (v & -> & Hv)].
    - exists opt. split; [done|].
      destruct (value_at_next (Z.of_nat (length (pre ++ [opt] ++ post)))
                  (pre ++ [opt] ++ post) (Z.of_nat (length pre)) opt)
        as [-> ->]; [done|lia|]. split; [done|].
      rewrite !length_app. simpl.
      destruct post as [|x post]; simpl in *.
      + by destruct (Z.ltb_spec (Z.of_nat (length pre) + 1)
                       (Z.of_nat (length pre + 1))); [lia|].
      + destruct (Z.ltb_spec (Z.of_nat (length pre) + 1)
                    (Z.of_nat (length pre + S (S (length post))))); [|done].
        rewrite Nat2Z.id, lookup_app_r by lia.
        by replace (S (length pre) - length pre)%nat with 1%nat by lia.
    - exists (joined opt v). split; [done|].
      destruct (value_at_joined (Z.of_nat (length (pre ++ [joined opt v] ++ post)))
                  (pre ++ [joined opt v] ++ post) (Z.of_nat (length pre)) opt v)
        as (-> & -> & _); done. }
  set (argv := pre ++ [arg0] ++ post) in *.
  assert (length argv = (length pre + (1 + length post))%nat) as Hlenv
    by (unfold argv; by rewrite !length_app).
  destruct (cmdline_body_registry
              (CmdState true (Z.of_nat (length pre)) (Z.of_nat (length argv)) argv
                 (with_environment getenv svc) []) arg0)
    as (argc' & argv' & Hc & Hbody);
    cbn [cl_result cl_n cl_argc cl_argv cl_svc cl_stdout] in *; [done|lia|lia| | |].
  { unfold argv. by rewrite Nat2Z.id, lookup_app_r, Nat.sub_diag by lia. }
  { by rewrite Hcut. }
  unfold registry_choice in Hbody. rewrite Hval in Hc, Hbody.
  destruct (processCmdLine_group_result getenv pre [arg0] post svc _ 1
              Hpre Hplain ltac:(done) Hbody)
    as (st & Hst & Hr & Hv & Hs & Ho); simpl; try done; try lia.
  exists st. repeat split; try done.
  rewrite Hs. simpl. unfold with_environment.
  destruct (getenv "edgex_registry"); destruct svc as [[?|] ? ? ?]; done.
Qed.

Lemma processCmdLine_registry_default_witness :
  ∃ st,
    processCmdLine (λ _, None) 3 ["device"; "--registry"; "-v"] zero_fields = Some st
    ∧ visible (cl_argc st) (cl_argv st) = ["device"; "-v"]
    ∧ cf_regURL (cl_svc st) = Some "".
Proof.
  destruct (processCmdLine_registry_default (λ _, None) ["device"] ["-v"]
              ["--registry"] "--registry" zero_fields)
    as (st & Hst & _ & Hvis & Hsvc & _).
  - done.
  - apply (bool_decide_unpack _). vm_compute. exact I.
  - apply (bool_decide_unpack _). vm_compute. exact I.
  - right. reflexivity.
  - left. split; reflexivity.
  - exists st. split; [exact Hst|]. split; [exact Hvis|]. by rewrite Hsvc.
Defined.

(** X15: the registry option joined to its location, in a command line that
    holds no other option: [--registry=url] (or [-r=url]) with a location
    that is not empty and does not begin with [-] sets the registry
    location, and takes two arguments out of the array: itself and the
    argument after it, whatever that is; when it is the last argument the
    count is lowered by two all the same, so that the argument before it
    is no longer visible. *)
Theorem processCmdLine_registry_joined (getenv : string → option string)
    (pre post : list string) (opt url : string) (svc : cmdline_fields) :
  pre ≠ [] → Forall (λ a, plain a = true) (tail pre) →
  Forall (λ a, plain a = true) (tail post) →
  opt = "-r" ∨ opt = "--registry" → optional_value (Some url) = true →
  ∃ st,
    processCmdLine getenv (Z.of_nat (length (pre ++ [joined opt url] ++ post)))
      (pre ++ [joined opt url] ++ post) svc = Some st
    ∧ cl_result st = true
    ∧ visible (cl_argc st) (cl_argv st) =
      match post with
      | [] => take (length pre - 1) pre
      | _ :: post' => pre ++ post'
      end
    ∧ cl_svc st = set_regURL (Some url) (with_environment getenv svc)
    ∧ cl_stdout st = [].
Proof.
  intros Hpre Hplain Hpost Hopt Hurl.
  assert (0 < length pre)%nat as Hlen by (destruct pre; simpl; [done | lia]).
  assert (strchr opt "=" = None) as Hnoeq by (by destruct Hopt as [-> | ->]).
  set (argv := pre ++ [joined opt url] ++ post).
  assert (length argv = (length pre + (1 + length post))%nat) as Hlenv
    by (unfold argv; by rewrite !length_app).
  destruct (value_at_joined (Z.of_nat (length argv)) argv (Z.of_nat (length pre)) opt url)
    as (Hval & Hcut & _); [done|].
  destruct (cmdline_body_registry
              (CmdState true (Z.of_nat (length pre)) (Z.of_nat (length argv)) argv
                 (with_environment getenv svc) []) (joined opt url))
    as (argc' & argv' & Hc & Hbody);
    cbn [cl_result cl_n cl_argc cl_argv cl_svc cl_stdout] in *; [done|lia|lia| | |].
  { unfold argv. by rewrite Nat2Z.id, lookup_app_r, Nat.sub_diag by lia. }
  { by rewrite Hcut. }
  unfold registry_choice in Hbody. rewrite Hval, Hurl in Hc, Hbody.
  destruct post as [|x post].
  - destruct (consumeArgs_inv (Z.of_nat (length argv)) argv (Z.of_nat (length pre)) 2)
      as (argv'' & Hc' & _ & _ & _ & _ & Hsame); [lia..|].
    rewrite Hc in Hc'. injection Hc' as -> ->.
    rewrite Hsame in Hbody by (simpl in *; lia).
    simpl in Hlenv. subst argv.
    rewrite processCmdLine_one_group by done. rewrite Hbody.
    rewrite cmdline_loop_done
      by (cbn [cl_result cl_n cl_argc cl_argv cl_svc cl_stdout]; lia).
    eexists. split; [reflexivity|].
    cbn [cl_result cl_n cl_argc cl_argv cl_svc cl_stdout]. repeat split; try done.
    unfold visible. rewrite Hlenv.
    replace (Z.to_nat (Z.of_nat (length pre + 1) - 2))
      with (length pre - 1)%nat by lia.
    by rewrite take_app_le by lia.
  - destruct (processCmdLine_group_result getenv pre [joined opt url] (x :: post) svc _ 2
                Hpre Hplain ltac:(done) Hbody)
      as (st & Hst & Hr & Hv & Hs & Ho); simpl; try done; try lia.
    exists st. done.
Qed.

Lemma processCmdLine_registry_joined_witness :
  ∃ st,
    processCmdLine (λ _, None) 4
      ["device"; "--registry=consul://registry:8500"; "--name=probe"; "last"]
      zero_fields = Some st
    ∧ visible (cl_argc st) (cl_argv st) = ["device"; "last"]
    ∧ cf_name (cl_svc st) = None.
Proof.
  destruct (processCmdLine_registry_joined (λ _, None) ["device"]
              ["--name=probe"; "last"] "--registry" "consul://registry:8500"
              zero_fields)
    as (st & Hst & _ & Hvis & Hsvc & _).
  - done.
  - apply (bool_decide_unpack _). vm_compute. exact I.
  - apply (bool_decide_unpack _). vm_compute. exact I.
  - right. reflexivity.
  - reflexivity.
  - exists st. split; [exact Hst|]. split; [exact Hvis|]. by rewrite Hsvc.
Defined.

(** An option that takes a value and has none. *)
Lemma processCmdLine_missing_parameter_spec (getenv : string → option string)
    (pre post args : list string) (o : value_option) (opt : string)
    (svc : cmdline_fields) :
  pre ≠ [] → Forall (λ a, plain a = true) (tail pre) →
  opt = option_short o ∨ opt = option_long o →
  (args = [opt] ∧ post = []) ∨ args = [opt; ""] ∨ args = [joined opt ""] →
  ∃ st,
    processCmdLine getenv (Z.of_nat (length (pre ++ args ++ post)))
      (pre ++ args ++ post) svc = Some st
    ∧ cl_result st = false
    ∧ cl_stdout st = [requires_parameter opt].
Proof.
  intros Hpre Hplain Hopt Hargs.
  assert (args ≠ []) as Hne by (by destruct Hargs as [[-> _] | [-> | ->]]).
  assert (0 < length pre)%nat as Hlen by (destruct pre; simpl; [done | lia]).
  pose proof (option_spelling_no_eq o opt Hopt) as Hnoeq.
  rewrite processCmdLine_one_group by done.
  set (argv := pre ++ args ++ post).
  assert (length argv = (length pre + (length args + length post))%nat) as Hlenv
    by (unfold argv; by rewrite !length_app).
  assert (0 < length args)%nat by (destruct args; simpl; [done | lia]).
  assert (∃ arg0, argv !! length pre = Some arg0 ∧ cut_at arg0 "=" = opt
                  ∧ nonempty (value_at (Z.of_nat (length argv)) argv
                                (Z.of_nat (length pre)) arg0) = false)
    as (arg0 & Harg0 & Hcut & Hval).
  { destruct Hargs as [[-> ->] | [-> | ->]].
    - exists opt. split.
      { unfold argv. by rewrite lookup_app_r, Nat.sub_diag by lia. }
      destruct (value_at_next (Z.of_nat (length argv)) argv (Z.of_nat (length pre)) opt)
        as [-> ->]; [done|lia|]. split; [done|].
      by destruct (Z.ltb_spec (Z.of_nat (length pre) + 1) (Z.of_nat (length argv)));
        [simpl in *; lia|].
    - exists opt. split.
      { unfold argv. by rewrite lookup_app_r, Nat.sub_diag by lia. }
      destruct (value_at_next (Z.of_nat (length argv)) argv (Z.of_nat (length pre)) opt)
        as [-> ->]; [done|lia|]. split; [done|].
      destruct (Z.ltb_spec (Z.of_nat (length pre) + 1) (Z.of_nat (length argv)));
        [|done].
      unfold argv. rewrite Nat2Z.id, lookup_app_r by lia.
      by replace (S (length pre) - length pre)%nat with 1%nat by lia.
    - exists (joined opt ""). split.
      { unfold argv. by rewrite lookup_app_r, Nat.sub_diag by lia. }
      destruct (value_at_joined (Z.of_nat (length argv)) argv (Z.of_nat (length pre))
                  opt "") as (-> & -> & _); done. }
  destruct (cmdline_body_value_option
              (CmdState true (Z.of_nat (length pre)) (Z.of_nat (length argv)) argv
                 (with_environment getenv svc) []) o arg0)
    as (argc' & argv' & Hc & ->);
    cbn [cl_result cl_n cl_argc cl_argv cl_svc cl_stdout] in *; [done|lia|lia| | |].
  { by rewrite Nat2Z.id. }
  { by rewrite Hcut. }
  rewrite Hval, Hcut. rewrite cmdline_loop_failed by done.
  eexists. split; [reflexivity|]. done.
Qed.

Lemma fields_set_nonempty_zero (getenv : string → option string) :
  fields_set_nonempty (with_environment getenv zero_fields).
Proof.
  unfold with_environment. intros o v.
  destruct (getenv "edgex_registry"); by destruct o.
Qed.

(** X11: a service made with one option on the command line: when the
    command line holds [-n], [-p] or [-c], in the short or the long
    spelling, with a value that is not empty in the next argument or after
    [=] in the same one, and no other option, [devsdk_service_new] gives a
    service whose name, profile or configuration directory is that value,
    the other two being the default name, no profile and ["res"]; the
    option and its value are taken out of the array and the other
    arguments are left in their order. *)
Theorem devsdk_service_new_value_option {A : Type}
    (getenv : string → option string) (defaultname version : string) (impl : A)
    (pre post args : list string) (o : value_option) (opt v : string) :
  defaultname ≠ "" → version ≠ "" →
  pre ≠ [] → Forall (λ a, plain a = true) (tail pre) →
  Forall (λ a, plain a = true) post →
  opt = option_short o ∨ opt = option_long o → v ≠ "" →
  args = [opt; v] ∨ args = [joined opt v] →
  ∃ out s,
    devsdk_service_new getenv (Some defaultname) (Some version) (Some impl)
      (Z.of_nat (length (pre ++ args ++ post))) (pre ++ args ++ post) = Some out
    ∧ new_service out = Some s ∧ new_err out = EDGEX_OK
    ∧ visible (new_argc out) (new_argv out) = pre ++ post
    ∧ svc_name s = (match o with OptName => v | _ => defaultname end)
    ∧ svc_profile s = (match o with OptProfile => Some v | _ => None end)
    ∧ svc_confdir s = (match o with OptConfdir => v | _ => "res" end)
    ∧ svc_version s = version
    ∧ svc_regURL s = getenv "edgex_registry".
Proof.
  intros Hd Hver Hpre Hplain Hpost Hopt Hv Hargs.
  destruct (processCmdLine_value_option_spec getenv pre post args o opt v zero_fields)
    as (st & Hst & Hres & Hvis & Hsvc & Hout); [done..|].
  unfold devsdk_service_new.
  rewrite !nonempty_Some_ne by done. simpl negb. cbv iota.
  rewrite Hst, Hres. simpl negb. cbv iota.
  rewrite Hsvc. unfold with_environment.
  destruct (getenv "edgex_registry"); destruct o;
    (eexists; eexists; split; [reflexivity|]; simpl; done).
Qed.

Lemma devsdk_service_new_value_option_witness :
  ∃ out s,
    devsdk_service_new (λ _, None) (Some "device-sample") (Some "1.0") (Some tt) 5
      ["device"; "extra"; "--name"; "probe"; "last"] = Some out
    ∧ new_service out = Some s
    ∧ visible (new_argc out) (new_argv out) = ["device"; "extra"; "last"]
    ∧ svc_name s = "probe" ∧ svc_confdir s = "res".
Proof.
  destruct (devsdk_service_new_value_option (λ _, None) "device-sample" "1.0" tt
              ["device"; "extra"] ["last"] ["--name"; "probe"] OptName "--name" "probe")
    as (out & s & Hout & Hs & _ & Hvis & Hname & _ & Hconfdir & _).
  - done.
  - done.
  - done.
  - apply (bool_decide_unpack _). vm_compute. exact I.
  - apply (bool_decide_unpack _). vm_compute. exact I.
  - right. reflexivity.
  - done.
  - left. reflexivity.
  - exists out, s. split; [exact Hout|]. split; [exact Hs|].
    split; [exact Hvis|]. split; [exact Hname | exact Hconfdir].
Defined.

(** X12: an option without its parameter makes the construction fail: when
    [-n], [-p] or [-c], in either spelling, is the last argument, or is
    followed by an empty argument, or is joined by [=] to nothing, and no
    option stands before it, [devsdk_service_new] gives no service and the
    error [EDGEX_INVALID_ARG], after one line on the standard output that
    names the option; nothing is logged. *)
Theorem devsdk_service_new_missing_parameter {A : Type}
    (getenv : string → option string) (defaultname version : string) (impl : A)
    (pre post args : list string) (o : value_option) (opt : string) :
  defaultname ≠ "" → version ≠ "" →
  pre ≠ [] → Forall (λ a, plain a = true) (tail pre) →
  opt = option_short o ∨ opt = option_long o →
  (args = [opt] ∧ post = []) ∨ args = [opt; ""] ∨ args = [joined opt ""] →
  ∃ out,
    devsdk_service_new getenv (Some defaultname) (Some version) (Some impl)
      (Z.of_nat (length (pre ++ args ++ post))) (pre ++ args ++ post) = Some out
    ∧ new_service out = None ∧ new_err out = EDGEX_INVALID_ARG
    ∧ new_stdout out = [requires_parameter opt]
    ∧ new_log out = [].
Proof.
  intros Hd Hver Hpre Hplain Hopt Hargs.
  destruct (processCmdLine_missing_parameter_spec getenv pre post args o opt zero_fields)
    as (st & Hst & Hres & Hout); [done..|].
  unfold devsdk_service_new.
  rewrite !nonempty_Some_ne by done. simpl negb. cbv iota.
  rewrite Hst, Hres. simpl negb. cbv iota.
  eexists. split; [reflexivity|]. done.
Qed.

Lemma devsdk_service_new_missing_parameter_witness :
  ∃ out,
    devsdk_service_new (λ _, None) (Some "device-sample") (Some "1.0") (Some tt) 3
      ["device"; "extra"; "--confdir"] = Some out
    ∧ new_service out = None ∧ new_err out = EDGEX_INVALID_ARG.
Proof.
  destruct (devsdk_service_new_missing_parameter (λ _, None) "device-sample" "1.0" tt
              ["device"; "extra"] [] ["--confdir"] OptConfdir "--confdir")
    as (out & Hout & Hs & Herr & _).
  - done.
  - done.
  - done.
  - apply (bool_decide_unpack _). vm_compute. exact I.
  - right. reflexivity.
  - left. split; reflexivity.
  - exists out. split; [exact Hout|]. split; [exact Hs | exact Herr].
Defined.

(** X16: what [devsdk_service_new] gives, whatever its arguments: it keeps
    within the argument array; it gives a service exactly when it reports
    no error; a service that it gives has a name, a version and a
    configuration directory that are not empty, a profile that is not
    empty if it has one, no registry connection and no HTTP server; and
    the arguments left visible are arguments received, in the order
    received. Without an implementation object, a default name or a
    version, the array is not touched at all. *)
Theorem devsdk_service_new_outcome {A : Type} (getenv : string → option string)
    (defaultname version : option string) (impldata : option A)
    (argc : Z) (argv : list string) :
  argc ≤ Z.of_nat (length argv) →
  ∃ out,
    devsdk_service_new getenv defaultname version impldata argc argv = Some out
    ∧ visible (new_argc out) (new_argv out) `sublist_of` visible argc argv
    ∧ length (new_argv out) = length argv
    ∧ match new_service out with
      | Some s =>
          new_err out = EDGEX_OK
          ∧ svc_name s ≠ "" ∧ svc_version s ≠ "" ∧ svc_confdir s ≠ ""
          ∧ svc_profile s ≠ Some ""
          ∧ svc_registry s = None ∧ svc_daemon s = None
          ∧ new_stdout out = []
      | None => code (new_err out) = true
      end
    ∧ (impldata = None ∨ nonempty defaultname = false ∨ nonempty version = false →
       new_service out = None ∧ new_argc out = argc ∧ new_argv out = argv).
Proof.
  intros Hargc. unfold devsdk_service_new.
  destruct impldata as [impl|].
  2: { eexists. split; [reflexivity|]. simpl. repeat split; done. }
  destruct (nonempty defaultname) eqn:Hd; simpl negb; cbv iota.
  2: { eexists. split; [reflexivity|]. simpl. repeat split; done. }
  destruct (nonempty version) eqn:Hv; simpl negb; cbv iota.
  2: { eexists. split; [reflexivity|]. simpl. repeat split; done. }
  unfold processCmdLine. fold (with_environment getenv zero_fields).
  destruct (cmdline_loop_inv (Z.to_nat argc)
              (CmdState true 1 argc argv (with_environment getenv zero_fields) []))
    as (st & Hloop & _ & Hle & Hpos & Hlen & Htake & Hsub & Hf & Hout);
    cbn [cl_result cl_n cl_argc cl_argv cl_svc cl_stdout] in *; [lia..|].
  rewrite Hloop. specialize (Hf (fields_set_nonempty_zero getenv)).
  specialize (Hout eq_refl).
  destruct (cl_result st); simpl negb; cbv iota.
  - eexists. split; [reflexivity|].
    cbn [new_service new_err new_argc new_argv new_stdout svc_name svc_profile
         svc_confdir svc_version svc_regURL svc_registry svc_daemon].
    split; [done|]. split; [done|]. split.
    + split; [done|]. split.
      { destruct (cf_name (cl_svc st)) as [n|] eqn:E.
        - by apply (Hf OptName).
        - by destruct defaultname as [[|]|]. }
      split; [by destruct version as [[|]|]|]. split.
      { destruct (cf_confdir (cl_svc st)) as [c|] eqn:E; [|done].
        by apply (Hf OptConfdir). }
      split; [|done]. intros E. by apply (Hf OptProfile ""). 
    + intros [? | [? | ?]]; done.
  - eexists. split; [reflexivity|]. simpl. split; [done|]. split; [done|].
    split; [done|]. intros [? | [? | ?]]; done.
Qed.

Lemma devsdk_service_new_outcome_witness :
  ∃ out,
    devsdk_service_new (λ _, None) (Some "device-sample") (Some "1.0") (Some tt) 3
      ["device"; "-p"; "thermometer"] = Some out
    ∧ length (new_argv out) = 3%nat.
Proof.
  destruct (devsdk_service_new_outcome (λ _, None) (Some "device-sample")
              (Some "1.0") (Some tt) 3 ["device"; "-p"; "thermometer"])
    as (out & Hout & _ & Hlen & _).
  - simpl. lia.
  - exists out. split; [exact Hout | exact Hlen].
Defined.

(** X17: a service made from a command line without options: with an
    implementation object, a default name and a version that are not
    empty, and no option among the arguments, [devsdk_service_new] gives a
    service with the default name, the version, the configuration
    directory ["res"], no profile, and for registry location what the
    environment variable [edgex_registry] holds, if anything; the count
    and the array are left as they are. *)
Theorem devsdk_service_new_defaults {A : Type} (getenv : string → option string)
    (defaultname version : string) (impl : A) (argc : Z) (argv : list string) :
  defaultname ≠ "" → version ≠ "" → argc ≤ Z.of_nat (length argv) →
  Forall (λ a, plain a = true) (drop 1 (visible argc argv)) →
  ∃ out s,
    devsdk_service_new getenv (Some defaultname) (Some version) (Some impl)
      argc argv = Some out
    ∧ new_service out = Some s ∧ new_err out = EDGEX_OK
    ∧ new_argc out = argc ∧ new_argv out = argv
    ∧ new_stdout out = [] ∧ new_log out = []
    ∧ svc_name s = defaultname ∧ svc_version s = version
    ∧ svc_confdir s = "res" ∧ svc_profile s = None
    ∧ svc_regURL s = getenv "edgex_registry"
    ∧ svc_devices s = ∅ ∧ svc_watchlist s = [].
Proof.
  intros Hd Hver Hargc Hplain. unfold devsdk_service_new.
  rewrite !nonempty_Some_ne by done. simpl negb. cbv iota.
  unfold processCmdLine. fold (with_environment getenv zero_fields).
  rewrite cmdline_loop_plain;
    cbn [cl_result cl_n cl_argc cl_argv cl_svc cl_stdout]; [|done|lia|lia|lia|done].
  simpl negb. cbv iota. unfold with_environment.
  destruct (getenv "edgex_registry");
    (eexists; eexists; split; [reflexivity|]; simpl; done).
Qed.

Lemma devsdk_service_new_defaults_witness :
  ∃ out s,
    devsdk_service_new (λ _, None) (Some "device-sample") (Some "1.0") (Some tt) 2
      ["device"; "--verbose"] = Some out
    ∧ new_service out = Some s
    ∧ svc_name s = "device-sample" ∧ svc_confdir s = "res".
Proof.
  destruct (devsdk_service_new_defaults (λ _, None) "device-sample" "1.0" tt 2
              ["device"; "--verbose"])
    as (out & s & Hout & Hs & _ & _ & _ & _ & _ & Hname & _ & Hconfdir & _).
  - done.
  - done.
  - simpl. lia.
  - apply (bool_decide_unpack _). vm_compute. exact I.
  - exists out, s. split; [exact Hout|]. split; [exact Hs|].
    split; [exact Hname | exact Hconfdir].
Defined.

(** * Further properties of the lifecycle *)

(** ** [ping_client] *)

(** The countdown of an [int] that is not 0 has one step less to go after
    the decrement. *)
Lemma countdown_step (n : Z) :
  INT_MIN ≤ n ≤ INT_MAX → n ≠ 0 →
  INT_MIN ≤ to_int (n - 1) ≤ INT_MAX
  ∧ countdown n = S (countdown (to_int (n - 1))).
Proof.
  unfold countdown, to_int, INT_MIN, INT_MAX, INT_MODULUS. intros Hn Hn0.
  change (2 ^ 32 / 2) with (2 ^ 31).
  split; [pose proof (Z.mod_pos_bound (n - 1 + 2 ^ 31) (2 ^ 32)); lia|].
  rewrite <- Z2Nat.inj_succ by (apply Z.mod_pos_bound; lia).
  f_equal.
  rewrite Zminus_mod_idemp_l.
  replace (n - 1 + 2 ^ 31 - 2 ^ 31) with (n - 1) by lia.
  destruct (Z.lt_ge_cases n 0) as [Hneg|Hpos].
  - rewrite <- (Z_mod_plus_full n 1 (2 ^ 32)), <- (Z_mod_plus_full (n - 1) 1 (2 ^ 32)).
    rewrite !Z.mod_small by lia. lia.
  - rewrite !Z.mod_small by lia. lia.
Qed.

Lemma countdown_zero : countdown 0 = 0%nat.
Proof. reflexivity. Qed.

Lemma countdown_nonneg (n : Z) : 0 ≤ n → Z.of_nat (countdown n) ≤ n.
Proof.
  intros Hn. unfold countdown, INT_MODULUS.
  rewrite Z2Nat.id by (apply Z.mod_pos_bound; lia).
  apply Z.mod_le; lia.
Qed.

Lemma countdown_int (n : Z) : 0 ≤ n ≤ INT_MAX → Z.of_nat (countdown n) = n.
Proof.
  unfold countdown, INT_MODULUS, INT_MAX. intros Hn.
  rewrite Z.mod_small by lia. lia.
Qed.

Lemma ping_client_loop_attempts env fuel sname u n d s f s' :
  ping_client_loop env fuel sname u n d s = (f, s') →
  ∃ tr,
    st_trace s' = st_trace s ++ tr
    ∧ Forall (ping_event u d) tr
    ∧ (1 ≤ count is_http_get tr ≤ S fuel)%nat
    ∧ (count is_nanosleep tr ≤ fuel)%nat
    ∧ count is_error_log tr = 0%nat
    ∧ st_svc s' = st_svc s ∧ st_metadata s' = st_metadata s
    ∧ match f with
      | Return b => b = true ∧ st_err s' = EDGEX_OK
      | Next _ =>
          code (st_err s') = true
          ∧ ((∀ h, env_nanosleep env h = 0) →
             INT_MIN ≤ n ≤ INT_MAX → fuel = countdown n →
             count is_http_get tr = S fuel ∧ count is_nanosleep tr = fuel)
      end
    ∧ ((∀ h v, code (env_http_get env h v) = true) → f = Next tt).
Proof.
  revert n s f s'. induction fuel as [|fuel IH]; intros n s f s'; simpl; intros H.
  - exec_red_in H.
    destruct (negb (code (env_http_get env (st_trace s) u))) eqn:Hc;
      [|destruct (Z.eqb_spec n 0) as [Hn0|Hn0]].
    all: exec_in H.
    all: eexists; split; [trace_eq|].
    all: split; [repeat constructor|].
    all: cbn [count List.filter is_http_get is_nanosleep is_error_log length app].
    all: repeat split; try done; try lia.
    all: try (by apply negb_code_true).
    all: try (by destruct (env_http_get env (st_trace s) u)).
    intros Hfail. specialize (Hfail (st_trace s) u).
    destruct (env_http_get env (st_trace s) u); done.
  - exec_red_in H.
    destruct (negb (code (env_http_get env (st_trace s) u))) eqn:Hc;
      [|destruct (Z.eqb_spec n 0) as [Hn0|Hn0]].
    + exec_in H. eexists. split; [trace_eq|].
      split; [repeat constructor|].
      cbn [count List.filter is_http_get is_nanosleep is_error_log length app].
      repeat split; try done; try lia.
      * by apply negb_code_true.
      * intros Hfail. specialize (Hfail (st_trace s) u).
        destruct (env_http_get env (st_trace s) u); done.
    + exec_in H. eexists. split; [trace_eq|].
      split; [repeat constructor|].
      cbn [count List.filter is_http_get is_nanosleep is_error_log length app].
      repeat split; try done; try lia.
      all: try (by destruct (env_http_get env (st_trace s) u)).
      all: subst n; rewrite countdown_zero in *; lia.
    + exec_red_in H. destruct (env_nanosleep env _ =? 0) eqn:Hz.
      * apply IH in H
          as (tr & Htr & Hall & Hget & Hsleep & Hlog & Hsvc & Hmd & Hf & Hfail).
        cbn [st_svc st_err st_trace st_metadata] in *.
        exists ([Ev_http_get u; Ev_nanosleep d] ++ tr).
        split; [by rewrite Htr, <- !app_assoc|].
        split; [apply Forall_app; split; [by repeat constructor | done]|].
        unfold count in *. rewrite !List.filter_app, !length_app. simpl.
        repeat split; try done; try lia.
        destruct f; [done|]. destruct Hf as [Hcode Hexact].
        split; [done|]. intros Hs Hn Hfuel.
        destruct (countdown_step n Hn Hn0) as [Hn' Hstep].
        destruct (Hexact Hs Hn') as [-> ->]; lia.
      * exec_in H. eexists. split; [trace_eq|].
        split; [repeat constructor|].
        cbn [count List.filter is_http_get is_nanosleep is_error_log length app].
        repeat split; try done; try lia.
        all: try (by destruct (env_http_get env (st_trace s) u)).
        all: match goal with Hs : ∀ h, env_nanosleep _ h = 0 |- _ =>
               by rewrite Hs in Hz end.
Qed.

(** The calls of [ping_client] and the state it leaves. *)
Lemma ping_client_events env sname ep retries delay s b s' :
  run (ping_client env sname ep retries delay) s = (b, s') →
  ∃ tr,
    st_trace s' = st_trace s ++ tr
    ∧ Forall (ping_event (ping_url ep) delay) tr
    ∧ st_svc s' = st_svc s ∧ st_metadata s' = st_metadata s
    ∧ (if b then st_err s' = EDGEX_OK else code (st_err s') = true).
Proof.
  unfold ping_client, run, ping_url. intros H.
  destruct (ep_host ep) as [host|] eqn:Hhost;
    [destruct (ep_port ep =? 0) eqn:Hport|].
  1,3: exec_in H; eexists; (split; [trace_eq|]); (split; [repeat constructor|]);
       done.
  unfold bind at 1 in H. simpl default.
  destruct (ping_client_loop _ _ _ _ _ _ s) as [[r|[]] s1] eqn:Hloop;
    apply ping_client_loop_attempts in Hloop
      as (tr & Htr & Hall & _ & _ & _ & Hsvc & Hmd & Hf & _).
  - exec_in H. destruct Hf as [-> Herr]. by exists tr.
  - exec_in H. eexists. split; [trace_eq|].
    split; [apply Forall_app; split; [done | by repeat constructor]|]. done.
Qed.

(** X18: [ping_client], given a retry count that is not negative, makes at
    most [retries + 1] requests, all to [http://host:port/api/v1/ping],
    with at most [retries] pauses of [delay] between them; whatever the
    sign of the count, the requests are at most one more than the
    decrements that take it to 0, which for a negative count are
    [retries + 2^32], the countdown being taken to wrap around. It changes
    neither the service nor metadata. It gives true exactly when it leaves
    no error, without an error entry in the log; it gives false with one
    error entry and the error [EDGEX_BAD_CONFIG] if the endpoint has no
    host or the port 0, in which case no request is made at all, and the
    error [EDGEX_REMOTE_SERVER_DOWN] otherwise, after at least one
    request. *)
Theorem ping_client_attempts env sname ep retries delay s b s' :
  INT_MIN ≤ retries ≤ INT_MAX →
  run (ping_client env sname ep retries delay) s = (b, s') →
  ∃ tr,
    st_trace s' = st_trace s ++ tr
    ∧ Forall (ping_event (ping_url ep) delay) tr
    ∧ (count is_http_get tr ≤ S (countdown retries))%nat
    ∧ (count is_nanosleep tr ≤ countdown retries)%nat
    ∧ (0 ≤ retries →
       Z.of_nat (count is_http_get tr) ≤ retries + 1
       ∧ Z.of_nat (count is_nanosleep tr) ≤ retries)
    ∧ st_svc s' = st_svc s ∧ st_metadata s' = st_metadata s
    ∧ (b = true ↔ st_err s' = EDGEX_OK)
    ∧ (if b then count is_error_log tr = 0%nat
       else count is_error_log tr = 1%nat
            ∧ (endpoint_missing ep →
               st_err s' = EDGEX_BAD_CONFIG ∧ count is_http_get tr = 0%nat)
            ∧ (¬ endpoint_missing ep →
               st_err s' = EDGEX_REMOTE_SERVER_DOWN
               ∧ (1 ≤ count is_http_get tr)%nat)).
Proof.
  unfold ping_client, run, endpoint_missing, ping_url. intros _ H.
  destruct (ep_host ep) as [host|] eqn:Hhost;
    [destruct (Z.eqb_spec (ep_port ep) 0) as [Hport|Hport]|].
  1,3: exec_in H; eexists; (split; [trace_eq|]); (split; [repeat constructor|]);
       cbn [count List.filter is_http_get is_nanosleep is_error_log length app];
       repeat split; try done; try lia;
       match goal with Hm : ¬ _ |- _ => exfalso; apply Hm; auto end.
  unfold bind at 1 in H. simpl default.
  destruct (ping_client_loop _ _ _ _ _ _ s) as [[r|[]] s1] eqn:Hloop;
    apply ping_client_loop_attempts in Hloop
      as (tr & Htr & Hall & Hget & Hsleep & Hlog & Hsvc & Hmd & Hf & _).
  - exec_in H. destruct Hf as [-> Herr]. exists tr.
    do 4 (split; [done || lia|]).
    split; [intros Hpos; apply countdown_nonneg in Hpos; lia|].
    repeat split; try done; lia.
  - exec_in H. destruct Hf as [Hcode Hexact].
    exists (tr ++ [Ev_log LOG_ERROR "Can't connect to %s service at %s:%d"
                     [sname; host]]).
    split; [by rewrite Htr, app_assoc|].
    split; [apply Forall_app; split; [done | by repeat constructor]|].
    unfold count in *. rewrite !List.filter_app, !length_app. simpl.
    do 2 (split; [lia|]).
    split; [intros Hpos; apply countdown_nonneg in Hpos; lia|].
    repeat split; try done; try lia.
    all: match goal with Hm : _ ∨ _ |- _ => by destruct Hm end.
Qed.

Lemma ping_client_attempts_witness :
  let s := sample_state (sample_service None None) empty_metadata in
  let r := run (ping_client calm_env "core-data" (Endpoint (Some "core-data") 48080)
                  2 (Timespec 1 0)) s in
  ∃ tr, st_trace r.2 = st_trace s ++ tr ∧ Z.of_nat (count is_http_get tr) ≤ 3.
Proof.
  intros s r.
  destruct (ping_client_attempts calm_env "core-data"
              (Endpoint (Some "core-data") 48080) 2 (Timespec 1 0) s r.1 r.2)
    as (tr & Htr & _ & _ & _ & Hget & _).
  - vm_compute. split; discriminate.
  - reflexivity.
  - exists tr. split; [exact Htr|]. apply Hget. lia.
Defined.

(** X19: when no request is answered and no pause is cut short,
    [ping_client], given a retry count that is not negative, makes exactly
    [retries + 1] requests and [retries] pauses before it gives up with
    [EDGEX_REMOTE_SERVER_DOWN]: the first request and one more for every
    retry. Given a negative count it makes [retries + 2^32 + 1] requests,
    the countdown being taken to wrap around. *)
Theorem ping_client_unanswered env sname ep retries delay s b s' :
  (∀ h v, code (env_http_get env h v) = true) →
  (∀ h, env_nanosleep env h = 0) →
  ¬ endpoint_missing ep →
  INT_MIN ≤ retries ≤ INT_MAX →
  run (ping_client env sname ep retries delay) s = (b, s') →
  ∃ tr,
    st_trace s' = st_trace s ++ tr
    ∧ b = false ∧ st_err s' = EDGEX_REMOTE_SERVER_DOWN
    ∧ Z.of_nat (count is_http_get tr)
      = (if retries <? 0 then retries + INT_MODULUS else retries) + 1
    ∧ Z.of_nat (count is_nanosleep tr)
      = (if retries <? 0 then retries + INT_MODULUS else retries).
Proof.
  unfold ping_client, run, endpoint_missing. intros Hfail Hsleep Hep Hint H.
  destruct (ep_host ep) as [host|] eqn:Hhost; [|exfalso; auto].
  destruct (Z.eqb_spec (ep_port ep) 0) as [Hport|Hport]; [exfalso; auto|].
  unfold bind at 1 in H.
  destruct (ping_client_loop _ _ _ _ _ _ s) as [f s1] eqn:Hloop.
  apply ping_client_loop_attempts in Hloop
    as (tr & Htr & _ & _ & _ & _ & _ & _ & Hf & Hnext).
  rewrite (Hnext Hfail) in *. destruct Hf as [_ Hexact].
  destruct (Hexact Hsleep Hint eq_refl) as [Hg Hs].
  assert (Z.of_nat (countdown retries)
          = if retries <? 0 then retries + INT_MODULUS else retries) as Hcount.
  { unfold countdown, INT_MIN, INT_MAX, INT_MODULUS in *.
    rewrite Z2Nat.id by (apply Z.mod_pos_bound; lia).
    destruct (Z.ltb_spec retries 0).
    - rewrite <- (Z_mod_plus_full retries 1 (2 ^ 32)). apply Z.mod_small. lia.
    - apply Z.mod_small. lia. }
  exec_in H.
  exists (tr ++ [Ev_log LOG_ERROR "Can't connect to %s service at %s:%d"
                   [sname; host]]).
  split; [by rewrite Htr, app_assoc|].
  unfold count in *. rewrite !List.filter_app, !length_app. simpl.
  repeat split; lia.
Qed.

Lemma ping_client_unanswered_witness :
  let s := sample_state (sample_service None None) empty_metadata in
  let r := run (ping_client offline_env "core-data" (Endpoint (Some "core-data") 48080)
                  2 (Timespec 1 0)) s in
  ∃ tr, st_trace r.2 = st_trace s ++ tr ∧ Z.of_nat (count is_http_get tr) = 3.
Proof.
  intros s r.
  destruct (ping_client_unanswered offline_env "core-data"
              (Endpoint (Some "core-data") 48080) 2 (Timespec 1 0) s r.1 r.2)
    as (tr & Htr & _ & _ & Hget & _).
  - reflexivity.
  - reflexivity.
  - intros [H | H]; discriminate H.
  - vm_compute. split; discriminate.
  - reflexivity.
  - exists tr. split; [exact Htr | exact Hget].
Defined.

Lemma foldl_cons_reverse (l acc : list string) :
  foldl (λ acc x, strdup x :: acc) acc l = reverse l ++ acc.
Proof.
  revert acc. induction l as [|x l IH]; intros acc; simpl; [done|].
  by rewrite IH, reverse_cons, <- app_assoc.
Qed.

Lemma ping_event_before_driver u d config (tr : list event) :
  Forall (ping_event u d) tr → forallb (before_driver config) tr = true.
Proof.
  induction 1 as [|e tr He _ IH]; [done|]. simpl. rewrite IH.
  by destruct e.
Qed.

Lemma ping_event_registers_as u d svc myhost (tr : list event) :
  Forall (ping_event u d) tr → Forall (registers_as svc myhost) tr.
Proof. intros H. eapply Forall_impl; [exact H|]. by intros []. Qed.

Lemma registers_as_ext svc svc' myhost e :
  svc_name svc' = svc_name svc → svc_config svc' = svc_config svc →
  registers_as svc myhost e → registers_as svc' myhost e.
Proof. unfold registers_as. by intros -> ->. Qed.

Lemma early_part_seq env config myhost (m k : M unit unit) :
  early_part env config myhost m → early_part env config myhost k →
  early_part env config myhost (m ;; k)%prog.
Proof.
  intros Hm Hk s f s' H.
  apply bind_inv in H as [([] & Hr & ->) | ([] & s1 & Ha & H)].
  - by apply Hm in Hr.
  - apply Hm in Ha as (tr1 & Htr1 & Hall1 & Hreg1 & Hn1 & Hc1 & Hr1 & _).
    apply Hk in H as (tr2 & Htr2 & Hall2 & Hreg2 & Hn2 & Hc2 & Hr2 & Hf).
    exists (tr1 ++ tr2). split; [by rewrite Htr2, Htr1, app_assoc|].
    split; [by rewrite forallb_app, Hall1, Hall2|].
    split.
    { apply Forall_app. split; [done|].
      eapply Forall_impl; [exact Hreg2|]. intros e. by apply registers_as_ext. }
    split; [congruence|]. split; [congruence|]. split; [congruence|]. done.
Qed.

(** Closes the case of a path that has been run to its end. *)
Ltac early_explicit :=
  eexists; split; [trace_eq|]; split; [reflexivity|];
  split; [rewrite ?foldl_cons_reverse, ?app_nil_r; repeat constructor|];
  repeat split; first [done | assumption | reflexivity].

Lemma sc_wait_for_services_early env config myhost :
  early_part env config myhost (sc_wait_for_services env).
Proof.
  intros s f s' H. unfold sc_wait_for_services in H.
  unfold get_svc, bind at 1 in H. cbv beta iota in H.
  unfold bind at 1, call at 1 in H.
  destruct (run (ping_client env "core-data" _ _ _) s) as [b1 s1] eqn:Hp1.
  apply ping_client_events in Hp1 as (tr1 & Htr1 & Hall1 & Hsvc1 & Hmd1 & Hb1).
  destruct b1; cbn [negb when] in H.
  - unfold bind at 1, ret at 1 in H. cbv beta iota in H.
    unfold bind at 1, call at 1 in H.
    destruct (run (ping_client env "core-metadata" _ _ _) s1) as [b2 s2] eqn:Hp2.
    apply ping_client_events in Hp2 as (tr2 & Htr2 & Hall2 & Hsvc2 & Hmd2 & Hb2).
    destruct b2; cbn [negb when] in H; exec_in H.
    all: exists (tr1 ++ tr2); split; [by rewrite Htr2, Htr1, app_assoc|].
    all: split; [by rewrite forallb_app, !(ping_event_before_driver _ _ _ _ Hall1),
                      !(ping_event_before_driver _ _ _ _ Hall2)|].
    all: split; [apply Forall_app; split; by eapply ping_event_registers_as|].
    all: rewrite Hsvc2, Hsvc1; done.
  - exec_in H. exists tr1. split; [done|].
    split; [by eapply ping_event_before_driver|].
    split; [by eapply ping_event_registers_as|]. by rewrite Hsvc1.
Qed.

Lemma sc_register_deviceservice_early env config myhost :
  early_part env config myhost (sc_register_deviceservice env myhost).
Proof.
  intros s f s' H. unfold sc_register_deviceservice in H. exec_in H.
  all: early_explicit.
Qed.

Lemma sc_load_devices_early env config myhost :
  early_part env config myhost (sc_load_devices env).
Proof.
  intros s f s' H. unfold sc_load_devices in H. exec_in H; early_explicit.
Qed.

Lemma sc_start_rest_server_early env config myhost :
  early_part env config myhost (sc_start_rest_server env).
Proof.
  intros s f s' H. unfold sc_start_rest_server in H. exec_in H; early_explicit.
Qed.

Lemma sc_configured_devices_early env config myhost :
  early_part env config myhost (sc_configured_devices env config).
Proof.
  intros s f s' H. unfold sc_configured_devices in H.
  destruct config; exec_in H; early_explicit.
Qed.

Lemma seq_assoc (a b c : M unit unit) s :
  (a ;; (b ;; c))%prog s = ((a ;; b) ;; c)%prog s.
Proof. unfold bind. by destruct (a s) as [[r|[]] s1]. Qed.

(** A run of [startConfigured] goes through the parts that come before the
    driver, and stops there with an error or goes on with the driver. *)
Lemma startConfigured_course env config s s' :
  run (startConfigured env config) s = (tt, s') →
  ∃ tr s1,
    st_trace s1 = st_trace s ++ tr
    ∧ forallb (before_driver config) tr = true
    ∧ Forall (registers_as (st_svc s) (myhost_of env (st_svc s))) tr
    ∧ svc_name (st_svc s1) = svc_name (st_svc s)
    ∧ svc_config (st_svc s1) = svc_config (st_svc s)
    ∧ svc_registry (st_svc s1) = svc_registry (st_svc s)
    ∧ ((s' = s1 ∧ code (st_err s') = true)
       ∨ run (sc_from_driver env (myhost_of env (st_svc s))) s1 = (tt, s')).
Proof.
  intros H. apply run_inv in H as (f & H & Hf).
  unfold startConfigured in H.
  apply bind_inv in H as [(r & [=] & _) | (svc & s0 & [= <- <-] & H)].
  apply bind_inv in H as [(r & [=] & _) | ([] & s0 & [= <-] & H)].
  set (myhost := myhost_of env (st_svc s)) in *.
  rewrite 4 seq_assoc in H.
  assert (early_part env config myhost
            ((((sc_wait_for_services env ;; sc_register_deviceservice env myhost) ;;
               sc_load_devices env) ;; sc_start_rest_server env) ;;
             sc_configured_devices env config)%prog) as Hearly.
  { apply early_part_seq; [apply early_part_seq; [apply early_part_seq;
      [apply early_part_seq|]|]|].
    - apply sc_wait_for_services_early.
    - apply sc_register_deviceservice_early.
    - apply sc_load_devices_early.
    - apply sc_start_rest_server_early.
    - apply sc_configured_devices_early. }
  apply bind_inv in H as [([] & Hr & ->) | ([] & s1 & Ha & H)].
  - apply Hearly in Hr as (tr & Htr & Hall & Hreg & Hn & Hc & Hg & Herr).
    cbn [st_svc st_trace svc_name svc_config svc_registry with_states] in *.
    exists tr, s'. repeat split; try done. by left.
  - apply Hearly in Ha as (tr & Htr & Hall & Hreg & Hn & Hc & Hg & _).
    cbn [st_svc st_trace svc_name svc_config svc_registry with_states] in *.
    exists tr, s1. repeat split; try done. right.
    apply run_of_raw in H. unfold sc_from_driver.
    rewrite H. by destruct f as [[]|[]].
Qed.

Lemma count_before_driver config (a : event → bool) (tr : list event) :
  forallb (before_driver config) tr = true →
  (∀ e, before_driver config e = true → a e = false) → count a tr = 0%nat.
Proof. apply count_zero_of_forallb. Qed.

Lemma before_driver_excludes config (e : event) :
  before_driver config e = true →
  is_driver_init e = false ∧ is_get_watchers e = false
  ∧ is_scheduler_start e = false ∧ is_other_registration e = false
  ∧ is_register_service e = false ∧ is_registry_call e = false.
Proof.
  destruct e; try done.
  match goal with h : http_handler |- _ => by destruct h end.
Qed.

(** Counts the calls of the kinds that do not come before the driver. *)
Ltac count_early Hall :=
  rewrite ?count_app;
  repeat match goal with
    | |- context [count ?a ?l] =>
        lazymatch type of Hall with
        | forallb (before_driver ?config) l = true =>
            rewrite (count_before_driver config a l Hall)
              by (intros ? ?%before_driver_excludes; tauto)
        end
    end.

(** X20: when the driver refuses to initialise, bring-up fails and goes no
    further: [startConfigured] leaves an error, which is
    [EDGEX_DRIVER_UNSTART] if the driver was asked at all, in which case
    the last thing it does is to log the refusal; it does not fetch the
    provision watchers, does not start the scheduler, registers none of the
    six handlers that come after the driver, and does not register the
    service in the registry. *)
Theorem startConfigured_driver_refuses env config s s' tr :
  (∀ h dc, env_driver_init env h dc = false) →
  run (startConfigured env config) s = (tt, s') →
  st_trace s' = st_trace s ++ tr →
  code (st_err s') = true
  ∧ (count is_driver_init tr = 1%nat →
     st_err s' = EDGEX_DRIVER_UNSTART
     ∧ last tr = Some (Ev_log LOG_ERROR "Protocol driver initialization failed" []))
  ∧ count is_get_watchers tr = 0%nat
  ∧ count is_scheduler_start tr = 0%nat
  ∧ count is_other_registration tr = 0%nat
  ∧ count is_register_service tr = 0%nat.
Proof.
  intros Hrefuse H Htr.
  apply startConfigured_course in H
    as (trp & s1 & Htrp & Hall & _ & _ & _ & _ & [[-> Herr] | Htail]).
  - rewrite Htrp in Htr. apply app_inv_head in Htr as <-.
    split; [done|]. count_early Hall. done.
  - unfold sc_from_driver, sc_driver_init, run in Htail.
    exec_red_in Htail. rewrite Hrefuse in Htail. exec_in Htail.
    rewrite Htrp, <- !app_assoc in Htr. apply app_inv_head in Htr as <-.
    split; [done|]. split.
    { intros _. split; [done|]. by rewrite !app_assoc, last_snoc. }
    count_early Hall. done.
Qed.

Lemma startConfigured_driver_refuses_witness :
  let env := sample_env (λ _, None) (λ _, true) [] EDGEX_OK EDGEX_OK false in
  let s := sample_state (sample_service None None) empty_metadata in
  let s' := (run (startConfigured env (Some sample_toml)) s).2 in
  st_err s' = EDGEX_DRIVER_UNSTART ∧ count is_scheduler_start (st_trace s') = 0%nat.
Proof.
  intros env s s'.
  destruct (startConfigured_driver_refuses env (Some sample_toml) s s' (st_trace s'))
    as (_ & Hinit & _ & Hsched & _).
  - intros h dc. reflexivity.
  - vm_compute. reflexivity.
  - vm_compute. reflexivity.
  - split; [|exact Hsched]. apply Hinit. vm_compute. reflexivity.
Defined.

(** X21: a failure to fetch the provision watchers does not stop bring-up,
    but without a registry it is what bring-up reports: when the service
    uses no registry and the watchers cannot be fetched, [startConfigured]
    leaves an error in every run; in a run that gets as far as asking for
    the watchers, that error is the one of the watchers, it is logged, and
    yet the scheduler is started and the six remaining handlers are
    registered. *)
Theorem startConfigured_watchers_unavailable env config s s' tr :
  svc_registry (st_svc s) = None →
  (∀ h, code (env_get_watchers env h).1 = true) →
  run (startConfigured env config) s = (tt, s') →
  st_trace s' = st_trace s ++ tr →
  code (st_err s') = true
  ∧ (count is_get_watchers tr = 1%nat →
     (∃ h, st_err s' = (env_get_watchers env h).1)
     ∧ Ev_log LOG_ERROR "Unable to retrieve provision watchers from metadata" [] ∈ tr
     ∧ count is_scheduler_start tr = 1%nat
     ∧ count is_other_registration tr = 6%nat).
Proof.
  intros Hreg Hfail H Htr.
  apply startConfigured_course in H
    as (trp & s1 & Htrp & Hall & _ & _ & _ & Hreg1 & [[-> Herr] | Htail]).
  - rewrite Htrp in Htr. apply app_inv_head in Htr as <-.
    split; [done|]. count_early Hall. done.
  - rewrite Hreg in Hreg1.
    unfold sc_from_driver, sc_driver_init, sc_watchers_and_scheduler,
      sc_register_handlers, sc_ready, run in Htail.
    exec_in Htail.
    all: try congruence.
    all: try match goal with
           | Hc : code (env_get_watchers _ _).1 = false |- _ =>
               rewrite Hfail in Hc; discriminate Hc
           end.
    all: rewrite Htrp, <- !app_assoc in Htr; apply app_inv_head in Htr as <-.
    all: split; [first [done | apply Hfail]|].
    all: count_early Hall; try done.
    all: intros _; split; [by eexists|].
    all: split; [rewrite !elem_of_app, !elem_of_cons; tauto | done].
Qed.

Lemma startConfigured_watchers_unavailable_witness :
  let s := sample_state (sample_service None None) empty_metadata in
  let s' := (run (startConfigured no_watchers_env (Some sample_toml)) s).2 in
  st_err s' = EDGEX_ERROR "watchers unavailable"
  ∧ count is_other_registration (st_trace s') = 6%nat.
Proof.
  intros s s'.
  destruct (startConfigured_watchers_unavailable no_watchers_env (Some sample_toml)
              s s' (st_trace s'))
    as (_ & Hw).
  - reflexivity.
  - intros h. reflexivity.
  - vm_compute. reflexivity.
  - vm_compute. reflexivity.
  - destruct Hw as (_ & _ & _ & Hreg); [vm_compute; reflexivity|].
    split; [vm_compute; reflexivity | exact Hreg].
Defined.

(** X22: what bring-up writes to metadata is written for this service: in
    every run of [startConfigured], an addressable that is created bears
    the name of the service, the method [POST], the protocol [HTTP], the
    resolved host, the configured port and the callback path; a device
    service that is created bears the name of the service and its labels
    in reverse order, and is enabled and unlocked; and an addressable that
    is updated is given the configured port and the resolved host. *)
Theorem startConfigured_registers_service env config s s' tr :
  run (startConfigured env config) s = (tt, s') →
  st_trace s' = st_trace s ++ tr →
  Forall (registers_as (st_svc s) (myhost_of env (st_svc s))) tr.
Proof.
  intros H Htr.
  apply startConfigured_course in H
    as (trp & s1 & Htrp & _ & Hreg & _ & _ & _ & [[-> Herr] | Htail]).
  - rewrite Htrp in Htr. by apply app_inv_head in Htr as <-.
  - unfold sc_from_driver, sc_driver_init, sc_watchers_and_scheduler,
      sc_register_handlers, sc_ready, run in Htail.
    exec_in Htail.
    all: rewrite Htrp, <- !app_assoc in Htr; apply app_inv_head in Htr as <-.
    all: apply Forall_app; split; [done|]; repeat constructor.
Qed.

Lemma startConfigured_registers_service_witness :
  let s := sample_state (sample_service None None) empty_metadata in
  let s' := (run (startConfigured calm_env (Some sample_toml)) s).2 in
  Forall (registers_as (st_svc s) "edge-node") (st_trace s').
Proof.
  intros s s'.
  apply (startConfigured_registers_service calm_env (Some sample_toml) s s'
           (st_trace s')).
  - vm_compute. reflexivity.
  - vm_compute. reflexivity.
Defined.

(** ** The calls of [startConfigured] and of the end of
    [devsdk_service_start] *)

Lemma sc_from_driver_alphabet env myhost s s' :
  run (sc_from_driver env myhost) s = (tt, s') →
  ∃ tr, st_trace s' = st_trace s ++ tr
        ∧ forallb (from_driver (registered s)) tr = true
        ∧ svc_registry (st_svc s') = svc_registry (st_svc s).
Proof.
  unfold sc_from_driver, sc_driver_init, sc_watchers_and_scheduler,
    sc_register_handlers, sc_ready, run, registered.
  intros H. exec_in H.
  all: eexists; split; [trace_eq|].
  all: repeat match goal with
         | Hr : svc_registry (st_svc _) = _ |- _ => rewrite Hr
         end.
  all: split; reflexivity.
Qed.

Lemma startConfigured_calls env config s s' :
  run (startConfigured env config) s = (tt, s') →
  ∃ tr, st_trace s' = st_trace s ++ tr
        ∧ forallb (after_configuration config (registered s)) tr = true
        ∧ svc_registry (st_svc s') = svc_registry (st_svc s).
Proof.
  intros H.
  apply startConfigured_course in H
    as (trp & s1 & Htrp & Hall & _ & _ & _ & Hreg & [[-> Herr] | Htail]).
  - exists trp. split; [done|]. split; [|done].
    apply (forallb_impl _ _ _ Hall). intros e He.
    destruct e; try done; simpl in *; by rewrite He.
  - apply sc_from_driver_alphabet in Htail as (trd & Htrd & Halld & Hregd).
    exists (trp ++ trd). split; [by rewrite Htrd, Htrp, app_assoc|].
    split; [|congruence].
    assert (registered s1 = registered s) as Hr
      by (unfold registered; by rewrite Hreg).
    rewrite Hr in Halld. rewrite forallb_app. apply andb_true_iff. split.
    + apply (forallb_impl _ _ _ Hall). intros e He.
      destruct e; try done; simpl in *; by rewrite He.
    + apply (forallb_impl _ _ _ Halld). intros e He.
      destruct e; try done; simpl in *; rewrite He; by rewrite ?orb_true_r.
Qed.

Lemma ping_event_after_configuration u d config r (tr : list event) :
  Forall (ping_event u d) tr → forallb (after_configuration config r) tr = true.
Proof.
  induction 1 as [|e tr He _ IH]; [done|]. simpl. rewrite IH.
  by destruct e.
Qed.

Lemma log_confpairs_logs (l : devsdk_nvpairs) s f s' :
  log_confpairs l s = (f, s') →
  ∃ tr, f = Next tt ∧ st_trace s' = st_trace s ++ tr
        ∧ forallb is_log tr = true
        ∧ st_svc s' = st_svc s.
Proof.
  revert s. induction l as [|p l IH]; intros s; simpl; intros H.
  - exec_in H. exists []. split; [done|]. split; [by rewrite app_nil_r | done].
  - exec_red_in H. apply IH in H as (tr & -> & Htr & Hall & Hsvc).
    cbn [st_trace st_svc] in *. eexists. split; [done|]. split; [trace_eq|].
    split; [|done]. rewrite forallb_app. simpl. done.
Qed.

Lemma start_endpoints_and_logging_calls env config s f s' :
  start_endpoints_and_logging env config s = (f, s') →
  ∃ tr, st_trace s' = st_trace s ++ tr
        ∧ forallb (after_configuration config (registered s)) tr = true
        ∧ svc_registry (st_svc s') = svc_registry (st_svc s).
Proof.
  unfold start_endpoints_and_logging, registered. intros H. exec_in H.
  all: repeat match goal with
         | Hp : ping_client _ _ _ _ _ _ = _ |- _ =>
             apply run_of_raw, ping_client_events in Hp
               as (trP & HtrP & HallP & HsvcP & _);
             cbn [st_trace st_svc] in HtrP, HsvcP
         end.
  all: rewrite ?HsvcP; cbn [svc_registry with_config with_logger].
  all: eexists; split; [trace_eq|].
  all: repeat match goal with
         | Hr : svc_registry (st_svc _) = _ |- _ => rewrite Hr
         end.
  all: split; [|reflexivity].
  all: rewrite ?forallb_app, ?(ping_event_after_configuration _ _ _ _ _ HallP).
  all: reflexivity.
Qed.

Lemma startConfigured_calls_raw env config s f s' :
  startConfigured env config s = (f, s') →
  ∃ tr, st_trace s' = st_trace s ++ tr
        ∧ forallb (after_configuration config (registered s)) tr = true
        ∧ svc_registry (st_svc s') = svc_registry (st_svc s).
Proof.
  intros H%run_of_raw. destruct f as [[]|[]]; exact (startConfigured_calls _ _ _ _ H).
Qed.

Lemma start_bringup_calls env config confpairs s f s' :
  start_bringup env config confpairs s = (f, s') →
  ∃ tr, st_trace s' = st_trace s ++ tr
        ∧ forallb (after_configuration config (registered s)) tr = true
        ∧ svc_registry (st_svc s') = svc_registry (st_svc s).
Proof.
  unfold start_bringup, registered. intros H. exec_in H.
  all: repeat match goal with
         | Hl : log_confpairs _ _ = _ |- _ =>
             apply log_confpairs_logs in Hl as (trL & HfL & HtrL & HallL & HsvcL);
             cbn [st_trace st_svc] in HtrL, HsvcL; try discriminate HfL
         | Hc : startConfigured _ _ _ = _ |- _ =>
             apply startConfigured_calls_raw in Hc
               as (trS & HtrS & HallS & HregS);
             cbn [st_trace st_svc] in HtrS, HregS
         end.
  all: unfold registered in HallS; rewrite HsvcL in HallS, HregS.
  all: cbn [st_svc svc_registry with_config] in HallS, HregS.
  all: eexists; split; [trace_eq|].
  all: split; [|by rewrite HregS].
  all: rewrite ?forallb_app, ?HallS.
  all: rewrite ?(forallb_impl _ _ _ HallL) by by intros [].
  all: reflexivity.
Qed.

(** ** The course of [devsdk_service_start], with the calls of its end *)

Lemma devsdk_service_start_course env s s' :
  run (devsdk_service_start env) s = (tt, s') →
  ∃ s0 fA sA,
    st_trace s0 = st_trace s ++ [Ev_iot_init; Ev_threadpool_start]
    ∧ same_names s s0
    ∧ svc_regURL (st_svc s0) = svc_regURL (st_svc s)
    ∧ svc_registry (st_svc s0) = svc_registry (st_svc s)
    ∧ start_find_registry env s0 = (fA, sA)
    ∧ match fA with
      | Return _ => s' = sA
      | Next config =>
          ∃ fB sB,
            match svc_registry (st_svc sA) with
            | Some _ => start_registry_config env sA
            | None => (Next (false, []), sA)
            end = (fB, sB)
            ∧ match fB with
              | Return _ => s' = sB
              | Next uc =>
                  ∃ fC sC,
                    start_file_config env config uc.1 uc.2 sB = (fC, sC)
                    ∧ match fC with
                      | Return _ => s' = sC
                      | Next cc =>
                          ∃ trD,
                            st_trace s' = st_trace sC ++ trD
                            ∧ forallb (after_configuration cc.1 (registered sC)) trD
                              = true
                            ∧ svc_registry (st_svc s') = svc_registry (st_svc sC)
                      end
              end
      end.
Proof.
  intros H. apply run_inv in H as (f & H & _).
  unfold devsdk_service_start in H.
  apply bind_inv in H as [(r & [=] & _) | (now & s1 & [= <- <-] & H)].
  apply bind_inv in H as [(r & [=] & _) | ([] & s1 & [= <-] & H)].
  apply bind_inv in H as [(r & [=] & _) | ([] & s2 & [= <-] & H)].
  apply bind_inv in H as [(r & [=] & _) | ([] & s3 & [= <-] & H)].
  apply bind_inv in H as [(r & [=] & _) | ([] & s4 & [= <-] & H)].
  cbn [st_svc st_err st_trace st_metadata] in H.
  match type of H with bind _ _ ?x = _ => set (s0 := x) in * end.
  destruct (start_find_registry env s0) as [fA sA0] eqn:HA.
  exists s0, fA, sA0. split; [subst s0; cbn [st_trace]; by rewrite <- app_assoc|].
  do 4 (split; [done|]).
  apply bind_inv in H as [([] & HA' & ->) | (config & sA & HA' & H)];
    rewrite HA in HA'; injection HA' as -> ->; [done|].
  apply bind_inv in H as [(r & [=] & _) | (svc & sA' & [= <- <-] & H)].
  apply bind_inv in H as [([] & HB & ->) | (uc & sB & HB & H)].
  { exists (Return tt), s'. split; [|done].
    destruct (svc_registry (st_svc sA)); [exact HB | discriminate HB]. }
  exists (Next uc), sB. split.
  { destruct (svc_registry (st_svc sA)); [exact HB|].
    by injection HB as <- <-. }
  apply bind_inv in H as [([] & HC & ->) | (cc & sC & HC & H)].
  { by exists (Return tt), s'. }
  exists (Next cc), sC. split; [done|].
  apply bind_inv in H as [([] & HD & ->) | ([] & sD & HD & H)];
    apply start_endpoints_and_logging_calls in HD as (tr1 & Htr1 & Hall1 & Hreg1).
  { by exists tr1. }
  apply start_bringup_calls in H as (tr2 & Htr2 & Hall2 & Hreg2).
  exists (tr1 ++ tr2). split; [by rewrite Htr2, Htr1, app_assoc|].
  split; [|congruence].
  rewrite forallb_app, Hall1. simpl.
  unfold registered in *. by rewrite Hreg1 in Hall2.
Qed.

Lemma start_file_config_from_file env c s f s' :
  svc_registry (st_svc s) = None →
  start_file_config env None false c s = (f, s') →
  ∃ tr, st_trace s' = st_trace s ++ tr
        ∧ count is_loadConfig tr = 1%nat
        ∧ count is_registry_call tr = 0%nat
        ∧ svc_registry (st_svc s') = None.
Proof.
  intros Hreg H. unfold start_file_config in H. exec_red_in H.
  rewrite Hreg in H. exec_in H.
  all: eexists; split; [trace_eq|]; done.
Qed.

Lemma start_file_config_skipped env c s f s' :
  is_Some (svc_registry (st_svc s)) →
  start_file_config env None false c s = (f, s') →
  s' = s ∧ f = Next (None, c).
Proof.
  intros [r Hreg] H. unfold start_file_config in H. exec_red_in H.
  rewrite Hreg in H. by exec_in H.
Qed.

Lemma count_after_configuration config r (a : event → bool) (tr : list event) :
  forallb (after_configuration config r) tr = true →
  (∀ e, after_configuration config r e = true → a e = false) →
  count a tr = 0%nat.
Proof. apply count_zero_of_forallb. Qed.

(** X23: a service without registry keeps away from the registry: when no
    registry location is given and the service has no registry connection,
    [devsdk_service_start] makes no call to the registry at all, whatever
    happens; it loads the configuration file exactly once, and the service
    is left without registry connection. *)
Theorem devsdk_service_start_without_registry env s s' tr :
  svc_regURL (st_svc s) = None → svc_registry (st_svc s) = None →
  run (devsdk_service_start env) s = (tt, s') →
  st_trace s' = st_trace s ++ tr →
  count is_registry_call tr = 0%nat
  ∧ count is_loadConfig tr = 1%nat
  ∧ svc_registry (st_svc s') = None.
Proof.
  intros Hurl Hreg H Htr.
  apply devsdk_service_start_course in H
    as (s0 & fA & sA & Htr0 & _ & Hurl0 & Hreg0 & HA & H).
  rewrite Hurl in Hurl0. rewrite Hreg in Hreg0.
  unfold start_find_registry in HA. exec_red_in HA. rewrite Hurl0 in HA.
  exec_in HA.
  destruct H as (fB & sB & HB & H). rewrite Hreg0 in HB.
  injection HB as <- <-.
  destruct H as (fC & sC & HC & H). cbn [fst snd] in HC.
  apply start_file_config_from_file in HC as (trC & HtrC & Hload & Hcalls & HregC);
    [|done].
  assert (∀ trD, st_trace s' = st_trace sC ++ trD →
                 tr = [Ev_iot_init; Ev_threadpool_start] ++ trC ++ trD) as Hcut.
  { intros trD HtrD. rewrite HtrD, HtrC, Htr0, <- !app_assoc in Htr.
    by apply app_inv_head in Htr as <-. }
  destruct fC as [[]|cc].
  - subst s'. rewrite (Hcut []) by by rewrite app_nil_r.
    rewrite !count_app, Hload, Hcalls. done.
  - destruct H as (trD & HtrD & HallD & HregD).
    rewrite (Hcut trD HtrD). unfold registered in HallD.
    rewrite HregC in HallD.
    rewrite bool_decide_eq_false_2 in HallD by by intros [? [=]].
    rewrite !count_app, Hload, Hcalls.
    rewrite !(count_after_configuration _ _ _ _ HallD).
    + split; [done|]. split; [done|]. congruence.
    + intros e He. by destruct e.
    + intros e He. by destruct e.
Qed.

Lemma devsdk_service_start_without_registry_witness :
  let s := sample_state (sample_service None None) empty_metadata in
  let s' := (run (devsdk_service_start calm_env) s).2 in
  count is_registry_call (st_trace s') = 0%nat
  ∧ count is_loadConfig (st_trace s') = 1%nat.
Proof.
  intros s s'.
  destruct (devsdk_service_start_without_registry calm_env s s' (st_trace s'))
    as (Hcalls & Hload & _).
  - reflexivity.
  - reflexivity.
  - vm_compute. reflexivity.
  - vm_compute. reflexivity.
  - split; [exact Hcalls | exact Hload].
Defined.

(** X24: a service that finds its configuration in the registry does not
    read the configuration file: when a registry location that is not
    empty is given, and the registry does not answer the request for the
    configuration with an empty list, [devsdk_service_start] never loads
    the configuration file, never uploads a configuration, never reads the
    [Clients] table, and never processes a device list, so that the
    devices listed in the configuration file are not added. *)
Theorem devsdk_service_start_registry_configuration env s s' tr u :
  svc_regURL (st_svc s) = Some u → u ≠ "" →
  (∀ n p, Ev_registry_get_config n p [] ∉ tr) →
  run (devsdk_service_start env) s = (tt, s') →
  st_trace s' = st_trace s ++ tr →
  count is_loadConfig tr = 0%nat
  ∧ count is_put_config tr = 0%nat
  ∧ count is_parseTomlClients tr = 0%nat
  ∧ count is_process_configured tr = 0%nat.
Proof.
  intros Hurl Hu Hfound H Htr.
  apply devsdk_service_start_course in H
    as (s0 & fA & sA & Htr0 & _ & Hurl0 & _ & HA & H).
  rewrite Hurl in Hurl0.
  assert (at_end u = false) as Hend by (by destruct u).
  unfold start_find_registry in HA. exec_red_in HA. rewrite Hurl0, Hend in HA.
  exec_red_in HA. rewrite Hurl0 in HA. exec_in HA.
  2: { (* no registry at that location *)
    cbn [st_trace] in Htr.
    rewrite Htr0, <- !app_assoc in Htr. apply app_inv_head in Htr as <-. done. }
  destruct H as (fB & sB & HB & H).
  apply start_registry_config_spec in HB
    as (trB & HtrB & HallB & _ & _ & HregB & HB).
  cbn [st_svc st_trace svc_registry with_registry svc_name svc_profile] in *.
  assert (∀ trC, st_trace s' = st_trace sB ++ trC →
                 tr = [Ev_iot_init; Ev_threadpool_start; Ev_registry_get_registry u]
                      ++ trB ++ trC) as Hcut.
  { intros trC HtrC. rewrite HtrC, HtrB, Htr0, <- !app_assoc in Htr.
    by apply app_inv_head in Htr as <-. }
  assert (∀ a, (∀ e, phase_registry e = true → a e = false) → count a trB = 0%nat)
    as HcountB by (intros a Ha; by eapply count_zero_of_forallb).
  destruct fB as [[]|uc].
  { subst s'. rewrite (Hcut []) by by rewrite app_nil_r.
    rewrite !count_app, !HcountB by by intros []. done. }
  destruct HB as (found & Hget & ->).
  destruct H as (fC & sC & HC & H). cbn [fst snd] in HC.
  assert (∃ trC, st_trace s' = st_trace sB ++ trC) as [trC HtrC].
  { pose proof HC as HC'.
    apply start_file_config_spec in HC' as (trc & Htrc & _).
    destruct fC as [[]|cc].
    - subst s'. by exists trc.
    - destruct H as (trD & HtrD & _). exists (trc ++ trD).
      by rewrite HtrD, Htrc, app_assoc. }
  destruct found as [|p found].
  { exfalso. eapply Hfound. rewrite (Hcut trC HtrC).
    rewrite !elem_of_app. right. left.
    apply (elem_of_list_filter is_get_config). rewrite Hget. left. }
  apply start_file_config_skipped in HC as [-> ->];
    [|rewrite HregB; by eexists].
  destruct H as (trD & HtrD & HallD & _).
  rewrite (Hcut trD HtrD). unfold registered in HallD.
  rewrite HregB in HallD.
  rewrite bool_decide_eq_true_2 in HallD by by eexists.
  rewrite !count_app, !HcountB by by intros [].
  rewrite !(count_after_configuration _ _ _ _ HallD); [done|..].
  all: intros e He; by destruct e.
Qed.

Lemma devsdk_service_start_registry_configuration_witness :
  let env := sample_env (λ _, None) (λ _, true)
               [NVPair "Service/Port" "49990"] EDGEX_OK EDGEX_OK true in
  let s := sample_state
             (sample_service (Some "consul://registry:8500") None)
             empty_metadata in
  let s' := (run (devsdk_service_start env) s).2 in
  count is_loadConfig (st_trace s') = 0%nat
  ∧ count is_process_configured (st_trace s') = 0%nat.
Proof.
  intros env s s'.
  destruct (devsdk_service_start_registry_configuration env s s'
              (st_trace s') "consul://registry:8500")
    as (Hload & _ & _ & Hproc).
  - reflexivity.
  - discriminate.
  - intros n p.
    apply (not_elem_of_alphabet
             (λ e, match e with
                   | Ev_registry_get_config _ _ [] => false
                   | _ => true
                   end)).
    + vm_compute. reflexivity.
    + reflexivity.
  - vm_compute. reflexivity.
  - vm_compute. reflexivity.
  - split; [exact Hload | exact Hproc].
Defined.
